(** * A shallow embedding of the leveled logger (include/logger.h)

    The logger keeps process-wide state: a table of four shared sinks, a
    stack of profiling timers and six runtime gates.  Its operations talk
    to the outside world (the two standard streams, the file system, the
    clock).  Everything is modelled by explicit state passing in a small
    state-and-exception monad: a C++ exception does not roll the state
    back, so a raised outcome still carries the state reached. *)

From stdpp Require Import gmap strings list pretty.

Local Open Scope Z_scope.

(** ** Text helpers *)

(** The line feed written by [std::endl] and by the literal [\n]. *)
Definition nl : string := String (Ascii.ascii_of_nat 10) EmptyString.

(** [std::setw(3) << std::setfill('0') << n]: the decimal text of [n],
    filled on the left with zeros up to three characters. *)
Definition setw3 (n : Z) : string :=
  let s := pretty n in
  match String.length s with
  | 0%nat => "000" +:+ s
  | 1%nat => "00" +:+ s
  | 2%nat => "0" +:+ s
  | _ => s
  end.

(** Unsigned conversions at call boundaries. *)
Definition u8 (n : Z) : Z := n mod 256.
Definition umax (n : Z) : Z := n mod 2 ^ 64.

(** ** The file system

    Names are bound to inodes; an open [std::ofstream] keeps its inode, so
    a rename does not disturb the data.  [denied] lists the paths on which
    opening for append fails (missing directory, no permission, ...).  A
    stream buffer is taken to hold what it is given until it is flushed. *)

Record file := File { data : string; mtime : Z }.

Record filesystem := FileSystem {
  names : gmap string nat;
  inodes : list file;
  denied : gset string
}.

(** The file a path names; a name whose inode is lost reads as an empty
    file. *)
Definition fs_lookup (fs : filesystem) (p : string) : option file :=
  i ← names fs !! p; Some (default (File "" 0) (inodes fs !! i)).

(** [std::filesystem::exists] *)
Definition fs_exists (fs : filesystem) (p : string) : bool :=
  bool_decide (is_Some (names fs !! p)).

(** [std::filesystem::file_size]; [None] when the call throws. *)
Definition fs_file_size (fs : filesystem) (p : string) : option Z :=
  f ← fs_lookup fs p; Some (Z.of_nat (String.length (data f))).

(** [std::filesystem::last_write_time] *)
Definition fs_last_write_time (fs : filesystem) (p : string) : option Z :=
  f ← fs_lookup fs p; Some (mtime f).

(** [std::filesystem::rename]: the new name replaces whatever it named. *)
Definition fs_rename (fs : filesystem) (old new : string) : option filesystem :=
  match names fs !! old with
  | Some i =>
      Some (FileSystem (<[new := i]> (delete old (names fs))) (inodes fs) (denied fs))
  | None => None
  end.

(** Opening with [ios::ate | ios::app]: the file is created when the name
    is free and kept as it is otherwise.  The empty path never opens. *)
Definition fs_open_append (fs : filesystem) (now : Z) (p : string)
  : option (nat * filesystem) :=
  if decide (p = "" ∨ p ∈ denied fs) then None
  else match names fs !! p with
       | Some i => Some (i, fs)
       | None =>
           let i := length (inodes fs) in
           Some (i, FileSystem (<[p := i]> (names fs))
                               (inodes fs ++ [File "" now]) (denied fs))
       end.

(** The buffered bytes of a stream reach its inode. *)
Definition fs_append (fs : filesystem) (now : Z) (i : nat) (buf : string) : filesystem :=
  if decide (buf = "") then fs
  else FileSystem (names fs)
                  (alter (λ f, File (data f +:+ buf) now) i (inodes fs))
                  (denied fs).

(** ** Logger data *)

Inductive LogLevel := DEBUG | INFO | ERROR | PROFILING | NONE.

(** The value of the enumerator, used as an index. *)
Definition level_index (l : LogLevel) : nat :=
  match l with
  | DEBUG => 0 | INFO => 1 | ERROR => 2 | PROFILING => 3 | NONE => 4
  end%nat.

Module Policy.

Inductive t := NONE | MAX_SIZE | DAILY.

Definition eqb (p q : t) : bool :=
  match p, q with
  | NONE, NONE | MAX_SIZE, MAX_SIZE | DAILY, DAILY => true
  | _, _ => false
  end.

End Policy.

(** What a sink's [std::ostream*] points to.  An [std::ofstream] holds the
    inode it was opened on and the bytes not yet flushed; after [close()]
    it swallows whatever is sent to it. *)
Inductive ostream :=
| Cout
| Cerr
| OFStream (ino : nat) (buf : string)
| ClosedStream.

Record LogSink := mkLogSink {
  lsm : bool;               (* the mutex is held *)
  stream : ostream;
  fileName : string;
  creationDate : string;
  maxSize : Z;
  maxNumFiles : Z;
  rotateDaily : bool
}.

(** Modelled from the spec: [DualFunction] comes from dual_function.h, which
    is not among the sources.  It is the two-mode switch of the "Dynamic
    Enable Gate": it is built from two functions, [enableFirst] and
    [enableSecond] select which of the two a call runs, and the first one
    is selected initially. *)
Inductive Mode := First | Second.

Definition dual_call {A : Type} (m : Mode) (first second : A) : A :=
  match m with First => first | Second => second end.

Record Gates := mkGates {
  g_debug : Mode;
  g_info : Mode;
  g_error : Mode;
  g_getDebugStream : Mode;
  g_getInfoStream : Mode;
  g_getErrorStream : Mode
}.

Record World := mkWorld {
  cout : string;
  cerr : string;
  fs : filesystem;
  clock : Z                 (* nanoseconds since the epoch *)
}.

(** The static members of [Logger].  A [std::shared_ptr<LogSink>] is the
    index of the sink object in [heap], so that levels sharing a sink see
    each other's changes.  No sink object is released while the program
    runs: the two default sinks are held by [defLogSink] and
    [defErrLogSink], and a level that has a file sink keeps it. *)
Record Logger := mkLogger {
  heap : list LogSink;
  _sinks : list nat;        (* std::array<std::shared_ptr<LogSink>, 4> *)
  _timers : list Z;
  gates : Gates;
  _nullStream : string;     (* what the discard stream's buffer has taken *)
  rotThreads : list nat;    (* sinks with a detached daily-rotation thread *)
  world : World
}.

Definition set_heap (f : list LogSink → list LogSink) (st : Logger) : Logger :=
  mkLogger (f (heap st)) (_sinks st) (_timers st) (gates st) (_nullStream st)
           (rotThreads st) (world st).
Definition set_sinks (f : list nat → list nat) (st : Logger) : Logger :=
  mkLogger (heap st) (f (_sinks st)) (_timers st) (gates st) (_nullStream st)
           (rotThreads st) (world st).
Definition set_timers (f : list Z → list Z) (st : Logger) : Logger :=
  mkLogger (heap st) (_sinks st) (f (_timers st)) (gates st) (_nullStream st)
           (rotThreads st) (world st).
Definition set_gates (f : Gates → Gates) (st : Logger) : Logger :=
  mkLogger (heap st) (_sinks st) (_timers st) (f (gates st)) (_nullStream st)
           (rotThreads st) (world st).
Definition set_nullStream (f : string → string) (st : Logger) : Logger :=
  mkLogger (heap st) (_sinks st) (_timers st) (gates st) (f (_nullStream st))
           (rotThreads st) (world st).
Definition set_rotThreads (f : list nat → list nat) (st : Logger) : Logger :=
  mkLogger (heap st) (_sinks st) (_timers st) (gates st) (_nullStream st)
           (f (rotThreads st)) (world st).
Definition set_world (f : World → World) (st : Logger) : Logger :=
  mkLogger (heap st) (_sinks st) (_timers st) (gates st) (_nullStream st)
           (rotThreads st) (f (world st)).

Definition set_fs (f : filesystem → filesystem) (w : World) : World :=
  mkWorld (cout w) (cerr w) (f (fs w)) (clock w).
Definition set_cout (f : string → string) (w : World) : World :=
  mkWorld (f (cout w)) (cerr w) (fs w) (clock w).
Definition set_cerr (f : string → string) (w : World) : World :=
  mkWorld (cout w) (f (cerr w)) (fs w) (clock w).

Definition set_stream (o : ostream) (s : LogSink) : LogSink :=
  mkLogSink (lsm s) o (fileName s) (creationDate s) (maxSize s) (maxNumFiles s)
            (rotateDaily s).
Definition set_lsm (b : bool) (s : LogSink) : LogSink :=
  mkLogSink b (stream s) (fileName s) (creationDate s) (maxSize s) (maxNumFiles s)
            (rotateDaily s).
Definition set_creationDate (d : string) (s : LogSink) : LogSink :=
  mkLogSink (lsm s) (stream s) (fileName s) d (maxSize s) (maxNumFiles s)
            (rotateDaily s).

(** ** The monad *)

Inductive exn :=
| runtime_error (what : string)
| filesystem_error (what : string).

(** How a call ends: it returns, it throws, its behaviour is undefined
    (an index out of range, a cast to the wrong stream class), or it never
    returns because it waits for a mutex that nobody will release. *)
Inductive outcome (A : Type) :=
| Ret (a : A)
| Raise (e : exn)
| Undef
| Stuck.
Arguments Ret {A} a.
Arguments Raise {A} e.
Arguments Undef {A}.
Arguments Stuck {A}.

Definition M (A : Type) : Type := Logger → outcome A * Logger.

Definition ret {A} (a : A) : M A := λ st, (Ret a, st).

Definition bind {A B} (m : M A) (k : A → M B) : M B :=
  λ st, match m st with
        | (Ret a, st') => k a st'
        | (Raise e, st') => (Raise e, st')
        | (Undef, st') => (Undef, st')
        | (Stuck, st') => (Stuck, st')
        end.

Notation "'do' x <- m ; k" := (bind m (λ x, k))
  (at level 10, x name, m at level 100, k at level 200,
   format "'[v' 'do'  x  <-  m ; '/' k ']'").
Notation "'do_' m ; k" := (bind m (λ _, k))
  (at level 10, m at level 100, k at level 200,
   format "'[v' 'do_'  m ; '/' k ']'").

Definition throw {A} (e : exn) : M A := λ st, (Raise e, st).
Definition undefined {A} : M A := λ st, (Undef, st).
Definition stuck {A} : M A := λ st, (Stuck, st).
Definition gets {A} (f : Logger → A) : M A := λ st, (Ret (f st), st).
Definition modify (f : Logger → Logger) : M unit := λ st, (Ret tt, f st).

(** [*p] for a shared pointer [p]. *)
Definition get_sink (h : nat) : M LogSink :=
  λ st, match heap st !! h with
        | Some s => (Ret s, st)
        | None => (Undef, st)
        end.

Definition modify_sink (h : nat) (f : LogSink → LogSink) : M unit :=
  modify (set_heap (alter f h)).

(** [_sinks[level]] *)
Definition sink_of (level : LogLevel) : M nat :=
  λ st, match _sinks st !! level_index level with
        | Some h => (Ret h, st)
        | None => (Undef, st)
        end.

(** [std::chrono::system_clock::now()] *)
Definition now : M Z := gets (λ st, clock (world st)).

(** [std::mutex::lock] and [unlock] *)
Definition lock (h : nat) : M unit :=
  do s <- get_sink h;
  if lsm s then stuck else modify_sink h (set_lsm true).

Definition unlock (h : nat) : M unit := modify_sink h (set_lsm false).

(** ** Stream operations on a sink's stream *)

(** [*sink.stream << text]

    An [std::ofstream] keeps text in a buffer of a size of its own and
    writes it to the file when the buffer is full, when the text is too
    long for it, on [flush] and on [close].  [OFStream i buf] gives the
    file [i] the stream was opened on and the text [buf] it has taken but
    not yet written.  The operations below write to the file on [flush]
    and [close]; what the buffer writes by itself is [drain] below, a
    step of its own between two calls.  What a stream has taken in all,
    on disk or not, is [sent], which does not depend on where the buffer
    ends. *)
Definition stream_put (h : nat) (text : string) : M unit :=
  do s <- get_sink h;
  match stream s with
  | Cout => modify (set_world (set_cout (λ c, c +:+ text)))
  | Cerr => modify (set_world (set_cerr (λ c, c +:+ text)))
  | OFStream i buf => modify_sink h (set_stream (OFStream i (buf +:+ text)))
  | ClosedStream => ret tt
  end.

(** [sink.stream->flush()] *)
Definition stream_flush (h : nat) : M unit :=
  do s <- get_sink h;
  match stream s with
  | OFStream i buf =>
      do t <- now;
      do_ modify (set_world (set_fs (λ f, fs_append f t i buf)));
      modify_sink h (set_stream (OFStream i ""))
  | _ => ret tt
  end.

(** [*sink.stream << std::endl] *)
Definition stream_endl (h : nat) : M unit :=
  do_ stream_put h nl;
  stream_flush h.

(** [static_cast<std::ofstream*>(sink.stream)->close()] *)
Definition stream_close (h : nat) : M unit :=
  do s <- get_sink h;
  match stream s with
  | OFStream i buf =>
      do_ stream_flush h;
      modify_sink h (set_stream ClosedStream)
  | ClosedStream => ret tt
  | Cout | Cerr => undefined
  end.

(** ** File-system calls inside the monad *)

Definition file_size (p : string) : M Z :=
  λ st, match fs_file_size (fs (world st)) p with
        | Some n => (Ret n, st)
        | None => (Raise (filesystem_error ("file_size: " +:+ p)), st)
        end.

Definition exists_ (p : string) : M bool :=
  gets (λ st, fs_exists (fs (world st)) p).

Definition rename (old new : string) : M unit :=
  λ st, match fs_rename (fs (world st)) old new with
        | Some fs' => (Ret tt, set_world (set_fs (λ _, fs')) st)
        | None => (Raise (filesystem_error ("rename: " +:+ old)), st)
        end.

(** [Logger::_openLogFile] *)
Definition _openLogFile (fileName : string) : M ostream :=
  λ st, match fs_open_append (fs (world st)) (clock (world st)) fileName with
        | Some (i, fs') => (Ret (OFStream i ""), set_world (set_fs (λ _, fs')) st)
        | None =>
            (Raise (runtime_error ("Log File cannot be opened: " +:+ fileName)), st)
        end.

(** [Logger::_HEADERS] *)
Definition _HEADERS : list string :=
  ["DEBUG: "; "INFO: "; "*** ERROR!" +:+ nl +:+ "                         "].

Definition header (level : LogLevel) : M string :=
  λ st, match _HEADERS !! level_index level with
        | Some hd => (Ret hd, st)
        | None => (Undef, st)
        end.

(** Conversions of a time point in nanoseconds. *)
Definition to_time_t (t : Z) : Z := Z.quot t 1000000000.
Definition from_time_t (t : Z) : Z := t * 1000000000.
Definition millis_of (t : Z) : Z := Z.rem (Z.quot t 1000000) 1000.
Definition hours24 : Z := 86400 * 1000000000.

(** The name of the [i]-th numbered archive of [path]. *)
Definition archive (path : string) (i : nat) : string :=
  path +:+ "." +:+ pretty i.

Section Logger.

(** The C library's calendar functions, in the process's local time zone:
    [std::put_time(std::localtime(&t), "%Y%m%d")], the same with the
    logger's [_dateTimeFormat] ("%F %T"), and
    [std::get_time(.., "%Y%m%d")] followed by [std::mktime]. *)
Variable put_time_Ymd : Z → string.
Variable put_time_FT : Z → string.
Variable mktime_Ymd : string → Z.

(** *** Size rotation *)

(** The loop [for (auto i = sink.maxNumFiles - 2; i > 0; --i)] of
    [_sizeRotation], from its current index down to 1. *)
Fixpoint shift_archives (path : string) (i : nat) : M unit :=
  match i with
  | O => ret tt
  | S i' =>
      let file := archive path i in
      do e <- exists_ file;
      do_ (if e then rename file (archive path (i + 1)) else ret tt);
      shift_archives path i'
  end.

(** [Logger::_sizeRotation] *)
Definition _sizeRotation (h : nat) : M unit :=
  do s <- get_sink h;
  do size <- file_size (fileName s);
  if size >? maxSize s then
    do_ stream_flush h;
    do_ stream_close h;
    do_ shift_archives (fileName s) (Z.to_nat (maxNumFiles s - 2));
    do_ rename (fileName s) (fileName s +:+ ".1");
    do o <- _openLogFile (fileName s);
    do_ modify_sink h (set_stream o);
    do timestamp <- now;
    modify_sink h (set_creationDate (put_time_Ymd (to_time_t timestamp)))
  else ret tt.

(** *** The write path *)

(** The text both write paths send after [std::endl]. *)
Definition stamp (timestamp milliseconds : Z) (hd : string) : string :=
  put_time_FT timestamp +:+ "." +:+ setw3 milliseconds +:+ " - " +:+ hd.

(** [Logger::_write] *)
Definition _write (level : LogLevel) (trace : string) : M unit :=
  do h <- sink_of level;
  do_ lock h;
  do s <- get_sink h;
  do_ (if bool_decide (maxSize s ≠ 0) then _sizeRotation h else ret tt);
  do t <- now;
  let timestamp := to_time_t t in
  do t' <- now;
  let milliseconds := millis_of t' in
  do hd <- header level;
  do_ stream_endl h;
  do_ stream_put h (stamp timestamp milliseconds hd +:+ trace);
  unlock h.

(** [Logger::_writeOut] *)
Definition _writeOut (level : LogLevel) : M unit :=
  do h <- sink_of level;
  do_ lock h;
  do s <- get_sink h;
  do_ (if bool_decide (maxSize s ≠ 0) then _sizeRotation h else ret tt);
  do t <- now;
  let timestamp := to_time_t t in
  do t' <- now;
  let milliseconds := millis_of t' in
  do hd <- header level;
  do_ stream_endl h;
  do_ stream_put h (stamp timestamp milliseconds hd);
  unlock h.

(** The [std::ostream*] handed to a caller: the discard stream or the
    stream of a sink. *)
Inductive stream_ref :=
| NullStreamRef
| SinkStreamRef (h : nat).

(** [Logger::_getStream] *)
Definition _getStream (level : LogLevel) : M stream_ref :=
  do_ _writeOut level;
  do h <- sink_of level;
  ret (SinkStreamRef h).

(** [*ref << text] by the caller of a stream accessor. *)
Definition ref_put (r : stream_ref) (text : string) : M unit :=
  match r with
  | NullStreamRef => modify (set_nullStream (λ b, b +:+ text))
  | SinkStreamRef h => stream_put h text
  end.

(** *** The public entry points, each a [DualFunction] *)

Definition debug (trace : string) : M unit :=
  do m <- gets (λ st, g_debug (gates st));
  dual_call m (_write DEBUG trace) (ret tt).

Definition info (trace : string) : M unit :=
  do m <- gets (λ st, g_info (gates st));
  dual_call m (_write INFO trace) (ret tt).

Definition error (trace : string) : M unit :=
  do m <- gets (λ st, g_error (gates st));
  dual_call m (_write ERROR trace) (ret tt).

Definition getDebugStream : M stream_ref :=
  do m <- gets (λ st, g_getDebugStream (gates st));
  dual_call m (_getStream DEBUG) (ret NullStreamRef).

Definition getInfoStream : M stream_ref :=
  do m <- gets (λ st, g_getInfoStream (gates st));
  dual_call m (_getStream INFO) (ret NullStreamRef).

Definition getErrorStream : M stream_ref :=
  do m <- gets (λ st, g_getErrorStream (gates st));
  dual_call m (_getStream ERROR) (ret NullStreamRef).

(** [Logger::setLevel]; the switch has no case for [PROFILING]. *)
Definition setLevel (level : LogLevel) : M unit :=
  match level with
  | DEBUG => modify (set_gates (λ _, mkGates First First First First First First))
  | INFO => modify (set_gates (λ _, mkGates Second First First Second First First))
  | ERROR => modify (set_gates (λ _, mkGates Second Second First Second Second First))
  | NONE => modify (set_gates (λ _, mkGates Second Second Second Second Second Second))
  | PROFILING => ret tt
  end.

(** *** Profiling timers *)

(** [Logger::startTimer] *)
Definition startTimer (function : string) (line : Z) : M unit :=
  do h <- sink_of PROFILING;
  do n <- gets (λ st, length (_timers st));
  do_ stream_put h (nl +:+ "Timer #" +:+ pretty (n + 1)%nat +:+ " STARTED at "
                    +:+ function +:+ " (Line " +:+ pretty line +:+ ")");
  do t <- now;
  modify (set_timers (λ ts, ts ++ [t])).

(** [Logger::stopTimer<UNIT>]; [unit_ns] is the length of one [UNIT] in
    nanoseconds, so that [duration_cast<UNIT>] is a truncating division. *)
Definition stopTimer (unit_ns : Z) (unit_ function : string) (line : Z) : M unit :=
  do stopTime <- now;
  do ts <- gets _timers;
  do h <- sink_of PROFILING;
  match last ts with
  | Some start =>
      let duration := Z.quot (stopTime - start) unit_ns in
      do_ stream_put h (nl +:+ "Timer #" +:+ pretty (length ts) +:+ " STOPPED at "
                        +:+ function +:+ " (Line " +:+ pretty line
                        +:+ ") --- DURATION = " +:+ pretty duration +:+ " " +:+ unit_);
      modify (set_timers (λ ts, removelast ts))
  | None =>
      do_ stream_put h "Timer not started!";
      stream_endl h
  end.

(** *** Sink construction and assignment *)

Definition last_write_time (p : string) : M Z :=
  λ st, match fs_last_write_time (fs (world st)) p with
        | Some t => (Ret t, st)
        | None => (Raise (filesystem_error ("last_write_time: " +:+ p)), st)
        end.

(** The constructor [LogSink(fileName, policy, maxNumFiles, maxSize)] run
    on the object that will live at index [this].  The rotation thread it
    detaches is recorded in [rotThreads]; its iterations are
    [_dailyRotationThread] below. *)
Definition LogSink_file (this : nat) (fname : string) (policy : Policy.t)
    (maxNumFiles_ maxSize_ : Z) : M LogSink :=
  let maxSize' := umax maxSize_ in
  let maxNumFiles' :=
    if Policy.eqb policy Policy.MAX_SIZE && bool_decide (maxSize' ≠ 0)
    then Z.max (u8 maxNumFiles_) 2 else 0 in
  do creation <-
    (if Policy.eqb policy Policy.DAILY then
       do e <- exists_ fname;
       do timestamp <-
         (if e then
            do lastWrite <- last_write_time fname;
            do t <- now;
            let timedif := t - lastWrite in
            do t' <- now;
            ret (to_time_t (t' - timedif))
          else
            do t <- now;
            ret (to_time_t t));
       do_ _openLogFile fname;
       do_ modify (set_rotThreads (λ l, l ++ [this]));
       ret (put_time_Ymd timestamp)
     else ret "");
  do o <- _openLogFile fname;
  ret (mkLogSink false o fname creation maxSize' maxNumFiles' false).

(** [std::shared_ptr<LogSink>(new LogSink(..))] *)
Definition new_LogSink (fname : string) (policy : Policy.t)
    (maxNumFiles_ maxSize_ : Z) : M nat :=
  do this <- gets (λ st, length (heap st));
  do s <- LogSink_file this fname policy maxNumFiles_ maxSize_;
  do_ modify (set_heap (λ hp, hp ++ [s]));
  ret this.

(** The loop of [setLogFile(level, ..)] that looks for a sink already
    writing to [fname]. *)
Fixpoint find_sink (fname : string) (tbl : list nat) : M (option nat) :=
  match tbl with
  | [] => ret None
  | h :: tbl' =>
      do s <- get_sink h;
      if bool_decide (fileName s = fname) then ret (Some h)
      else find_sink fname tbl'
  end.

(** [Logger::setLogFile(level, fileName, policy, maxNumFiles, maxSize)] *)
Definition setLogFile (level : LogLevel) (fname : string) (policy : Policy.t)
    (maxNumFiles_ maxSize_ : Z) : M unit :=
  do h <- sink_of level;
  do s <- get_sink h;
  if bool_decide (fileName s ≠ "") then
    throw (runtime_error "Log file already assigned to this log level")
  else
    do tbl <- gets _sinks;
    do found <- find_sink fname tbl;
    match found with
    | Some h' => modify (set_sinks (<[level_index level := h']>))
    | None =>
        do hn <- new_LogSink fname policy maxNumFiles_ maxSize_;
        modify (set_sinks (<[level_index level := hn]>))
    end.

(** The first loop of [setLogFile(fileName, ..)]. *)
Fixpoint check_unassigned (tbl : list nat) : M unit :=
  match tbl with
  | [] => ret tt
  | h :: tbl' =>
      do s <- get_sink h;
      if bool_decide (fileName s ≠ "") then
        throw (runtime_error
                 ("Log file already assigned to a log sink: " +:+ fileName s))
      else check_unassigned tbl'
  end.

(** [Logger::setLogFile(fileName, policy, maxNumFiles, maxSize)] *)
Definition setLogFile_all (fname : string) (policy : Policy.t)
    (maxNumFiles_ maxSize_ : Z) : M unit :=
  do tbl <- gets _sinks;
  do_ check_unassigned tbl;
  do tmp <- new_LogSink fname policy maxNumFiles_ maxSize_;
  modify (set_sinks (fmap (λ _, tmp))).

(** *** Daily rotation *)

(** One turn of the [while (true)] loop of [Logger::_dailyRotationThread];
    the value returned is the time the thread then sleeps.

    The code computes the start of the day of the creation date with
    [std::get_time] and [std::mktime] on a [std::tm] of which it sets the
    date and the time of day and nothing else; [tm_isdst], which
    [std::mktime] reads, is left as it was found.  [mktime_Ymd] stands for
    the result of that one call.  The sleep of a turn is therefore known
    only up to that result, and the sleeps of two turns are never
    compared below. *)
Definition _dailyRotationThread (h : nat) : M Z :=
  do timestampNow <- now;
  let strTMNow := put_time_Ymd (to_time_t timestampNow) in
  do s <- get_sink h;
  do rotate <-
    (if bool_decide (creationDate s ≠ strTMNow) then
       do size <- file_size (fileName s);
       ret (bool_decide (size ≠ 0))
     else ret false);
  do_ (if rotate : bool then
         do_ lock h;
         do_ stream_flush h;
         do_ stream_close h;
         do_ rename (fileName s) (fileName s +:+ "." +:+ creationDate s);
         do o <- _openLogFile (fileName s);
         do_ modify_sink h (set_stream o);
         do_ modify_sink h (set_creationDate strTMNow);
         unlock h
       else ret tt);
  do s' <- get_sink h;
  do t <- now;
  ret (hours24 - (t - from_time_t (mktime_Ymd (creationDate s')))).

(** The time the rotation thread sleeps when the sink is stamped [date]. *)
Definition sleep_after (date : string) (t : Z) : Z :=
  hours24 - (t - from_time_t (mktime_Ymd date)).

(** The date stamp a new sink starts with. *)
Definition creation_stamp (policy : Policy.t) (w : World) (fname : string) : string :=
  if Policy.eqb policy Policy.DAILY then
    put_time_Ymd
      (to_time_t (match fs_last_write_time (fs w) fname with
                  | Some t => clock w - (clock w - t)
                  | None => clock w
                  end))
  else "".

(** *** The logger as a whole *)

(** The state at program start: [defLogSink], [defErrLogSink] and the
    table [{defLogSink, defLogSink, defErrLogSink, defLogSink}]. *)
Definition init (w : World) : Logger :=
  mkLogger [mkLogSink false Cout "" "" 0 0 false;
            mkLogSink false Cerr "" "" 0 0 false]
           [0; 0; 1; 0]%nat [] (mkGates First First First First First First)
           "" [] w.

(** What can happen to the logger: a call of its interface by the
    program, a turn of a rotation thread, or a change of the outside world
    (the clock advances, files are touched by others). *)
Inductive event :=
| EDebug (trace : string)
| EInfo (trace : string)
| EError (trace : string)
| EGetDebugStream
| EGetInfoStream
| EGetErrorStream
| EPut (r : stream_ref) (text : string)
| EStartTimer (function : string) (line : Z)
| EStopTimer (unit_ns : Z) (unit_ function : string) (line : Z)
| ESetLevel (level : LogLevel)
| ESetLogFile (level : LogLevel) (fname : string) (policy : Policy.t)
              (maxNumFiles_ maxSize_ : Z)
| ESetLogFileAll (fname : string) (policy : Policy.t) (maxNumFiles_ maxSize_ : Z)
| EDailyThread (h : nat)
| EWorld (f : World → World).

Definition discard {A} (m : M A) : M unit := do_ m; ret tt.

Definition run_event (e : event) : M unit :=
  match e with
  | EDebug trace => debug trace
  | EInfo trace => info trace
  | EError trace => error trace
  | EGetDebugStream => discard getDebugStream
  | EGetInfoStream => discard getInfoStream
  | EGetErrorStream => discard getErrorStream
  | EPut r text => ref_put r text
  | EStartTimer f l => startTimer f l
  | EStopTimer u un f l => stopTimer u un f l
  | ESetLevel l => setLevel l
  | ESetLogFile l f p n sz => setLogFile l f p n sz
  | ESetLogFileAll f p n sz => setLogFile_all f p n sz
  | EDailyThread h => discard (_dailyRotationThread h)
  | EWorld f => modify (set_world f)
  end.

(** The state after a sequence of events.  A thrown exception is caught by
    the caller, who goes on; nothing follows undefined behaviour or a
    caller that waits forever. *)
Fixpoint run_events (es : list event) (st : Logger) : Logger :=
  match es with
  | [] => st
  | e :: es' =>
      match run_event e st with
      | (Ret _, st') | (Raise _, st') => run_events es' st'
      | (Undef, st') | (Stuck, st') => st'
      end
  end.

End Logger.

(** ** Observations *)

(** Everything the stream of sink [h] has taken so far: the text on the
    standard stream, or the data of the open file followed by the bytes
    still in the buffer. *)
Definition sent (st : Logger) (h : nat) : string :=
  match heap st !! h with
  | Some s =>
      match stream s with
      | Cout => cout (world st)
      | Cerr => cerr (world st)
      | OFStream i buf =>
          from_option data "" (inodes (fs (world st)) !! i) +:+ buf
      | ClosedStream => ""
      end
  | None => ""
  end.

(** The stream of [s] accepts output: it is a standard stream or a file
    stream open on an inode of the file system. *)
Definition stream_live (st : Logger) (s : LogSink) : Prop :=
  match stream s with
  | Cout | Cerr => True
  | OFStream i _ => is_Some (inodes (fs (world st)) !! i)
  | ClosedStream => False
  end.

(** Every level of the table points to a sink object. *)
Definition table_ok (st : Logger) : Prop :=
  length (_sinks st) = 4%nat ∧ Forall (λ h, is_Some (heap st !! h)) (_sinks st).

(** [fname] can be opened for append. *)
Definition openable (f : filesystem) (fname : string) : Prop :=
  fname ≠ "" ∧ fname ∉ denied f.


(** The first [k] characters of [s], and the rest. *)
Fixpoint split_at (k : nat) (s : string) : string * string :=
  match k, s with
  | S k', String c s' => let '(a, b) := split_at k' s' in (String c a, b)
  | _, _ => ("", s)
  end.

(** What the buffer of an [std::ofstream] may do between two calls by
    itself: the first [k] characters the stream of sink [h] has taken but
    not yet written go to its file. *)
Definition drain (h k : nat) (st : Logger) : Logger :=
  match heap st !! h with
  | Some s =>
      match stream s with
      | OFStream i buf =>
          let '(a, b) := split_at k buf in
          set_heap (alter (set_stream (OFStream i b)) h)
            (set_world (set_fs (λ f, fs_append f (clock (world st)) i a)) st)
      | _ => st
      end
  | None => st
  end.


(** The state in which a write holds the mutex of sink [h]. *)
Definition locked (h : nat) (s : LogSink) (st : Logger) : Logger :=
  set_heap (λ hp, <[h := set_lsm true s]> hp) st.

(** The error of [setLogFile(level, ..)] on a level that has a file. *)
Definition conflict : outcome unit :=
  Raise (runtime_error "Log file already assigned to this log level").

(** The sink objects of [st] are still there in [st'], with the fields
    that only the constructor sets. *)
Definition keeps (st st' : Logger) : Prop :=
  ∀ h s, heap st !! h = Some s →
    ∃ s', heap st' !! h = Some s' ∧ fileName s' = fileName s
          ∧ maxSize s' = maxSize s ∧ maxNumFiles s' = maxNumFiles s.

(** The same, and the table is the same. *)
Definition stable (st st' : Logger) : Prop :=
  keeps st st' ∧ _sinks st' = _sinks st.

(** The operation [m] takes every state to one related to it by [R]. *)
Definition preserving {A} (R : Logger → Logger → Prop) (m : M A) : Prop :=
  ∀ st, R st (m st).2.

(** What one pass of the archive loop does to the names. *)
Fixpoint shift_names (path : string) (i : nat) (nm : gmap string nat)
  : gmap string nat :=
  match i with
  | O => nm
  | S i' =>
      shift_names path i'
        (match nm !! archive path i with
         | Some x => <[archive path (i + 1) := x]> (delete (archive path i) nm)
         | None => nm
         end)
  end.

Definition set_names (f : gmap string nat → gmap string nat) (x : filesystem)
  : filesystem :=
  FileSystem (f (names x)) (inodes x) (denied x).

(** What [_write] does once the size check is over. *)
Definition write_tail (put_time_FT : Z → string) (level : LogLevel) (h : nat)
    (trace : string) : M unit :=
  do t <- now;
  do t' <- now;
  do hd <- header level;
  do_ stream_endl h;
  do_ stream_put h (stamp put_time_FT (to_time_t t) (millis_of t') hd +:+ trace);
  unlock h.

(** The line a write adds: [\n<timestamp>.<ms> - <header><message>]. *)
Definition line (put_time_FT : Z → string) (t : Z) (hd trace : string) : string :=
  nl +:+ put_time_FT (to_time_t t) +:+ "." +:+ setw3 (millis_of t) +:+ " - "
     +:+ hd +:+ trace.

(** The value [maxNumFiles] is initialised with. *)
Definition clamp (policy : Policy.t) (n sz : Z) : Z :=
  if Policy.eqb policy Policy.MAX_SIZE && bool_decide (umax sz ≠ 0)
  then Z.max (u8 n) 2 else 0.

(** What [_write] and [_writeOut] have in common, from the mutex to
    [std::endl]; the value is the text that both send next. *)
Definition write_head (put_time_Ymd put_time_FT : Z → string)
    (level : LogLevel) (h : nat) : M string :=
  do_ lock h;
  do s <- get_sink h;
  do_ (if bool_decide (maxSize s ≠ 0) then _sizeRotation put_time_Ymd h
       else ret tt);
  do t <- now;
  do t' <- now;
  do hd <- header level;
  do_ stream_endl h;
  ret (stamp put_time_FT (to_time_t t) (millis_of t') hd).

(** The part [p] of the state is the same in both states. *)
Definition same {X} (p : Logger → X) (st st' : Logger) : Prop := p st' = p st.

(** The switches of the three logging levels are consistent: a stream
    accessor is switched like its write function, and a level that is
    enabled has every higher level enabled. *)
Definition gates_ok (g : Gates) : Prop :=
  g_getDebugStream g = g_debug g
  ∧ g_getInfoStream g = g_info g
  ∧ g_getErrorStream g = g_error g
  ∧ (g_debug g = First → g_info g = First)
  ∧ (g_info g = First → g_error g = First).

(** The switch of the write function and of the stream accessor of a
    logging level. *)
Definition write_gate (g : Gates) (l : LogLevel) : option Mode :=
  match l with
  | DEBUG => Some (g_debug g)
  | INFO => Some (g_info g)
  | ERROR => Some (g_error g)
  | PROFILING | NONE => None
  end.

Definition stream_gate (g : Gates) (l : LogLevel) : option Mode :=
  match l with
  | DEBUG => Some (g_getDebugStream g)
  | INFO => Some (g_getInfoStream g)
  | ERROR => Some (g_getErrorStream g)
  | PROFILING | NONE => None
  end.

(** The file names of the sink objects, in the order of their creation. *)
Definition sink_names (st : Logger) : list string := fileName <$> heap st.

(** An event that assigns a log file. *)
Definition assigns (e : event) : bool :=
  match e with
  | ESetLogFile _ _ _ _ _ | ESetLogFileAll _ _ _ _ => true
  | _ => false
  end.

(** An event that starts or stops a timer. *)
Definition times (e : event) : bool :=
  match e with
  | EStartTimer _ _ | EStopTimer _ _ _ _ => true
  | _ => false
  end.

(** An event that sets the level. *)
Definition levels (e : event) : bool :=
  match e with
  | ESetLevel _ => true
  | _ => false
  end.

(** An event that sends text to the discard stream. *)
Definition discards (e : event) : bool :=
  match e with
  | EPut NullStreamRef _ => true
  | _ => false
  end.

(** No sink object with a file name is out of the table, and no two sink
    objects have the same file name.  Names are compared as strings, as
    [setLogFile] compares them: two names of one file are two names. *)
Definition one_sink_per_name (st : Logger) : Prop :=
  (∀ h s, heap st !! h = Some s → fileName s ≠ "" → h ∈ _sinks st)
  ∧ (∀ h1 h2 s1 s2,
       heap st !! h1 = Some s1 → heap st !! h2 = Some s2 →
       fileName s1 = fileName s2 → fileName s1 ≠ "" → h1 = h2).

(** A holder of the mutex of sink [h] in [st] still holds it in [st']. *)
Definition holds_lock (h : nat) (st st' : Logger) : Prop :=
  ∀ s, heap st !! h = Some s → lsm s = true →
  ∃ s', heap st' !! h = Some s' ∧ lsm s' = true.

(** The operation [m] throws nothing. *)
Definition no_raise {A} (m : M A) : Prop := ∀ st e, (m st).1 ≠ Raise e.

(** Calls of [_write], one after the other. *)
Fixpoint write_all (put_time_Ymd put_time_FT : Z → string)
    (msgs : list (LogLevel * string)) : M unit :=
  match msgs with
  | [] => ret tt
  | m :: msgs' =>
      do_ _write put_time_Ymd put_time_FT m.1 m.2;
      write_all put_time_Ymd put_time_FT msgs'
  end.

(** The lines these calls add when the clock reads [t]. *)
Fixpoint lines (put_time_FT : Z → string) (t : Z)
    (msgs : list (LogLevel * string)) : string :=
  match msgs with
  | [] => ""
  | m :: msgs' =>
      line put_time_FT t (default "" (_HEADERS !! level_index m.1)) m.2
      +:+ lines put_time_FT t msgs'
  end.

(** The operation [m] never waits for a mutex. *)
Definition no_stuck {A} (m : M A) : Prop := ∀ st, (m st).1 ≠ Stuck.

(** The limits of a sink are values of their C++ types, and a file count
    is either unused or at least 2 and then comes with a size limit. *)
Definition limits_ok (s : LogSink) : Prop :=
  0 ≤ maxSize s < 2 ^ 64
  ∧ (maxNumFiles s = 0 ∨ 2 ≤ maxNumFiles s ≤ 255)
  ∧ (maxNumFiles s ≠ 0 → maxSize s ≠ 0).

(** A standard stream: it is no [std::ofstream] and cannot be closed. *)
Definition std_stream (o : ostream) : bool :=
  match o with
  | Cout | Cerr => true
  | OFStream _ _ | ClosedStream => false
  end.

(** The handle [h] points to a sink object that the write path can work
    on: it is on a file stream if it has a size limit, and, when [strict],
    in any case. *)
Definition sound (strict : bool) (h : nat) (st : Logger) : Prop :=
  ∃ s, heap st !! h = Some s
       ∧ (strict = true ∨ maxSize s ≠ 0 → std_stream (stream s) = false).

(** What is sound in [st] is sound in [st']. *)
Definition keeps_sound (st st' : Logger) : Prop :=
  ∀ b h, sound b h st → sound b h st'.

(** On a sound handle [h], the behaviour of [m] is defined. *)
Definition defined {A} (strict : bool) (h : nat) (m : M A) : Prop :=
  ∀ st, sound strict h st → (m st).1 ≠ Undef.

(** The table is in order, every sink object is sound, and the rotation
    threads run on sinks with a file stream. *)
Definition well_formed (st : Logger) : Prop :=
  table_ok st
  ∧ (∀ h, is_Some (heap st !! h) → sound false h st)
  ∧ (∀ h, h ∈ rotThreads st → sound true h st).

(** What a program can do in [st]: call the interface with the level an
    index of the table, send text to a stream it was handed by an
    accessor; and the turns of the rotation threads that were started. *)
Definition defined_call (st : Logger) (e : event) : Prop :=
  match e with
  | ESetLogFile NONE _ _ _ _ => False
  | EPut (SinkStreamRef h) _ => h ∈ _sinks st
  | EDailyThread h => h ∈ rotThreads st
  | _ => True
  end.

(** ** Sample surroundings for the examples

    A stand-in calendar (the day number and the second count printed in
    decimal) and an empty world at 1.5 s after the epoch. *)
Definition demo_Ymd (t : Z) : string := pretty (t `div` 86400).
Definition demo_FT (t : Z) : string := pretty t.
Definition demo_mktime (s : string) : Z := 0.

Definition demo_world : World := mkWorld "" "" (FileSystem ∅ [] ∅) 1500000000.

Definition tick (seconds : Z) : event :=
  EWorld (λ w, mkWorld (cout w) (cerr w) (fs w) (clock w + seconds * 1000000000)).

(** Somebody removes [p] behind the logger's back. *)
Definition unlink (p : string) : event :=
  EWorld (set_fs (set_names (delete p))).

Definition demo_run (es : list event) : Logger :=
  run_events demo_Ymd demo_FT demo_mktime es (init demo_world).

(** DEBUG goes to a.log, limited to 5 bytes and 4 files; two lines have
    been written, the first is on disk and the second in the buffer. *)
Definition demo_sized : Logger :=
  demo_run [ESetLogFile DEBUG "a.log" Policy.MAX_SIZE 4 5;
            EDebug "0123456789"; EDebug "b"].

(** The same with [Policy::NONE]. *)
Definition demo_unsized : Logger :=
  demo_run [ESetLogFile DEBUG "a.log" Policy.NONE 0 5;
            EDebug "0123456789"; EDebug "b"].

(** DEBUG goes to a.log, rotated daily; one line is on disk and two days
    have gone by. *)
Definition demo_daily : Logger :=
  demo_run [ESetLogFile DEBUG "a.log" Policy.DAILY 0 0;
            EDebug "yesterday"; EDebug "b"; tick 172800].

(** DEBUG goes to a.log; the file has been removed by somebody else. *)
Definition demo_unlinked : Logger :=
  demo_run [ESetLogFile DEBUG "a.log" Policy.MAX_SIZE 2 5;
            EDebug "first"; unlink "a.log"].

(** DEBUG goes to a.log. *)
Definition demo_assigned : Logger :=
  demo_run [ESetLogFile DEBUG "a.log" Policy.NONE 0 0].

(** A world in which b.log cannot be opened. *)
Definition demo_denied : Logger :=
  init (mkWorld "" "" (FileSystem ∅ [] {["b.log"]}) 1500000000).

(** Two timers are running. *)
Definition demo_timers : Logger :=
  demo_run [EStartTimer "main" 11; tick 1; EStartTimer "main" 28; tick 2].

(** Three days after the epoch; old.log was last written on day 1 and no
    level writes to it. *)
Definition demo_stale : Logger :=
  init (mkWorld "" ""
          (FileSystem {["old.log" := 0%nat]} [File "previous" 86400000000000] ∅)
          259200000000000).

(** Three calls that go to the standard output. *)
Definition demo_msgs : list (LogLevel * string) :=
  [(DEBUG, "a"); (INFO, "b"); (DEBUG, "c")].

(** What the program does to [demo_assigned] next. *)
Definition demo_later : list event :=
  [ESetLogFile DEBUG "b.log" Policy.NONE 0 0;
   ESetLogFileAll "c.log" Policy.NONE 0 0;
   EDebug "x"; ESetLevel NONE].

(** DEBUG goes to a.log, limited to 5 bytes and rotated daily; two lines
    have been written and two days have gone by. *)
Definition demo_sized_daily : Logger :=
  demo_run [ESetLogFile DEBUG "a.log" Policy.DAILY 0 5;
            EDebug "0123456789"; EDebug "b"; tick 172800].

(** DEBUG goes to a.log, limited to 20 bytes and 4 files; two lines have
    been written, and the first alone is longer than the limit. *)
Definition demo_roomy : Logger :=
  demo_run [ESetLogFile DEBUG "a.log" Policy.MAX_SIZE 4 20;
            EDebug "0123456789"; EDebug "b"].

(** A world in which a.log and b.log are two names of one empty file. *)
Definition demo_linked : Logger :=
  init (mkWorld "" ""
          (FileSystem {["a.log" := 0%nat; "b.log" := 0%nat]}
             [File "" 1500000000] ∅)
          1500000000).

(** DEBUG goes to a.log, rotated daily; nothing has been written and two
    days have gone by. *)
Definition demo_quiet : Logger :=
  demo_run [ESetLogFile DEBUG "a.log" Policy.DAILY 0 0; tick 172800].

(** * Properties *)

(** ** Strings and lists *)

Lemma string_app_assoc (a b c : string) : (a +:+ b) +:+ c = a +:+ b +:+ c.
Proof.
  induction a as [|x a IH]; [done|].
  change (String x ((a +:+ b) +:+ c) = String x (a +:+ b +:+ c)). by rewrite IH.
Qed.

Lemma string_app_nil_r (a : string) : a +:+ "" = a.
Proof.
  induction a as [|x a IH]; [done|].
  change (String x (a +:+ "") = String x a). by rewrite IH.
Qed.

Lemma string_app_nil_l (s : string) : "" +:+ s = s.
Proof. reflexivity. Qed.

Lemma string_length_app (a b : string) :
  String.length (a +:+ b) = (String.length a + String.length b)%nat.
Proof.
  induction a as [|x a IH]; [done|].
  change (S (String.length (a +:+ b)) = S (String.length a + String.length b)).
  by rewrite IH.
Qed.

Lemma string_app_dot_ne (path x : string) : path +:+ "." +:+ x ≠ path.
Proof.
  intros E. apply (f_equal String.length) in E.
  rewrite !string_length_app in E. simpl in E. lia.
Qed.

Lemma archive_ne_path path j : archive path j ≠ path.
Proof. apply string_app_dot_ne. Qed.

Lemma archive_inj path j k : archive path j = archive path k → j = k.
Proof.
  unfold archive. intros E. apply String.app_inj in E. apply String.app_inj in E.
  by apply pretty_nat_inj in E.
Qed.

Lemma archive_1 path : path +:+ ".1" = archive path 1.
Proof. reflexivity. Qed.

Lemma list_alter_as_insert {A} (f : A → A) (l : list A) (i : nat) (x : A) :
  l !! i = Some x → alter f i l = <[i := f x]> l.
Proof.
  revert i. induction l as [|y l IH]; intros [|i] H; simplify_eq/=; [done|].
  f_equal. by apply IH.
Qed.

Lemma list_alter_insert_same {A} (f : A → A) (l : list A) (i : nat) (x : A) :
  alter f i (<[i := x]> l) = <[i := f x]> l.
Proof.
  revert i. induction l as [|y l IH]; intros [|i]; simpl; [done..|].
  f_equal. apply IH.
Qed.

Lemma list_lookup_insert_same {A} (l : list A) i x y :
  l !! i = Some y → <[i := x]> l !! i = Some x.
Proof. intros H. apply list_lookup_insert_eq. by eapply lookup_lt_Some. Qed.

Lemma alter_snoc {A} (f : A → A) (l : list A) (x : A) :
  alter f (length l) (l ++ [x]) = l ++ [f x].
Proof. rewrite alter_app_r_alt by lia. by rewrite Nat.sub_diag. Qed.

(** ** The file system *)

Lemma fs_append_nil f t i : fs_append f t i "" = f.
Proof. reflexivity. Qed.

Lemma fs_append_names f t i buf : names (fs_append f t i buf) = names f.
Proof. unfold fs_append. by case_decide. Qed.

Lemma fs_append_denied f t i buf : denied (fs_append f t i buf) = denied f.
Proof. unfold fs_append. by case_decide. Qed.

Lemma fs_append_length f t i buf :
  length (inodes (fs_append f t i buf)) = length (inodes f).
Proof. unfold fs_append. case_decide; [done|]. simpl. apply length_alter. Qed.

Lemma fs_append_snoc nm ino dn t0 t buf :
  buf ≠ "" →
  fs_append (FileSystem nm (ino ++ [File "" t0]) dn) t (length ino) buf
  = FileSystem nm (ino ++ [File buf t]) dn.
Proof.
  intros Hb. unfold fs_append. rewrite decide_False by done. simpl.
  by rewrite alter_snoc.
Qed.

Lemma open_append_ok (f : filesystem) (t : Z) (fname : string) :
  openable f fname →
  ∃ i f', fs_open_append f t fname = Some (i, f')
    ∧ fs_open_append f' t fname = Some (i, f')
    ∧ names f' !! fname = Some i
    ∧ denied f' = denied f.
Proof.
  intros [Hne Hd]. unfold fs_open_append.
  rewrite decide_False by (intros [?|?]; done).
  destruct (names f !! fname) as [i|] eqn:E.
  - exists i, f. rewrite decide_False by (intros [?|?]; done). by rewrite E.
  - eexists _, _. split; [reflexivity|]. simpl.
    rewrite decide_False by (intros [?|?]; done).
    by rewrite lookup_insert_eq.
Qed.

Lemma open_append_fail (f : filesystem) (t : Z) (fname : string) :
  ¬ openable f fname → fs_open_append f t fname = None.
Proof.
  intros Hn. unfold fs_open_append. case_decide as H; [done|].
  exfalso. apply Hn. split; intros ?; apply H; auto.
Qed.

Lemma open_append_again f t fname i f' :
  fs_open_append f t fname = Some (i, f') →
  fs_open_append f' t fname = Some (i, f')
  ∧ fs_last_write_time f' fname
    = match fs_last_write_time f fname with Some x => Some x | None => Some t end.
Proof.
  unfold fs_open_append, fs_last_write_time, fs_lookup.
  case_decide as Hd; [done|].
  destruct (names f !! fname) as [j|] eqn:E; intros [= <- <-]; simpl.
  - rewrite decide_False by done. by rewrite E.
  - rewrite decide_False by done. rewrite lookup_insert_eq. split; [done|].
    simpl. rewrite lookup_app_r by done. by rewrite Nat.sub_diag.
Qed.

(** ** Running the monad

    The proofs run the operations on a state taken apart into its fields
    and rewrite the heap lookups they meet. *)

Lemma get_sink_Some st h s : heap st !! h = Some s → get_sink h st = (Ret s, st).
Proof. unfold get_sink. by intros ->. Qed.

Lemma sink_of_Some st l h :
  _sinks st !! level_index l = Some h → sink_of l st = (Ret h, st).
Proof. unfold sink_of. by intros ->. Qed.

Lemma lock_run st h s :
  heap st !! h = Some s → lsm s = false →
  lock h st = (Ret tt, set_heap (λ hp, <[h := set_lsm true s]> hp) st).
Proof.
  intros Hs Hl. unfold lock, bind. rewrite (get_sink_Some _ _ _ Hs), Hl.
  unfold modify_sink, modify, set_heap. by rewrite (list_alter_as_insert _ _ _ _ Hs).
Qed.

Ltac destruct_state st :=
  let hp := fresh "hp" in let tb := fresh "tb" in let tm := fresh "tm" in
  let g := fresh "g" in let ns := fresh "ns" in let rt := fresh "rt" in
  let co := fresh "co" in let ce := fresh "ce" in let nm := fresh "nm" in
  let ino := fresh "ino" in let dn := fresh "dn" in let ck := fresh "ck" in
  destruct st as [hp tb tm g ns rt [co ce [nm ino dn] ck]]; simpl in *.

Ltac destruct_sink s :=
  let lk := fresh "lk" in let o := fresh "o" in let fn := fresh "fn" in
  let cd := fresh "cd" in let ms := fresh "ms" in let mn := fresh "mn" in
  let rd := fresh "rd" in
  destruct s as [lk o fn cd ms mn rd]; simpl in *.

Ltac munfold :=
  unfold stream_endl, stream_close, lock, unlock, discard;
  unfold stream_put, stream_flush, file_size, exists_, rename, _openLogFile,
    header;
  unfold modify_sink, get_sink, sink_of, now;
  unfold bind, ret, gets, modify, throw, undefined, stuck,
    set_heap, set_sinks, set_timers, set_gates, set_nullStream, set_rotThreads,
    set_world, set_fs, set_cout, set_cerr, set_stream, set_lsm, set_creationDate.

Ltac mlookup :=
  match goal with
  | H : ?l !! ?i = Some _ |- context [?l !! ?i] => rewrite H
  | |- context [alter _ ?i _ !! ?i] => rewrite list_lookup_alter_eq
  end.

Ltac mrun := munfold; simpl; repeat (mlookup; simpl).

Ltac hrun Hs :=
  munfold; simpl;
  repeat (first
    [ rewrite list_alter_insert_same
    | rewrite list_insert_insert_eq
    | rewrite (list_lookup_insert_same _ _ _ _ Hs)
    | rewrite (list_alter_as_insert _ _ _ _ Hs)
    | rewrite list_lookup_alter_eq
    | rewrite Hs ]; simpl).

(** ** The archive loop *)

Lemma shift_names_lookup path k :
  ∀ nm : gmap string nat,
  ((1 ≤ k)%nat → shift_names path k nm !! archive path 1 = None)
  ∧ ((1 ≤ k)%nat →
     shift_names path k nm !! archive path (k + 1)
     = match nm !! archive path k with
       | Some x => Some x
       | None => nm !! archive path (k + 1)
       end)
  ∧ (∀ j, (2 ≤ j ≤ k)%nat →
     shift_names path k nm !! archive path j = nm !! archive path (j - 1))
  ∧ (∀ p, (∀ j, (1 ≤ j ≤ k + 1)%nat → p ≠ archive path j) →
     shift_names path k nm !! p = nm !! p).
Proof.
  induction k as [|k IH]; intros nm.
  { repeat split; intros; try lia; done. }
  remember (match nm !! archive path (S k) with
            | Some x => <[archive path (S k + 1) := x]> (delete (archive path (S k)) nm)
            | None => nm
            end) as nm1 eqn:Hnm1.
  assert (Hother : ∀ p, p ≠ archive path (S k) → p ≠ archive path (S k + 1) →
                        nm1 !! p = nm !! p).
  { intros p H1 H2. rewrite Hnm1. destruct (nm !! archive path (S k)); [|done].
    rewrite lookup_insert_ne by done. by rewrite lookup_delete_ne. }
  assert (Hgone : nm1 !! archive path (S k) = None).
  { rewrite Hnm1. destruct (nm !! archive path (S k)) eqn:E; [|done].
    rewrite lookup_insert_ne by (intros ?%archive_inj; lia).
    by rewrite lookup_delete_eq. }
  assert (Htop : nm1 !! archive path (S k + 1)
                 = match nm !! archive path (S k) with
                   | Some x => Some x
                   | None => nm !! archive path (S k + 1)
                   end).
  { rewrite Hnm1. destruct (nm !! archive path (S k)) eqn:E; [|done].
    by rewrite lookup_insert_eq. }
  assert (Hs : shift_names path (S k) nm = shift_names path k nm1).
  { rewrite Hnm1. reflexivity. }
  rewrite Hs. clear Hs Hnm1. destruct (IH nm1) as (IH1 & IH2 & IH3 & IH4).
  split; [|split; [|split]].
  - intros _. destruct k as [|k].
    + simpl. exact Hgone.
    + apply IH1. lia.
  - intros _. rewrite IH4; [exact Htop|].
    intros j Hj ?%archive_inj. lia.
  - intros j Hj. destruct (decide (j = S k)) as [->|Hne].
    + replace (S k - 1)%nat with k by lia.
      assert (Hk : nm1 !! archive path k = nm !! archive path k).
      { apply Hother; intros ?%archive_inj; lia. }
      revert Hgone. rewrite <- (Nat.add_1_r k). intros Hgone.
      rewrite IH2 by lia. rewrite Hk, Hgone.
      by destruct (nm !! archive path k).
    + rewrite IH3 by lia. apply Hother; intros ?%archive_inj; lia.
  - intros p Hp. rewrite IH4.
    + apply Hother; apply Hp; lia.
    + intros j Hj. apply Hp. lia.
Qed.

Lemma shift_archives_run path k st :
  shift_archives path k st
  = (Ret tt, set_world (set_fs (set_names (shift_names path k))) st).
Proof.
  revert st. induction k as [|k IH]; intros st.
  { by destruct st as [? ? ? ? ? ? [? ? [? ? ?] ?]]. }
  destruct st as [hp tb tm g ns rt [co ce [nm ino dn] ck]].
  unfold shift_archives; fold shift_archives.
  unfold shift_names; fold shift_names.
  unfold bind at 1. unfold exists_, gets, fs_exists.
  unfold bind, rename, fs_rename, ret. simpl.
  destruct (nm !! archive path (S k)) as [x|] eqn:E.
  - rewrite bool_decide_true by eauto. simpl. rewrite E. rewrite IH.
    unfold set_world, set_fs, set_names. simpl. by rewrite E.
  - rewrite bool_decide_false by (by intros [??]). simpl. rewrite IH.
    unfold set_world, set_fs, set_names. simpl. by rewrite E.
Qed.

(** ** What no operation changes *)

Lemma keeps_refl st : keeps st st.
Proof. intros h s Hs. eauto. Qed.

Lemma keeps_trans st1 st2 st3 : keeps st1 st2 → keeps st2 st3 → keeps st1 st3.
Proof.
  intros H12 H23 h s Hs.
  destruct (H12 h s Hs) as (s2 & Hs2 & Hf & Hm & Hn).
  destruct (H23 h s2 Hs2) as (s3 & Hs3 & Hf3 & Hm3 & Hn3).
  exists s3. repeat split; congruence.
Qed.

Lemma stable_refl st : stable st st.
Proof. split; [apply keeps_refl | done]. Qed.

Lemma stable_trans st1 st2 st3 : stable st1 st2 → stable st2 st3 → stable st1 st3.
Proof.
  intros [H12 E12] [H23 E23]. split; [by eapply keeps_trans | congruence].
Qed.

Lemma keeps_same_heap st st' : heap st' = heap st → keeps st st'.
Proof. intros E h s Hs. rewrite E. eauto. Qed.

Lemma stable_same st st' :
  heap st' = heap st → _sinks st' = _sinks st → stable st st'.
Proof. intros E1 E2. split; [by apply keeps_same_heap | done]. Qed.

Lemma stable_alter st h f :
  (∀ s, fileName (f s) = fileName s ∧ maxSize (f s) = maxSize s
        ∧ maxNumFiles (f s) = maxNumFiles s) →
  stable st (set_heap (alter f h) st).
Proof.
  intros Hf. split; [|done]. intros h' s Hs. simpl.
  destruct (decide (h = h')) as [->|Hne].
  - rewrite list_lookup_alter_eq, Hs. simpl. exists (f s). split; [done|apply Hf].
  - rewrite list_lookup_alter_ne by done. eauto.
Qed.

Lemma stable_push st s : stable st (set_heap (λ hp, hp ++ [s]) st).
Proof.
  split; [|done]. intros h s0 Hs. simpl. exists s0. split; [|done].
  by apply lookup_app_l_Some.
Qed.

(** A stable step keeps the table in order. *)
Lemma stable_table_ok st st' : stable st st' → table_ok st → table_ok st'.
Proof.
  intros [Hk E] [Hlen Hall]. split; rewrite E; [done|].
  eapply Forall_impl; [exact Hall|]. intros h [s Hs].
  destruct (Hk h s Hs) as (s' & Hs' & _). eauto.
Qed.

Lemma pres_bind {A B} (R : Logger → Logger → Prop) (m : M A) (k : A → M B) :
  (∀ st1 st2 st3, R st1 st2 → R st2 st3 → R st1 st3) →
  preserving R m → (∀ a, preserving R (k a)) → preserving R (bind m k).
Proof.
  intros Htrans Hm Hk st. unfold bind. specialize (Hm st).
  destruct (m st) as [[a| | |] st']; simpl in *; [|done..].
  eapply Htrans; [exact Hm | apply Hk].
Qed.

Lemma pres_bind_keeps {A B} (m : M A) (k : A → M B) :
  preserving keeps m → (∀ a, preserving keeps (k a)) → preserving keeps (bind m k).
Proof. apply pres_bind, keeps_trans. Qed.

Lemma pres_bind_stable {A B} (m : M A) (k : A → M B) :
  preserving stable m → (∀ a, preserving stable (k a)) →
  preserving stable (bind m k).
Proof. apply pres_bind, stable_trans. Qed.

Lemma pres_weaken {A} (m : M A) : preserving stable m → preserving keeps m.
Proof. intros H st. apply H. Qed.

Lemma pres_pure {A} (m : M A) : (∀ st, (m st).2 = st) → preserving stable m.
Proof. intros H st. rewrite H. apply stable_refl. Qed.

Lemma pres_ret {A} (a : A) : preserving stable (ret a).
Proof. by apply pres_pure. Qed.

Lemma pres_gets {A} (f : Logger → A) : preserving stable (gets f).
Proof. by apply pres_pure. Qed.

Lemma pres_throw {A} e : preserving stable (@throw A e).
Proof. by apply pres_pure. Qed.

Lemma pres_undefined {A} : preserving stable (@undefined A).
Proof. by apply pres_pure. Qed.

Lemma pres_stuck {A} : preserving stable (@stuck A).
Proof. by apply pres_pure. Qed.

Lemma pres_now : preserving stable now.
Proof. by apply pres_pure. Qed.

Lemma pres_get_sink h : preserving stable (get_sink h).
Proof. apply pres_pure. intros st. unfold get_sink. by destruct (heap st !! h). Qed.

Lemma pres_sink_of l : preserving stable (sink_of l).
Proof. apply pres_pure. intros st. unfold sink_of. by destruct (_ !! _). Qed.

Lemma pres_header l : preserving stable (header l).
Proof. apply pres_pure. intros st. unfold header. by destruct (_ !! _). Qed.

Lemma pres_exists p : preserving stable (exists_ p).
Proof. by apply pres_pure. Qed.

Lemma pres_file_size p : preserving stable (file_size p).
Proof.
  apply pres_pure. intros st. unfold file_size. by destruct (fs_file_size _ _).
Qed.

Lemma pres_last_write_time p : preserving stable (last_write_time p).
Proof.
  apply pres_pure. intros st. unfold last_write_time.
  by destruct (fs_last_write_time _ _).
Qed.

Lemma pres_rename a b : preserving stable (rename a b).
Proof.
  intros st. unfold rename. destruct (fs_rename _ _ _); simpl;
    by apply stable_same.
Qed.

Lemma pres_openLogFile p : preserving stable (_openLogFile p).
Proof.
  intros st. unfold _openLogFile. destruct (fs_open_append _ _ _) as [[i f]|];
    simpl; by apply stable_same.
Qed.

Lemma pres_set_world f : preserving stable (modify (set_world f)).
Proof. intros st. by apply stable_same. Qed.

Lemma pres_set_timers f : preserving stable (modify (set_timers f)).
Proof. intros st. by apply stable_same. Qed.

Lemma pres_set_gates f : preserving stable (modify (set_gates f)).
Proof. intros st. by apply stable_same. Qed.

Lemma pres_set_nullStream f : preserving stable (modify (set_nullStream f)).
Proof. intros st. by apply stable_same. Qed.

Lemma pres_set_rotThreads f : preserving stable (modify (set_rotThreads f)).
Proof. intros st. by apply stable_same. Qed.

Lemma pres_push s : preserving stable (modify (set_heap (λ hp, hp ++ [s]))).
Proof. intros st. apply stable_push. Qed.

Lemma pres_set_stream h o : preserving stable (modify_sink h (set_stream o)).
Proof. intros st. by apply stable_alter. Qed.

Lemma pres_set_lsm h b : preserving stable (modify_sink h (set_lsm b)).
Proof. intros st. by apply stable_alter. Qed.

Lemma pres_set_creationDate h d :
  preserving stable (modify_sink h (set_creationDate d)).
Proof. intros st. by apply stable_alter. Qed.

(** Only an assignment writes the table. *)
Lemma pres_set_sinks f : preserving keeps (modify (set_sinks f)).
Proof. intros st. by apply keeps_same_heap. Qed.

Create HintDb pres.

#[local] Hint Resolve pres_ret pres_gets pres_throw pres_undefined pres_stuck
  pres_now pres_get_sink pres_sink_of pres_header pres_exists pres_file_size
  pres_last_write_time pres_rename pres_openLogFile pres_set_world
  pres_set_timers pres_set_gates pres_set_nullStream pres_set_rotThreads
  pres_push pres_set_stream pres_set_lsm pres_set_creationDate pres_set_sinks
  pres_weaken : pres.

Ltac pres_step :=
  match goal with
  | |- preserving stable (bind _ _) => apply pres_bind_stable; [|intros ?]
  | |- preserving keeps (bind _ _) => apply pres_bind_keeps; [|intros ?]
  | |- preserving _ (if ?b then _ else _) => destruct b
  | |- preserving _ (dual_call ?m _ _) => destruct m; simpl
  | |- preserving _ (match ?x with _ => _ end) => destruct x
  | |- preserving _ _ => solve [auto with pres]
  end.

Ltac pres := repeat pres_step.

Lemma pres_unlock h : preserving stable (unlock h).
Proof. unfold unlock. pres. Qed.

Lemma pres_lock h : preserving stable (lock h).
Proof. unfold lock. pres. Qed.

Lemma pres_stream_put h t : preserving stable (stream_put h t).
Proof. unfold stream_put. pres. Qed.

Lemma pres_stream_flush h : preserving stable (stream_flush h).
Proof. unfold stream_flush. pres. Qed.

#[local] Hint Resolve pres_unlock pres_lock pres_stream_put pres_stream_flush : pres.

Lemma pres_stream_endl h : preserving stable (stream_endl h).
Proof. unfold stream_endl. pres. Qed.

Lemma pres_stream_close h : preserving stable (stream_close h).
Proof. unfold stream_close. pres. Qed.

#[local] Hint Resolve pres_stream_endl pres_stream_close : pres.

Lemma pres_shift_archives path i : preserving stable (shift_archives path i).
Proof. induction i as [|i IH]; simpl; pres. Qed.

Lemma pres_find_sink fname tbl : preserving stable (find_sink fname tbl).
Proof. induction tbl as [|h tbl IH]; simpl; pres. Qed.

Lemma pres_check_unassigned tbl : preserving stable (check_unassigned tbl).
Proof. induction tbl as [|h tbl IH]; simpl; pres. Qed.

#[local] Hint Resolve pres_shift_archives pres_find_sink pres_check_unassigned : pres.

(** ** Looking through the table *)

Lemma find_sink_cases (fname : string) (tbl : list nat) (st : Logger) :
  Forall (λ h, is_Some (heap st !! h)) tbl →
  (∃ h s, h ∈ tbl ∧ heap st !! h = Some s ∧ fileName s = fname
          ∧ find_sink fname tbl st = (Ret (Some h), st))
  ∨ ((∀ h s, h ∈ tbl → heap st !! h = Some s → fileName s ≠ fname)
     ∧ find_sink fname tbl st = (Ret None, st)).
Proof.
  induction 1 as [|h tbl [s Hs] _ IH]; simpl.
  - right. split; [|done]. intros h s Hin. by apply elem_of_nil in Hin.
  - unfold bind. rewrite (get_sink_Some _ _ _ Hs).
    case_bool_decide as Hf.
    + left. exists h, s. split; [left|]. done.
    + destruct IH as [(h' & s' & Hin & Hs' & Hf' & Hr) | [Hno Hr]].
      * left. exists h', s'. split; [by right|]. done.
      * right. split; [|done]. intros h0 s0 Hin Hs0.
        apply elem_of_cons in Hin as [->|Hin]; [congruence | eauto].
Qed.

Lemma check_unassigned_cases (tbl : list nat) (st : Logger) :
  Forall (λ h, is_Some (heap st !! h)) tbl →
  (∃ h s, h ∈ tbl ∧ heap st !! h = Some s ∧ fileName s ≠ ""
          ∧ check_unassigned tbl st
            = (Raise (runtime_error
                 ("Log file already assigned to a log sink: " +:+ fileName s)), st))
  ∨ ((∀ h s, h ∈ tbl → heap st !! h = Some s → fileName s = "")
     ∧ check_unassigned tbl st = (Ret tt, st)).
Proof.
  induction 1 as [|h tbl [s Hs] _ IH]; simpl.
  - right. split; [|done]. intros h s Hin. by apply elem_of_nil in Hin.
  - unfold bind. rewrite (get_sink_Some _ _ _ Hs).
    case_bool_decide as Hf.
    + left. exists h, s. split; [left|]. done.
    + destruct IH as [(h' & s' & Hin & Hs' & Hf' & Hr) | [Hno Hr]].
      * left. exists h', s'. split; [by right|]. done.
      * right. split; [|done]. intros h0 s0 Hin Hs0.
        apply elem_of_cons in Hin as [->|Hin]; [|eauto].
        assert (s0 = s) as -> by congruence.
        destruct (decide (fileName s = "")); [done|]. by destruct Hf.
Qed.

(** The table of the initial state is in order. *)
Lemma table_ok_init w : table_ok (init w).
Proof.
  split; [reflexivity|]. simpl. repeat constructor; eexists; reflexivity.
Qed.

Section Properties.

Variable put_time_Ymd : Z → string.
Variable put_time_FT : Z → string.
Variable mktime_Ymd : string → Z.

(** ** The lifetime of a sink object *)

Lemma pres_sizeRotation h : preserving stable (_sizeRotation put_time_Ymd h).
Proof. unfold _sizeRotation. pres. Qed.

#[local] Hint Resolve pres_sizeRotation : pres.

Lemma pres_write l t : preserving stable (_write put_time_Ymd put_time_FT l t).
Proof. unfold _write. pres. Qed.

Lemma pres_writeOut l : preserving stable (_writeOut put_time_Ymd put_time_FT l).
Proof. unfold _writeOut. pres. Qed.

#[local] Hint Resolve pres_write pres_writeOut : pres.

Lemma pres_getStream l : preserving stable (_getStream put_time_Ymd put_time_FT l).
Proof. unfold _getStream. pres. Qed.

#[local] Hint Resolve pres_getStream : pres.

Lemma pres_LogSink_file this f p n sz :
  preserving stable (LogSink_file put_time_Ymd this f p n sz).
Proof. unfold LogSink_file. pres. Qed.

#[local] Hint Resolve pres_LogSink_file : pres.

Lemma pres_new_LogSink f p n sz :
  preserving stable (new_LogSink put_time_Ymd f p n sz).
Proof. unfold new_LogSink. pres. Qed.

#[local] Hint Resolve pres_new_LogSink : pres.

Lemma pres_dailyRotationThread h :
  preserving stable (_dailyRotationThread put_time_Ymd mktime_Ymd h).
Proof. unfold _dailyRotationThread. pres. Qed.

#[local] Hint Resolve pres_dailyRotationThread : pres.

Lemma pres_setLogFile l f p n sz :
  preserving keeps (setLogFile put_time_Ymd l f p n sz).
Proof. unfold setLogFile. pres. Qed.

Lemma pres_setLogFile_all f p n sz :
  preserving keeps (setLogFile_all put_time_Ymd f p n sz).
Proof. unfold setLogFile_all. pres. Qed.

(** Apart from the two assignments, no event writes the table. *)
Lemma pres_run_event_stable e :
  match e with
  | ESetLogFile _ _ _ _ _ | ESetLogFileAll _ _ _ _ => True
  | _ => preserving stable (run_event put_time_Ymd put_time_FT mktime_Ymd e)
  end.
Proof.
  destruct e; simpl; try exact I;
    unfold debug, info, error, getDebugStream, getInfoStream, getErrorStream,
      ref_put, startTimer, stopTimer, setLevel, discard;
    pres.
Qed.

Lemma pres_run_event e :
  preserving keeps (run_event put_time_Ymd put_time_FT mktime_Ymd e).
Proof.
  pose proof (pres_run_event_stable e) as H.
  destruct e; try (by apply pres_weaken); simpl.
  - apply pres_setLogFile.
  - apply pres_setLogFile_all.
Qed.

Lemma keeps_run_events es st :
  keeps st (run_events put_time_Ymd put_time_FT mktime_Ymd es st).
Proof.
  revert st. induction es as [|e es IH]; intros st; simpl; [apply keeps_refl|].
  pose proof (pres_run_event e st) as He.
  destruct (run_event _ _ _ e st) as [[[]| | |] st']; simpl in He; [| |done..];
    (eapply keeps_trans; [exact He | apply IH]).
Qed.

(** C8.  A file sink constructed with the size policy and a nonzero size
    limit stores [maxNumFiles = max(requested, 2)], hence at least 2; and
    through everything that can happen afterwards (writes, stream
    accessors, timers, level and sink assignments, turns of the rotation
    threads, changes of the outside world) the sink object stays where it
    is with [maxNumFiles] at least 2. *)
Theorem maxNumFiles_at_least_2 (this : nat) (fname : string) (n sz : Z)
    (st st1 : Logger) (s : LogSink) :
  umax sz ≠ 0 →
  LogSink_file put_time_Ymd this fname Policy.MAX_SIZE n sz st = (Ret s, st1) →
  maxNumFiles s = Z.max (u8 n) 2
  ∧ 2 ≤ maxNumFiles s
  ∧ ∀ (st2 : Logger) (h : nat) (es : list event),
      heap st2 !! h = Some s →
      ∃ s', heap (run_events put_time_Ymd put_time_FT mktime_Ymd es st2) !! h
            = Some s'
            ∧ 2 ≤ maxNumFiles s'.
Proof.
  intros Hsz Hctor.
  assert (maxNumFiles s = Z.max (u8 n) 2) as Hn.
  { unfold LogSink_file in Hctor. simpl in Hctor.
    rewrite bool_decide_true in Hctor by done.
    unfold bind, ret in Hctor. destruct (_openLogFile fname st) as [[o| | |] st'];
      simplify_eq. done. }
  split; [done|]. split; [lia|].
  intros st2 h es Hs.
  destruct (keeps_run_events es st2 h s Hs) as (s' & Hs' & _ & _ & Hn').
  exists s'. split; [done|]. lia.
Qed.

(** ** Sink construction and assignment *)

Lemma LogSink_file_fail this fname policy n sz st :
  ¬ openable (fs (world st)) fname →
  LogSink_file put_time_Ymd this fname policy n sz st
  = (Raise (runtime_error ("Log File cannot be opened: " +:+ fname)), st).
Proof.
  intros Hn. unfold LogSink_file.
  pose proof (open_append_fail _ (clock (world st)) _ Hn) as Ho.
  destruct policy; simpl; munfold; simpl; rewrite ?Ho; try done.
  unfold last_write_time, fs_last_write_time, fs_exists, fs_lookup.
  destruct (names (fs (world st)) !! fname) as [i|] eqn:E; simpl;
    rewrite ?E; simpl; by rewrite Ho.
Qed.

Lemma LogSink_file_ok this fname policy n sz st :
  openable (fs (world st)) fname →
  ∃ s st', LogSink_file put_time_Ymd this fname policy n sz st = (Ret s, st')
    ∧ fileName s = fname ∧ maxSize s = umax sz
    ∧ maxNumFiles s = clamp policy n sz
    ∧ lsm s = false
    ∧ (∃ i, stream s = OFStream i "" ∧ names (fs (world st')) !! fname = Some i)
    ∧ heap st' = heap st ∧ _sinks st' = _sinks st
    ∧ rotThreads st'
      = rotThreads st ++ (if Policy.eqb policy Policy.DAILY then [this] else []).
Proof.
  intros Hop. unfold LogSink_file, clamp.
  destruct (open_append_ok _ (clock (world st)) _ Hop) as (i & f' & Ho & Ho' & Hi & Hd).
  destruct policy; simpl; munfold; simpl; rewrite ?Ho.
  - do 2 eexists. split; [reflexivity|]. simpl. rewrite app_nil_r. eauto 10.
  - do 2 eexists. split; [reflexivity|]. simpl. rewrite app_nil_r. eauto 10.
  - unfold last_write_time, fs_last_write_time, fs_exists, fs_lookup.
    destruct (names (fs (world st)) !! fname) as [j|] eqn:E; simpl;
      rewrite ?E; simpl; rewrite Ho; simpl; rewrite Ho'; simpl;
      do 2 eexists; (split; [reflexivity|]); simpl; eauto 10.
Qed.

Lemma LogSink_file_run this fname policy n sz st i f' :
  fs_open_append (fs (world st)) (clock (world st)) fname = Some (i, f') →
  LogSink_file put_time_Ymd this fname policy n sz st
  = (Ret (mkLogSink false (OFStream i "") fname
            (creation_stamp put_time_Ymd policy (world st) fname) (umax sz)
            (clamp policy n sz) false),
     mkLogger (heap st) (_sinks st) (_timers st) (gates st) (_nullStream st)
       (rotThreads st ++ (if Policy.eqb policy Policy.DAILY then [this] else []))
       (mkWorld (cout (world st)) (cerr (world st)) f' (clock (world st)))).
Proof.
  intros Ho. destruct (open_append_again _ _ _ _ _ Ho) as [Ho' _].
  unfold LogSink_file, clamp, creation_stamp.
  destruct_state st.
  destruct policy; simpl; munfold; simpl; rewrite ?Ho; simpl.
  - by rewrite app_nil_r.
  - by rewrite app_nil_r.
  - unfold last_write_time, fs_exists, fs_last_write_time, fs_lookup. simpl.
    destruct (nm !! fname) as [j|] eqn:E; simpl; rewrite ?E; simpl;
      rewrite Ho; simpl; rewrite Ho'; done.
Qed.

Lemma new_LogSink_outcome fname policy n sz st :
  (∃ st' s, new_LogSink put_time_Ymd fname policy n sz st
            = (Ret (length (heap st)), st')
     ∧ heap st' = heap st ++ [s] ∧ _sinks st' = _sinks st ∧ fileName s = fname
     ∧ openable (fs (world st)) fname)
  ∨ (new_LogSink put_time_Ymd fname policy n sz st
     = (Raise (runtime_error ("Log File cannot be opened: " +:+ fname)), st)
     ∧ ¬ openable (fs (world st)) fname).
Proof.
  unfold new_LogSink.
  destruct (decide (fname ≠ "" ∧ fname ∉ denied (fs (world st)))) as [Hop|Hno].
  - left.
    destruct (LogSink_file_ok (length (heap st)) fname policy n sz st Hop)
      as (s & st' & Hc & Hf & _ & _ & _ & _ & Hh & Ht & _).
    munfold. simpl. rewrite Hc. simpl.
    do 2 eexists. split; [reflexivity|]. simpl. rewrite Hh. done.
  - right. munfold. simpl. by rewrite LogSink_file_fail.
Qed.

(** *** Every level always has a sink *)

Lemma table_ok_setLogFile l f p n sz st :
  table_ok st → table_ok (setLogFile put_time_Ymd l f p n sz st).2.
Proof.
  intros Hok. pose proof Hok as [Hlen Hall]. unfold setLogFile, bind.
  destruct (_sinks st !! level_index l) as [h|] eqn:Hl;
    [|by unfold sink_of; rewrite Hl].
  rewrite (sink_of_Some _ _ _ Hl).
  destruct (proj1 (Forall_lookup _ _) Hall _ _ Hl) as [s Hs].
  rewrite (get_sink_Some _ _ _ Hs).
  case_bool_decide; [done|]. simpl.
  destruct (find_sink_cases f _ st Hall)
    as [(h' & s' & Hin & Hs' & _ & ->) | [_ ->]].
  - unfold table_ok. simpl. split; [by rewrite length_insert|].
    apply Forall_insert; [done|eauto].
  - destruct (new_LogSink_outcome f p n sz st)
      as [(st' & s' & -> & Hh & Ht & _) | [-> _]]; [|done].
    unfold table_ok. simpl. rewrite Ht.
    split; [by rewrite length_insert|]. rewrite Hh.
    apply Forall_insert.
    + eapply Forall_impl; [exact Hall|]. intros x [y Hy]. exists y.
      by apply lookup_app_l_Some.
    + exists s'. by apply list_lookup_middle.
Qed.

Lemma table_ok_setLogFile_all f p n sz st :
  table_ok st → table_ok (setLogFile_all put_time_Ymd f p n sz st).2.
Proof.
  intros Hok. pose proof Hok as [Hlen Hall]. unfold setLogFile_all, bind. simpl.
  destruct (check_unassigned_cases _ st Hall)
    as [(h' & s' & _ & _ & _ & ->) | [_ ->]]; [done|].
  destruct (new_LogSink_outcome f p n sz st)
    as [(st' & s' & -> & Hh & Ht & _) | [-> _]]; [|done].
  unfold table_ok. simpl. rewrite Ht, Hh. split; [by rewrite length_fmap|].
  apply Forall_fmap, Forall_forall. intros x _. exists s'.
  by apply list_lookup_middle.
Qed.

Lemma table_ok_run_event e st :
  table_ok st →
  table_ok (run_event put_time_Ymd put_time_FT mktime_Ymd e st).2.
Proof.
  intros Hok. pose proof (pres_run_event_stable e) as H.
  destruct e;
    try (eapply stable_table_ok; [apply H | done]).
  - by apply table_ok_setLogFile.
  - by apply table_ok_setLogFile_all.
Qed.

Lemma table_ok_run_events es st :
  table_ok st → table_ok (run_events put_time_Ymd put_time_FT mktime_Ymd es st).
Proof.
  revert st. induction es as [|e es IH]; intros st Hok; simpl; [done|].
  pose proof (table_ok_run_event e st Hok) as He.
  destruct (run_event _ _ _ e st) as [[[]| | |] st']; simpl in He; auto.
Qed.

(** Whatever happens from program start on, every level of the table
    points to a sink object. *)
Lemma table_ok_reachable es w :
  table_ok (run_events put_time_Ymd put_time_FT mktime_Ymd es (init w)).
Proof. apply table_ok_run_events, table_ok_init. Qed.

(** C3, as amended.  [setLogFile(level, path, ..)] fails with the
    configuration-conflict error exactly when the level already has a
    non-empty file path, whether or not it equals the requested one; the
    failure leaves the whole state, the level's sink included, unchanged.
    When the level has no file yet and some sink of the table already
    writes to [path], such a sink is installed for the level and no sink is
    constructed. *)
Theorem setLogFile_level_conflict (st : Logger) (level : LogLevel) (h : nat)
    (s : LogSink) (fname : string) (policy : Policy.t) (n sz : Z) :
  table_ok st →
  _sinks st !! level_index level = Some h →
  heap st !! h = Some s →
  (fileName s ≠ "" →
   setLogFile put_time_Ymd level fname policy n sz st = (conflict, st))
  ∧ (fileName s = "" →
     (setLogFile put_time_Ymd level fname policy n sz st).1 ≠ conflict)
  ∧ (fileName s = "" →
     ∀ h0 s0, h0 ∈ _sinks st → heap st !! h0 = Some s0 → fileName s0 = fname →
     ∃ h' s', h' ∈ _sinks st ∧ heap st !! h' = Some s' ∧ fileName s' = fname
       ∧ setLogFile put_time_Ymd level fname policy n sz st
         = (Ret tt, set_sinks (<[level_index level := h']>) st)).
Proof.
  intros [_ Htb] Hl Hs. unfold setLogFile, bind.
  rewrite (sink_of_Some _ _ _ Hl), (get_sink_Some _ _ _ Hs).
  split; [|split].
  - intros Hf. by rewrite bool_decide_true.
  - intros Hf. rewrite bool_decide_false by (by intros ?). simpl.
    destruct (find_sink_cases fname _ st Htb)
      as [(h' & s' & _ & _ & _ & ->) | [_ ->]]; [done|].
    destruct (new_LogSink_outcome fname policy n sz st)
      as [(st' & s' & -> & _) | [-> _]]; [done|].
    simpl. unfold conflict. intros [=].
  - intros Hf h0 s0 Hin Hs0 Hf0.
    rewrite bool_decide_false by (by intros ?). simpl.
    destruct (find_sink_cases fname _ st Htb)
      as [(h' & s' & Hin' & Hs' & Hf' & ->) | [Hno _]].
    + exists h', s'. done.
    + by destruct (Hno h0 s0 Hin Hs0).
Qed.

(** C5.  The global [setLogFile(path, ..)] fails, with the state
    unchanged, as soon as one level has a non-empty file path; the error
    names the file of such a level.  When no level has one and the file can
    be opened, it returns after constructing exactly one sink object and
    pointing all four levels to it.  The final state is the initial one
    with that much added: the file opened (created empty when it did not
    exist, kept as it is otherwise); at the end of the heap one sink with
    a free mutex, a stream open on the file with nothing buffered, the
    file name, the constructor's date stamp and limits; under the daily
    policy one rotation thread on that sink; timers, switches and standard
    streams as they were. *)
Theorem setLogFile_all_or_nothing (st : Logger) (fname : string)
    (policy : Policy.t) (n sz : Z) :
  table_ok st →
  ((∃ h s, h ∈ _sinks st ∧ heap st !! h = Some s ∧ fileName s ≠ "") →
   ∃ h s, h ∈ _sinks st ∧ heap st !! h = Some s ∧ fileName s ≠ ""
     ∧ setLogFile_all put_time_Ymd fname policy n sz st
       = (Raise (runtime_error
                   ("Log file already assigned to a log sink: " +:+ fileName s)),
          st))
  ∧ ((∀ h s, h ∈ _sinks st → heap st !! h = Some s → fileName s = "") →
     openable (fs (world st)) fname →
     let this := length (heap st) in
     ∃ i f',
       fs_open_append (fs (world st)) (clock (world st)) fname = Some (i, f')
       ∧ names f' !! fname = Some i
       ∧ setLogFile_all put_time_Ymd fname policy n sz st
         = (Ret tt,
            mkLogger
              (heap st
               ++ [mkLogSink false (OFStream i "") fname
                     (creation_stamp put_time_Ymd policy (world st) fname)
                     (umax sz) (clamp policy n sz) false])
              (replicate 4 this)
              (_timers st) (gates st) (_nullStream st)
              (rotThreads st
               ++ (if Policy.eqb policy Policy.DAILY then [this] else []))
              (mkWorld (cout (world st)) (cerr (world st)) f'
                 (clock (world st))))).
Proof.
  intros [Hlen Htb]. unfold setLogFile_all, bind.
  simpl. split.
  - intros (h & s & Hin & Hs & Hf).
    destruct (check_unassigned_cases _ st Htb)
      as [(h' & s' & Hin' & Hs' & Hf' & ->) | [Hall _]]; [eauto 10|].
    by destruct Hf; eapply Hall.
  - intros Hall Hop.
    destruct (check_unassigned_cases _ st Htb)
      as [(h' & s' & Hin & Hs & Hf & _) | [_ ->]].
    { by destruct Hf; eapply Hall. }
    destruct (open_append_ok _ (clock (world st)) _ Hop)
      as (i & f' & Ho & _ & Hi & _).
    exists i, f'. split; [done|]. split; [done|].
    unfold new_LogSink, bind, gets. simpl.
    rewrite (LogSink_file_run _ _ _ _ _ _ _ _ Ho). simpl.
    unfold modify, ret. simpl. do 3 f_equal.
    destruct (_sinks st) as [|a [|b [|c [|d [|e l]]]]]; done.
Qed.

(** C6.  When the log file cannot be opened while a sink is constructed,
    both sink assignments raise "Log File cannot be opened: <path>" to
    their caller and leave the whole state as it was: the table keeps its
    previous sink for every level and no sink object is added. *)
Theorem open_failure_installs_nothing (st : Logger) (fname : string)
    (policy : Policy.t) (n sz : Z) :
  table_ok st →
  ¬ openable (fs (world st)) fname →
  let failure : outcome unit :=
    Raise (runtime_error ("Log File cannot be opened: " +:+ fname)) in
  (∀ level h s,
     _sinks st !! level_index level = Some h → heap st !! h = Some s →
     fileName s = "" →
     (∀ h0 s0, h0 ∈ _sinks st → heap st !! h0 = Some s0 → fileName s0 ≠ fname) →
     setLogFile put_time_Ymd level fname policy n sz st = (failure, st))
  ∧ ((∀ h s, h ∈ _sinks st → heap st !! h = Some s → fileName s = "") →
     setLogFile_all put_time_Ymd fname policy n sz st = (failure, st)).
Proof.
  intros [Hlen Htb] Hno failure. split.
  - intros level h s Hl Hs Hf Hnew.
    unfold setLogFile, bind.
    rewrite (sink_of_Some _ _ _ Hl), (get_sink_Some _ _ _ Hs).
    rewrite bool_decide_false by (by intros ?). simpl.
    destruct (find_sink_cases fname _ st Htb)
      as [(h' & s' & Hin & Hs' & Hf' & _) | [_ ->]].
    { by destruct (Hnew h' s' Hin Hs'). }
    destruct (new_LogSink_outcome fname policy n sz st)
      as [(st' & s' & _ & _ & _ & _ & Hop) | [-> _]]; done.
  - intros Hall. unfold setLogFile_all, bind. simpl.
    destruct (check_unassigned_cases _ st Htb)
      as [(h' & s' & Hin & Hs & Hf & _) | [_ ->]].
    { by destruct Hf; eapply Hall. }
    destruct (new_LogSink_outcome fname policy n sz st)
      as [(st' & s' & _ & _ & _ & _ & Hop) | [-> _]]; done.
Qed.

(** ** The write path and size rotation *)

Lemma sizeRotation_run (st : Logger) (h : nat) (s : LogSink) (i i0 : nat)
    (buf : string) (n : Z) :
  heap st !! h = Some s →
  stream s = OFStream i buf →
  names (fs (world st)) !! fileName s = Some i0 →
  fs_file_size (fs (world st)) (fileName s) = Some n →
  maxSize s < n →
  openable (fs (world st)) (fileName s) →
  let path := fileName s in
  let w := world st in
  let ino := inodes (fs_append (fs w) (clock w) i buf) in
  _sizeRotation put_time_Ymd h st
  = (Ret tt,
     mkLogger
       (<[h := mkLogSink (lsm s) (OFStream (length ino) "") path
                 (put_time_Ymd (to_time_t (clock w))) (maxSize s)
                 (maxNumFiles s) (rotateDaily s)]> (heap st))
       (_sinks st) (_timers st) (gates st) (_nullStream st) (rotThreads st)
       (mkWorld (cout w) (cerr w)
          (FileSystem
             (<[path := length ino]>
                (<[archive path 1 := i0]>
                   (delete path
                      (shift_names path (Z.to_nat (maxNumFiles s - 2))
                         (names (fs w))))))
             (ino ++ [File "" (clock w)])
             (denied (fs w)))
          (clock w))).
Proof.
  intros Hs Hstr Hnm Hsz Hlt [Hne Hden]. simpl.
  destruct_state st. destruct_sink s. subst o.
  unfold _sizeRotation. mrun. rewrite Hsz. simpl.
  rewrite (proj2 (Z.gtb_lt _ _)) by done. mrun.
  rewrite shift_archives_run. mrun.
  rewrite ?fs_append_nil. unfold fs_rename. simpl. rewrite ?fs_append_names. simpl.
  destruct (shift_names_lookup fn (Z.to_nat (mn - 2)) nm) as (_ & _ & _ & Hoth).
  rewrite (Hoth fn) by (intros j _ E; by apply (archive_ne_path fn j)).
  rewrite Hnm. simpl.
  unfold fs_open_append. simpl. rewrite ?fs_append_denied. simpl.
  rewrite decide_False by (intros [?|?]; done).
  rewrite archive_1.
  rewrite lookup_insert_ne by apply archive_ne_path.
  rewrite lookup_delete_eq. simpl. mrun.
  repeat f_equal.
  rewrite (list_alter_as_insert _ _ _ _ Hs). simpl.
  by rewrite !list_alter_insert_same.
Qed.

Lemma write_unfold level trace :
  _write put_time_Ymd put_time_FT level trace
  = (do h <- sink_of level;
     do_ lock h;
     do s <- get_sink h;
     do_ (if bool_decide (maxSize s ≠ 0) then _sizeRotation put_time_Ymd h
          else ret tt);
     write_tail put_time_FT level h trace).
Proof. reflexivity. Qed.

Lemma stamp_line t hd trace :
  nl +:+ stamp put_time_FT (to_time_t t) (millis_of t) hd +:+ trace
  = line put_time_FT t hd trace.
Proof. unfold stamp, line. by rewrite !string_app_assoc. Qed.

(** The tail of a write on a live stream. *)
Lemma write_tail_sent level h trace st s hd :
  heap st !! h = Some s → stream_live st s →
  _HEADERS !! level_index level = Some hd →
  ∃ st' s', write_tail put_time_FT level h trace st = (Ret tt, st')
    ∧ sent st' h = sent st h +:+ line put_time_FT (clock (world st)) hd trace
    ∧ heap st' !! h = Some s' ∧ lsm s' = false
    ∧ names (fs (world st')) = names (fs (world st))
    ∧ _sinks st' = _sinks st.
Proof.
  intros Hs Hlive Hhd. unfold write_tail, sent, stream_live in *.
  unfold header. rewrite Hhd.
  destruct_state st. destruct_sink s. rewrite Hs. simpl.
  destruct o as [| |i buf|]; [..|done]; mrun.
  - do 2 eexists. split; [reflexivity|]. simpl.
    rewrite (list_alter_as_insert _ _ _ _ Hs).
    rewrite (list_lookup_insert_same _ _ _ _ Hs). simpl.
    by rewrite <- stamp_line, !string_app_assoc.
  - do 2 eexists. split; [reflexivity|]. simpl.
    rewrite (list_alter_as_insert _ _ _ _ Hs).
    rewrite (list_lookup_insert_same _ _ _ _ Hs). simpl.
    by rewrite <- stamp_line, !string_app_assoc.
  - destruct Hlive as [f Hf]. do 2 eexists. split; [reflexivity|]. simpl.
    rewrite (list_alter_as_insert _ _ _ _ Hs), !list_alter_insert_same.
    rewrite (list_lookup_insert_same _ _ _ _ Hs). simpl.
    rewrite fs_append_names. split; [|done].
    unfold fs_append. rewrite decide_False by (by destruct buf).
    simpl. rewrite list_lookup_alter_eq, Hf. simpl.
    by rewrite <- stamp_line, !string_app_assoc.
Qed.

(** A write whose sink has no size limit. *)
Lemma write_unlimited level trace st h s hd :
  _sinks st !! level_index level = Some h → heap st !! h = Some s →
  lsm s = false → maxSize s = 0 → stream_live st s →
  _HEADERS !! level_index level = Some hd →
  ∃ st' s', _write put_time_Ymd put_time_FT level trace st = (Ret tt, st')
    ∧ sent st' h = sent st h +:+ line put_time_FT (clock (world st)) hd trace
    ∧ heap st' !! h = Some s' ∧ lsm s' = false.
Proof.
  intros Ht Hs Hl Hm Hlive Hhd. rewrite write_unfold. unfold bind at 1.
  rewrite (sink_of_Some _ _ _ Ht). unfold bind at 1.
  rewrite (lock_run _ _ _ Hs Hl). unfold bind at 1.
  set (st1 := set_heap _ st).
  assert (Hs1 : heap st1 !! h = Some (set_lsm true s)).
  { apply (list_lookup_insert_same _ _ _ _ Hs). }
  rewrite (get_sink_Some _ _ _ Hs1). simpl. rewrite Hm. simpl.
  destruct (write_tail_sent level h trace st1 _ hd Hs1) as
    (st' & s' & Hr & Hsent & Hs' & Hl' & _); [|done|].
  { unfold stream_live in *. simpl. done. }
  unfold bind, ret. rewrite Hr. exists st', s'. split; [done|]. split; [|done].
  rewrite Hsent. f_equal. unfold sent. rewrite Hs1, Hs. done.
Qed.

(** A write that finds the file within the limit. *)
Lemma write_within_limit level trace st h s hd n :
  _sinks st !! level_index level = Some h → heap st !! h = Some s →
  lsm s = false → stream_live st s →
  _HEADERS !! level_index level = Some hd →
  fs_file_size (fs (world st)) (fileName s) = Some n → n ≤ maxSize s →
  ∃ st' s', _write put_time_Ymd put_time_FT level trace st = (Ret tt, st')
    ∧ sent st' h = sent st h +:+ line put_time_FT (clock (world st)) hd trace
    ∧ heap st' !! h = Some s' ∧ lsm s' = false.
Proof.
  intros Ht Hs Hl Hlive Hhd Hsz Hle. rewrite write_unfold. unfold bind at 1.
  rewrite (sink_of_Some _ _ _ Ht). unfold bind at 1.
  rewrite (lock_run _ _ _ Hs Hl). unfold bind at 1.
  set (st1 := set_heap _ st).
  assert (Hs1 : heap st1 !! h = Some (set_lsm true s)).
  { apply (list_lookup_insert_same _ _ _ _ Hs). }
  rewrite (get_sink_Some _ _ _ Hs1).
  assert (Hrot : (if bool_decide (maxSize (set_lsm true s) ≠ 0)
                  then _sizeRotation put_time_Ymd h else ret tt) st1
                 = (Ret tt, st1)).
  { case_bool_decide; [|done]. unfold _sizeRotation, bind.
    rewrite (get_sink_Some _ _ _ Hs1). unfold file_size. simpl. rewrite Hsz.
    by rewrite Z.gtb_ltb, (proj2 (Z.ltb_ge _ _)). }
  unfold bind at 1. rewrite Hrot.
  destruct (write_tail_sent level h trace st1 _ hd Hs1) as
    (st' & s' & Hr & Hsent & Hs' & Hl' & _); [|done|].
  { unfold stream_live in *. simpl. done. }
  rewrite Hr. exists st', s'. split; [done|]. split; [|done].
  rewrite Hsent. f_equal. unfold sent. rewrite Hs1, Hs. done.
Qed.

(** A write whose size check finds no file. *)
Lemma write_missing_file level trace st h s :
  _sinks st !! level_index level = Some h → heap st !! h = Some s →
  lsm s = false → maxSize s ≠ 0 →
  fs_file_size (fs (world st)) (fileName s) = None →
  _write put_time_Ymd put_time_FT level trace st
  = (Raise (filesystem_error ("file_size: " +:+ fileName s)), locked h s st).
Proof.
  intros Ht Hs Hl Hm Hsz. rewrite write_unfold. unfold bind at 1.
  rewrite (sink_of_Some _ _ _ Ht). unfold bind at 1.
  rewrite (lock_run _ _ _ Hs Hl). unfold bind at 1.
  fold (locked h s st).
  assert (Hs1 : heap (locked h s st) !! h = Some (set_lsm true s)).
  { apply (list_lookup_insert_same _ _ _ _ Hs). }
  rewrite (get_sink_Some _ _ _ Hs1). simpl.
  rewrite bool_decide_true by done. unfold bind at 1.
  unfold _sizeRotation, bind. rewrite (get_sink_Some _ _ _ Hs1).
  unfold file_size. simpl. by rewrite Hsz.
Qed.

(** A write that finds the file above the limit, in full. *)
Lemma write_rotating_run (level : LogLevel) (trace : string) (st : Logger)
    (h : nat) (s : LogSink) (hd : string) (i i0 : nat) (buf : string) (n : Z) :
  _sinks st !! level_index level = Some h → heap st !! h = Some s →
  lsm s = false → maxSize s ≠ 0 →
  _HEADERS !! level_index level = Some hd →
  stream s = OFStream i buf →
  names (fs (world st)) !! fileName s = Some i0 →
  fs_file_size (fs (world st)) (fileName s) = Some n →
  maxSize s < n →
  openable (fs (world st)) (fileName s) →
  let path := fileName s in
  let w := world st in
  let ino := inodes (fs_append (fs w) (clock w) i buf) in
  _write put_time_Ymd put_time_FT level trace st
  = (Ret tt,
     mkLogger
       (<[h := mkLogSink false
                 (OFStream (length ino)
                    (stamp put_time_FT (to_time_t (clock w))
                       (millis_of (clock w)) hd +:+ trace))
                 path (put_time_Ymd (to_time_t (clock w))) (maxSize s)
                 (maxNumFiles s) (rotateDaily s)]> (heap st))
       (_sinks st) (_timers st) (gates st) (_nullStream st) (rotThreads st)
       (mkWorld (cout w) (cerr w)
          (FileSystem
             (<[path := length ino]>
                (<[archive path 1 := i0]>
                   (delete path
                      (shift_names path (Z.to_nat (maxNumFiles s - 2))
                         (names (fs w))))))
             (ino ++ [File nl (clock w)])
             (denied (fs w)))
          (clock w))).
Proof.
  intros Ht Hs Hl Hm Hhd Hstr Hnm Hsz Hlt Hop. simpl.
  rewrite write_unfold. unfold bind at 1.
  rewrite (sink_of_Some _ _ _ Ht). unfold bind at 1.
  rewrite (lock_run _ _ _ Hs Hl). unfold bind at 1.
  set (st1 := set_heap _ st).
  assert (Hs1 : heap st1 !! h = Some (set_lsm true s)).
  { apply (list_lookup_insert_same _ _ _ _ Hs). }
  rewrite (get_sink_Some _ _ _ Hs1). simpl.
  rewrite bool_decide_true by done. unfold bind at 1.
  rewrite (sizeRotation_run st1 h (set_lsm true s) i i0 buf n Hs1);
    [|done..].
  unfold write_tail, header. rewrite Hhd. subst st1.
  destruct_state st. destruct_sink s. subst. hrun Hs.
  rewrite !string_app_nil_l. by rewrite fs_append_snoc.
Qed.

(** A write that finds the file above the limit and cannot reopen it. *)
Lemma write_reopen_fails level trace st h s i i0 buf n :
  _sinks st !! level_index level = Some h → heap st !! h = Some s →
  lsm s = false → maxSize s ≠ 0 →
  stream s = OFStream i buf →
  names (fs (world st)) !! fileName s = Some i0 →
  fs_file_size (fs (world st)) (fileName s) = Some n →
  maxSize s < n →
  ¬ openable (fs (world st)) (fileName s) →
  ∃ st' s',
    _write put_time_Ymd put_time_FT level trace st
    = (Raise (runtime_error ("Log File cannot be opened: " +:+ fileName s)), st')
    ∧ heap st' !! h = Some s'
    ∧ lsm s' = true
    ∧ stream s' = ClosedStream
    ∧ names (fs (world st')) !! fileName s = None
    ∧ names (fs (world st')) !! archive (fileName s) 1 = Some i0.
Proof.
  intros Ht Hs Hl Hm Hstr Hnm Hsz Hlt Hno.
  rewrite write_unfold. unfold bind at 1.
  rewrite (sink_of_Some _ _ _ Ht). unfold bind at 1.
  rewrite (lock_run _ _ _ Hs Hl). unfold bind at 1.
  set (st1 := set_heap _ st).
  assert (Hs1 : heap st1 !! h = Some (set_lsm true s)).
  { apply (list_lookup_insert_same _ _ _ _ Hs). }
  rewrite (get_sink_Some _ _ _ Hs1). simpl.
  rewrite bool_decide_true by done. unfold bind at 1.
  assert (Hrot : ∃ st' s',
    _sizeRotation put_time_Ymd h st1
    = (Raise (runtime_error ("Log File cannot be opened: " +:+ fileName s)), st')
    ∧ heap st' !! h = Some s' ∧ lsm s' = true ∧ stream s' = ClosedStream
    ∧ names (fs (world st')) !! fileName s = None
    ∧ names (fs (world st')) !! archive (fileName s) 1 = Some i0).
  { subst st1. unfold _sizeRotation.
    destruct_state st. destruct_sink s. subst. hrun Hs.
    rewrite Hsz. simpl. rewrite (proj2 (Z.gtb_lt _ _)) by done. hrun Hs.
    rewrite shift_archives_run. hrun Hs.
    rewrite ?fs_append_nil. unfold fs_rename. simpl.
    rewrite ?fs_append_names. simpl.
    destruct (shift_names_lookup fn (Z.to_nat (mn - 2)) nm) as (_ & _ & _ & Hoth).
    rewrite (Hoth fn) by (intros j _ E; by apply (archive_ne_path fn j)).
    rewrite Hnm. simpl.
    rewrite open_append_fail
      by (unfold openable in *; simpl; by rewrite ?fs_append_denied).
    do 2 eexists. split; [reflexivity|]. simpl.
    rewrite (list_lookup_insert_same _ _ _ _ Hs).
    split; [reflexivity|]. split; [done|]. split; [done|].
    rewrite archive_1. split.
    - rewrite lookup_insert_ne by apply archive_ne_path.
      by rewrite lookup_delete_eq.
    - by rewrite lookup_insert_eq. }
  destruct Hrot as (st' & s' & -> & Hrest). eauto.
Qed.

(** C7, as amended.  An enabled write entry point runs [_write].  For a
    level with a header, on a sink whose mutex is free: when the sink has no
    size limit or its file is within the limit, the write returns and the
    sink's stream takes exactly the text
    [\n<timestamp>.<ms> - <header><message>]; when the file is above the
    limit and can be rotated, the write returns and that text is all the
    fresh file's stream holds; when the size check finds no file, the write
    throws the error of the size check, and when the rotated file cannot be
    reopened the write throws the error of the open. *)
Theorem write_appends_line (level : LogLevel) (trace : string) (st : Logger)
    (h : nat) (s : LogSink) (hd : string) :
  _sinks st !! level_index level = Some h →
  heap st !! h = Some s →
  lsm s = false →
  _HEADERS !! level_index level = Some hd →
  (* an enabled entry point runs the write path *)
  ((g_debug (gates st) = First →
    debug put_time_Ymd put_time_FT trace st
    = _write put_time_Ymd put_time_FT DEBUG trace st)
   ∧ (g_info (gates st) = First →
      info put_time_Ymd put_time_FT trace st
      = _write put_time_Ymd put_time_FT INFO trace st)
   ∧ (g_error (gates st) = First →
      error put_time_Ymd put_time_FT trace st
      = _write put_time_Ymd put_time_FT ERROR trace st))
  (* no size limit, or the file within the limit *)
  ∧ (stream_live st s →
     maxSize s = 0
     ∨ (∃ n, fs_file_size (fs (world st)) (fileName s) = Some n ∧ n ≤ maxSize s) →
     ∃ st' s', _write put_time_Ymd put_time_FT level trace st = (Ret tt, st')
       ∧ sent st' h = sent st h +:+ line put_time_FT (clock (world st)) hd trace
       ∧ heap st' !! h = Some s' ∧ lsm s' = false)
  (* the file above the limit: the line opens the fresh file *)
  ∧ (∀ i buf n,
     maxSize s ≠ 0 → stream s = OFStream i buf →
     fs_file_size (fs (world st)) (fileName s) = Some n → maxSize s < n →
     openable (fs (world st)) (fileName s) →
     ∃ st' s', _write put_time_Ymd put_time_FT level trace st = (Ret tt, st')
       ∧ sent st' h = line put_time_FT (clock (world st)) hd trace
       ∧ heap st' !! h = Some s' ∧ lsm s' = false)
  (* the file gone: the size check throws *)
  ∧ (maxSize s ≠ 0 → fs_file_size (fs (world st)) (fileName s) = None →
     (_write put_time_Ymd put_time_FT level trace st).1
     = Raise (filesystem_error ("file_size: " +:+ fileName s)))
  (* the file above the limit but not to be reopened: the open throws *)
  ∧ (∀ i buf n,
     maxSize s ≠ 0 → stream s = OFStream i buf →
     fs_file_size (fs (world st)) (fileName s) = Some n → maxSize s < n →
     ¬ openable (fs (world st)) (fileName s) →
     (_write put_time_Ymd put_time_FT level trace st).1
     = Raise (runtime_error ("Log File cannot be opened: " +:+ fileName s))).
Proof.
  intros Ht Hs Hl Hhd. split; [|split; [|split; [|split]]].
  - unfold debug, info, error, bind, gets.
    repeat split; intros ->; reflexivity.
  - intros Hlive [Hm | (n & Hsz & Hle)].
    + by eapply write_unlimited.
    + by eapply write_within_limit.
  - intros i buf n Hm Hstr Hsz Hlt Hop.
    assert (∃ i0, names (fs (world st)) !! fileName s = Some i0) as [i0 Hnm].
    { unfold fs_file_size, fs_lookup in Hsz.
      destruct (names (fs (world st)) !! fileName s); [eauto|done]. }
    rewrite (write_rotating_run level trace st h s hd
               i i0 buf n) by done.
    do 2 eexists. split; [reflexivity|]. unfold sent. simpl.
    rewrite (list_lookup_insert_same _ _ _ _ Hs). simpl.
    split; [|done].
    rewrite lookup_app_r by done. rewrite Nat.sub_diag. simpl.
    apply stamp_line.
  - intros Hm Hsz. by rewrite (write_missing_file level trace st h s).
  - intros i buf n Hm Hstr Hsz Hlt Hno.
    assert (∃ i0, names (fs (world st)) !! fileName s = Some i0) as [i0 Hnm].
    { unfold fs_file_size, fs_lookup in Hsz.
      destruct (names (fs (world st)) !! fileName s); [eauto|done]. }
    destruct (write_reopen_fails level trace st h s i i0 buf n)
      as (st' & s' & Hr & _); [done..|].
    by rewrite Hr.
Qed.


(** C10.  The constructor stores the size limit under every policy; the
    policy decides [maxNumFiles] (the clamp under the size policy, 0
    otherwise) and, under the daily policy, the rotation thread with the
    date stamp it starts from.  A write to a sink that has a size limit and
    [maxNumFiles = 0], as built under the policies NONE and DAILY, rotates
    as well: the active file becomes [path.1], [path] is a fresh file, and
    no other name changes. *)
Theorem size_rotation_whatever_the_policy
    (policy : Policy.t) (this : nat) (fname : string) (n sz : Z) (st0 : Logger)
    (i0 : nat) (f0 : filesystem)
    (level : LogLevel) (trace : string) (st : Logger) (h : nat) (s : LogSink)
    (hd : string) (i : nat) (buf : string) (f : file) :
  (* a sink is built *)
  fs_open_append (fs (world st0)) (clock (world st0)) fname = Some (i0, f0) →
  (* later, a write goes to a sink with a size limit but maxNumFiles = 0 *)
  _sinks st !! level_index level = Some h →
  heap st !! h = Some s →
  lsm s = false →
  _HEADERS !! level_index level = Some hd →
  maxSize s ≠ 0 →
  maxNumFiles s = 0 →
  stream s = OFStream i buf →
  names (fs (world st)) !! fileName s = Some i →
  inodes (fs (world st)) !! i = Some f →
  maxSize s < Z.of_nat (String.length (data f)) →
  openable (fs (world st)) (fileName s) →
  (* the constructor: the size is stored under every policy *)
  LogSink_file put_time_Ymd this fname policy n sz st0
  = (Ret (mkLogSink false (OFStream i0 "") fname
            (creation_stamp put_time_Ymd policy (world st0) fname) (umax sz)
            (if Policy.eqb policy Policy.MAX_SIZE && bool_decide (umax sz ≠ 0)
             then Z.max (u8 n) 2 else 0)
            false),
     mkLogger (heap st0) (_sinks st0) (_timers st0) (gates st0) (_nullStream st0)
       (rotThreads st0 ++ (if Policy.eqb policy Policy.DAILY then [this] else []))
       (mkWorld (cout (world st0)) (cerr (world st0)) f0 (clock (world st0))))
  (* the write: the file is rotated to path.1 and nothing else is renamed *)
  ∧ ∃ st', _write put_time_Ymd put_time_FT level trace st = (Ret tt, st')
      ∧ names (fs (world st'))
        = <[fileName s := length (inodes (fs (world st)))]>
            (<[fileName s +:+ ".1" := i]>
               (delete (fileName s) (names (fs (world st)))))
      ∧ data <$> inodes (fs (world st')) !! i = Some (data f +:+ buf).
Proof.
  intros Ho Ht Hs Hl Hhd Hm Hn Hstr Hnm Hf Hlt Hop. split.
  - by apply LogSink_file_run.
  - assert (Hsz : fs_file_size (fs (world st)) (fileName s)
                  = Some (Z.of_nat (String.length (data f)))).
    { unfold fs_file_size, fs_lookup. rewrite Hnm. simpl. by rewrite Hf. }
    rewrite (write_rotating_run level trace st h s hd
               i i buf _ Ht Hs Hl Hm Hhd Hstr Hnm Hsz Hlt Hop).
    eexists. split; [reflexivity|]. simpl. rewrite Hn. simpl.
    rewrite fs_append_length. split; [by rewrite archive_1|].
    rewrite lookup_app_l
      by (rewrite fs_append_length; by eapply lookup_lt_Some).
    unfold fs_append. case_decide as Hb; simpl.
    + subst buf. rewrite Hf. simpl. by rewrite string_app_nil_r.
    + by rewrite list_lookup_alter_eq, Hf.
Qed.

(** ** Daily rotation *)

Lemma daily_rotating_run (st : Logger) (h : nat) (s : LogSink) (i i0 : nat)
    (buf : string) (n : Z) :
  heap st !! h = Some s → lsm s = false →
  stream s = OFStream i buf →
  names (fs (world st)) !! fileName s = Some i0 →
  fs_file_size (fs (world st)) (fileName s) = Some n →
  creationDate s ≠ put_time_Ymd (to_time_t (clock (world st))) →
  n ≠ 0 →
  openable (fs (world st)) (fileName s) →
  let path := fileName s in
  let w := world st in
  let today := put_time_Ymd (to_time_t (clock w)) in
  let ino := inodes (fs_append (fs w) (clock w) i buf) in
  _dailyRotationThread put_time_Ymd mktime_Ymd h st
  = (Ret (sleep_after mktime_Ymd today (clock w)),
     mkLogger
       (<[h := mkLogSink false (OFStream (length ino) "") path today (maxSize s)
                 (maxNumFiles s) (rotateDaily s)]> (heap st))
       (_sinks st) (_timers st) (gates st) (_nullStream st) (rotThreads st)
       (mkWorld (cout w) (cerr w)
          (FileSystem
             (<[path := length ino]>
                (<[path +:+ "." +:+ creationDate s := i0]>
                   (delete path (names (fs w)))))
             (ino ++ [File "" (clock w)])
             (denied (fs w)))
          (clock w))).
Proof.
  intros Hs Hl Hstr Hnm Hsz Hdate Hn [Hne Hden]. simpl.
  unfold _dailyRotationThread, sleep_after.
  destruct_state st. destruct_sink s. subst.
  hrun Hs. rewrite bool_decide_true by done. hrun Hs.
  rewrite Hsz. simpl. rewrite bool_decide_true by done. hrun Hs.
  rewrite ?fs_append_nil. unfold fs_rename. simpl. rewrite ?fs_append_names.
  simpl. rewrite Hnm. hrun Hs.
  unfold fs_open_append. simpl. rewrite ?fs_append_denied. simpl.
  rewrite decide_False by (intros [?|?]; done).
  rewrite lookup_insert_ne by apply string_app_dot_ne.
  rewrite lookup_delete_eq. hrun Hs. done.
Qed.

Lemma daily_idle_run (st : Logger) (h : nat) (s : LogSink) :
  heap st !! h = Some s →
  creationDate s = put_time_Ymd (to_time_t (clock (world st)))
  ∨ fs_file_size (fs (world st)) (fileName s) = Some 0 →
  _dailyRotationThread put_time_Ymd mktime_Ymd h st
  = (Ret (sleep_after mktime_Ymd (creationDate s) (clock (world st))), st).
Proof.
  intros Hs Hidle.
  unfold _dailyRotationThread, sleep_after.
  destruct_state st. destruct_sink s.
  hrun Hs. case_bool_decide as Hd; hrun Hs; [|done].
  destruct Hidle as [?|Hsz]; [done|]. rewrite Hsz. hrun Hs. done.
Qed.

(** C2.  One turn of the daily-rotation thread of a sink whose file
    exists: when the current date stamp differs from the stored creation
    date and the file is not empty, the file (flushed) is renamed to
    [path.<old creation date>], [path] is reopened as a fresh empty file
    and the creation date becomes the current date; otherwise, in
    particular when the file is empty although the date has changed, the
    state is left as it is. *)
Theorem daily_rotation_iff (st : Logger) (h : nat) (s : LogSink) (i : nat)
    (buf : string) (f : file) :
  heap st !! h = Some s →
  lsm s = false →
  stream s = OFStream i buf →
  names (fs (world st)) !! fileName s = Some i →
  inodes (fs (world st)) !! i = Some f →
  openable (fs (world st)) (fileName s) →
  let path := fileName s in
  let today := put_time_Ymd (to_time_t (clock (world st))) in
  let fresh := length (inodes (fs (world st))) in
  (* the date has changed and the file is not empty: the file is rotated *)
  (creationDate s ≠ today ∧ String.length (data f) ≠ 0%nat →
   ∃ st' s' sleep,
     _dailyRotationThread put_time_Ymd mktime_Ymd h st = (Ret sleep, st')
     ∧ heap st' !! h = Some s'
     ∧ names (fs (world st')) !! (path +:+ "." +:+ creationDate s) = Some i
     ∧ data <$> inodes (fs (world st')) !! i = Some (data f +:+ buf)
     ∧ names (fs (world st')) !! path = Some fresh
     ∧ inodes (fs (world st)) !! fresh = None
     ∧ inodes (fs (world st')) !! fresh = Some (File "" (clock (world st)))
     ∧ stream s' = OFStream fresh ""
     ∧ creationDate s' = today
     ∧ lsm s' = false
     ∧ (∀ p, p ≠ path → p ≠ path +:+ "." +:+ creationDate s →
          names (fs (world st')) !! p = names (fs (world st)) !! p))
  (* otherwise nothing happens *)
  ∧ (¬ (creationDate s ≠ today ∧ String.length (data f) ≠ 0%nat) →
     ∃ sleep, _dailyRotationThread put_time_Ymd mktime_Ymd h st = (Ret sleep, st)).
Proof.
  intros Hs Hl Hstr Hnm Hf Hop path today fresh. subst path today fresh.
  assert (Hsz : fs_file_size (fs (world st)) (fileName s)
                = Some (Z.of_nat (String.length (data f)))).
  { unfold fs_file_size, fs_lookup. rewrite Hnm. simpl. by rewrite Hf. }
  split.
  - intros [Hdate Hlen].
    rewrite (daily_rotating_run st h s i i buf _ Hs Hl Hstr Hnm Hsz Hdate)
      by (done || lia).
    do 3 eexists. split; [reflexivity|]. simpl.
    rewrite (list_lookup_insert_same _ _ _ _ Hs). split; [reflexivity|].
    rewrite fs_append_length. simpl.
    split; [|split; [|split; [|split; [|split; [|split; [|split; [|split]]]]]]].
    + rewrite lookup_insert_ne by (symmetry; apply string_app_dot_ne).
      by rewrite lookup_insert_eq.
    + rewrite lookup_app_l
        by (rewrite fs_append_length; by eapply lookup_lt_Some).
      unfold fs_append. case_decide as Hb; simpl.
      * subst buf. rewrite Hf. simpl. by rewrite string_app_nil_r.
      * by rewrite list_lookup_alter_eq, Hf.
    + by rewrite lookup_insert_eq.
    + by apply lookup_ge_None_2.
    + rewrite lookup_app_r by (by rewrite fs_append_length).
      rewrite fs_append_length. by rewrite Nat.sub_diag.
    + done.
    + done.
    + done.
    + intros p H1 H2. rewrite !lookup_insert_ne by done.
      by rewrite lookup_delete_ne.
  - intros Hno. eexists. apply daily_idle_run; [done|].
    destruct (decide (creationDate s
                      = put_time_Ymd (to_time_t (clock (world st)))));
      [by left|right].
    rewrite Hsz. f_equal.
    destruct (decide (String.length (data f) = 0%nat)) as [->|]; [done|].
    destruct Hno. done.
Qed.

(** ** Timers and the runtime switches *)

(** C9.  [startTimer] pushes the current time.  With a non-empty stack
    [stopTimer] pops the most recent start, and the STOPPED line it writes
    gives the time elapsed since that start in the caller's unit; with an
    empty stack it writes "Timer not started!" and returns normally. *)
Theorem timers_lifo (st : Logger) (h : nat) (s : LogSink)
    (unit_ns : Z) (unit_ function : string) (line : Z) :
  _sinks st !! level_index PROFILING = Some h →
  heap st !! h = Some s →
  stream_live st s →
  (∃ st', startTimer function line st = (Ret tt, st')
     ∧ _timers st' = _timers st ++ [clock (world st)]
     ∧ sent st' h = sent st h +:+ nl +:+ "Timer #"
         +:+ pretty (length (_timers st) + 1)%nat +:+ " STARTED at "
         +:+ function +:+ " (Line " +:+ pretty line +:+ ")")
  ∧ (∀ ts start, _timers st = ts ++ [start] →
     ∃ st', stopTimer unit_ns unit_ function line st = (Ret tt, st')
       ∧ _timers st' = ts
       ∧ sent st' h = sent st h +:+ nl +:+ "Timer #"
           +:+ pretty (length ts + 1)%nat +:+ " STOPPED at " +:+ function
           +:+ " (Line " +:+ pretty line +:+ ") --- DURATION = "
           +:+ pretty (Z.quot (clock (world st) - start) unit_ns)
           +:+ " " +:+ unit_)
  ∧ (_timers st = [] →
     ∃ st', stopTimer unit_ns unit_ function line st = (Ret tt, st')
       ∧ _timers st' = []
       ∧ sent st' h = sent st h +:+ "Timer not started!" +:+ nl).
Proof.
  intros Ht Hs Hlive. unfold sent, stream_live in *.
  destruct_state st. destruct_sink s. rewrite Hs. simpl.
  split; [|split].
  - unfold startTimer. destruct o as [| |i buf|]; [..|done]; mrun.
    + eexists; split; [reflexivity|]. simpl. by rewrite Hs.
    + eexists; split; [reflexivity|]. simpl. by rewrite Hs.
    + eexists; split; [reflexivity|]. simpl.
      rewrite list_lookup_alter_eq, Hs. simpl. by rewrite string_app_assoc.
  - intros ts start ->. unfold stopTimer. mrun. rewrite last_snoc.
    rewrite length_app. change (length [start]) with 1%nat.
    destruct o as [| |i buf|]; [..|done]; mrun; rewrite removelast_last.
    + eexists; split; [reflexivity|]. simpl. by rewrite Hs.
    + eexists; split; [reflexivity|]. simpl. by rewrite Hs.
    + eexists; split; [reflexivity|]. simpl.
      rewrite list_lookup_alter_eq, Hs. simpl. by rewrite string_app_assoc.
  - intros ->. unfold stopTimer. mrun.
    destruct o as [| |i buf|]; [..|done]; mrun.
    + eexists; split; [reflexivity|]. simpl. rewrite Hs. simpl.
      by rewrite string_app_assoc.
    + eexists; split; [reflexivity|]. simpl. rewrite Hs. simpl.
      by rewrite string_app_assoc.
    + eexists; split; [reflexivity|]. simpl.
      rewrite !list_lookup_alter_eq, Hs. simpl.
      destruct Hlive as [f Hf]. unfold fs_append.
      case_decide as Hd.
      { exfalso. destruct buf; discriminate Hd. }
      simpl. rewrite list_lookup_alter_eq, Hf. simpl.
      by rewrite string_app_nil_r, !string_app_assoc.
Qed.

(** C4, as amended.  After [setLevel(DEBUG)], [setLevel(INFO)] and
    [setLevel(ERROR)] the ERROR write entry point runs the write path.
    After [setLevel(ERROR)] the DEBUG and INFO write entry points do nothing
    and their stream accessors hand out the discard stream, on which text
    changes neither the world nor any sink.  After [setLevel(NONE)] every
    entry point is switched off, the ERROR write entry point and the ERROR
    stream accessor included. *)
Theorem setLevel_gates (st : Logger) (trace text : string) :
  error put_time_Ymd put_time_FT trace (setLevel DEBUG st).2
  = _write put_time_Ymd put_time_FT ERROR trace (setLevel DEBUG st).2
  ∧ error put_time_Ymd put_time_FT trace (setLevel INFO st).2
    = _write put_time_Ymd put_time_FT ERROR trace (setLevel INFO st).2
  ∧ (let st1 := (setLevel ERROR st).2 in
     error put_time_Ymd put_time_FT trace st1
     = _write put_time_Ymd put_time_FT ERROR trace st1
     ∧ debug put_time_Ymd put_time_FT trace st1 = (Ret tt, st1)
     ∧ info put_time_Ymd put_time_FT trace st1 = (Ret tt, st1)
     ∧ getDebugStream put_time_Ymd put_time_FT st1 = (Ret NullStreamRef, st1)
     ∧ getInfoStream put_time_Ymd put_time_FT st1 = (Ret NullStreamRef, st1)
     ∧ world (ref_put NullStreamRef text st1).2 = world st1
     ∧ heap (ref_put NullStreamRef text st1).2 = heap st1)
  ∧ (let st2 := (setLevel NONE st).2 in
     debug put_time_Ymd put_time_FT trace st2 = (Ret tt, st2)
     ∧ info put_time_Ymd put_time_FT trace st2 = (Ret tt, st2)
     ∧ error put_time_Ymd put_time_FT trace st2 = (Ret tt, st2)
     ∧ getDebugStream put_time_Ymd put_time_FT st2 = (Ret NullStreamRef, st2)
     ∧ getInfoStream put_time_Ymd put_time_FT st2 = (Ret NullStreamRef, st2)
     ∧ getErrorStream put_time_Ymd put_time_FT st2 = (Ret NullStreamRef, st2)).
Proof. repeat split; reflexivity. Qed.

(** ** The stream accessors *)

Lemma write_as_head level trace st :
  _write put_time_Ymd put_time_FT level trace st
  = (do h <- sink_of level;
     do x <- write_head put_time_Ymd put_time_FT level h;
     do_ stream_put h (x +:+ trace);
     unlock h) st.
Proof.
  unfold _write, write_head, bind, ret.
  repeat match goal with
  | |- context [match ?m ?s with _ => _ end] =>
      is_var s; destruct (m s) as [[?| | |] ?]; try reflexivity
  end.
Qed.

Lemma writeOut_as_head level st :
  _writeOut put_time_Ymd put_time_FT level st
  = (do h <- sink_of level;
     do x <- write_head put_time_Ymd put_time_FT level h;
     do_ stream_put h x;
     unlock h) st.
Proof.
  unfold _writeOut, write_head, bind, ret.
  repeat match goal with
  | |- context [match ?m ?s with _ => _ end] =>
      is_var s; destruct (m s) as [[?| | |] ?]; try reflexivity
  end.
Qed.

Lemma pres_write_head level h :
  preserving stable (write_head put_time_Ymd put_time_FT level h).
Proof. unfold write_head. pres. Qed.

(** Two pieces sent one after the other, with the mutex released in
    between, are one piece. *)
Lemma put_unlock_put level h a b st :
  _sinks st !! level_index level = Some h →
  (do_ stream_put h a; do_ unlock h; do h' <- sink_of level; stream_put h' b) st
  = (do_ stream_put h (a +:+ b); unlock h) st.
Proof.
  intros Hh. destruct (heap st !! h) as [s|] eqn:Hs.
  - destruct_state st. destruct_sink s.
    destruct o; hrun Hs; rewrite ?Hh; simpl; hrun Hs;
      by rewrite ?string_app_assoc.
  - destruct_state st. munfold. simpl. by rewrite Hs.
Qed.

Lemma bind_assoc {A B C} (m : M A) (k : A → M B) (k' : B → M C) st :
  bind (bind m k) k' st = bind m (λ a, bind (k a) k') st.
Proof. unfold bind. by destruct (m st) as [[?| | |] ?]. Qed.

Lemma bind_run {A B} (m m' : M A) (k : A → M B) st :
  m st = m' st → bind m k st = bind m' k st.
Proof. unfold bind. by intros ->. Qed.

Lemma bind_ext {A B} (m : M A) (k k' : A → M B) st :
  (∀ a st', m st = (Ret a, st') → k a st' = k' a st') →
  bind m k st = bind m k' st.
Proof. unfold bind. destruct (m st) as [[?| | |] ?]; auto. Qed.

Lemma sink_of_inv level st h st' :
  sink_of level st = (Ret h, st') →
  st' = st ∧ _sinks st !! level_index level = Some h.
Proof. unfold sink_of. destruct (_ !! _); naive_solver. Qed.

(** X1. Asking for the stream of a level and sending a text to it does
    what [_write] does with that text: same outcome, same final state
    (the sink, its buffer, the files, the mutex).  The switched accessors
    and write functions inherit this whenever both are switched the same
    way. *)
Theorem accessor_then_put_is_write (level : LogLevel) (trace : string)
    (st : Logger) :
  (do r <- _getStream put_time_Ymd put_time_FT level; ref_put r trace) st
  = _write put_time_Ymd put_time_FT level trace st.
Proof.
  rewrite write_as_head. unfold _getStream.
  rewrite bind_assoc, (bind_run _ _ _ _ (writeOut_as_head level st)).
  rewrite bind_assoc. apply bind_ext. intros h st1 [-> Hh]%sink_of_inv.
  rewrite bind_assoc. apply bind_ext. intros x st2 E.
  pose proof (pres_write_head level h st) as [_ Htb]. rewrite E in Htb.
  simpl in Htb. rewrite <- Htb in Hh.
  rewrite <- (put_unlock_put level h x trace st2 Hh).
  unfold bind, ret.
  repeat match goal with
  | |- context [match ?m ?s with _ => _ end] =>
      is_var s; destruct (m s) as [[?| | |] ?]; try reflexivity
  end.
Qed.

(** ** What an operation leaves alone *)

Lemma pres_bind_same {X A B} (p : Logger → X) (m : M A) (k : A → M B) :
  preserving (same p) m → (∀ a, preserving (same p) (k a)) →
  preserving (same p) (bind m k).
Proof. apply pres_bind. unfold same. congruence. Qed.

Lemma find_sink_pure fname tbl st : (find_sink fname tbl st).2 = st.
Proof.
  induction tbl as [|h tbl IH]; simpl; [done|]. unfold bind, get_sink.
  destruct (heap st !! h); [|done]. by case_bool_decide.
Qed.

Lemma check_unassigned_pure tbl st : (check_unassigned tbl st).2 = st.
Proof.
  induction tbl as [|h tbl IH]; simpl; [done|]. unfold bind, get_sink.
  destruct (heap st !! h); [|done]. by case_bool_decide.
Qed.

Lemma fmap_alter_fileName (f : LogSink → LogSink) (h : nat) (hp : list LogSink) :
  (∀ s, fileName (f s) = fileName s) →
  fileName <$> alter f h hp = fileName <$> hp.
Proof.
  intros Hf. apply list_eq. intros i. rewrite !list_lookup_fmap.
  destruct (decide (i = h)) as [->|Hne].
  - rewrite list_lookup_alter_eq.
    destruct (hp !! h); simpl; [by rewrite Hf|done].
  - by rewrite list_lookup_alter_ne.
Qed.

Ltac same_leaf :=
  let st := fresh "st" in
  intros st; unfold same;
  rewrite ?find_sink_pure, ?check_unassigned_pure;
  unfold file_size, rename, _openLogFile, last_write_time, header, modify_sink,
    get_sink, sink_of, now;
  unfold ret, gets, modify, throw, undefined, stuck;
  repeat case_match; simpl; unfold sink_names; simpl;
  try (rewrite fmap_alter_fileName by done); reflexivity.

Ltac same_step :=
  unfold stream_endl, stream_close, lock, unlock, discard;
  unfold stream_put, stream_flush, exists_;
  match goal with
  | |- preserving (same _) (bind _ _) => apply pres_bind_same; [|intros ?]
  | |- preserving _ (if ?b then _ else _) => destruct b
  | |- preserving _ (dual_call ?m _ _) => destruct m; simpl
  | |- preserving _ (shift_archives _ _) => solve [auto]
  | |- preserving _ (match ?x with _ => _ end) => destruct x
  | |- preserving (same _) _ => solve [same_leaf]
  end.

Ltac same_all := repeat same_step.

Ltac same_event :=
  unfold debug, info, error, getDebugStream, getInfoStream, getErrorStream,
    _getStream, _write, _writeOut, _sizeRotation, ref_put, startTimer,
    stopTimer, setLevel, setLogFile, setLogFile_all, new_LogSink, LogSink_file,
    _dailyRotationThread;
  same_all.

Lemma gates_shift_archives path i :
  preserving (same gates) (shift_archives path i).
Proof. induction i as [|i IH]; simpl; same_all. Qed.

Lemma timers_shift_archives path i :
  preserving (same _timers) (shift_archives path i).
Proof. induction i as [|i IH]; simpl; same_all. Qed.

Lemma nullStream_shift_archives path i :
  preserving (same _nullStream) (shift_archives path i).
Proof. induction i as [|i IH]; simpl; same_all. Qed.

Lemma sinks_shift_archives path i :
  preserving (same _sinks) (shift_archives path i).
Proof. induction i as [|i IH]; simpl; same_all. Qed.

Lemma rotThreads_shift_archives path i :
  preserving (same rotThreads) (shift_archives path i).
Proof. induction i as [|i IH]; simpl; same_all. Qed.

Lemma names_shift_archives path i :
  preserving (same sink_names) (shift_archives path i).
Proof. induction i as [|i IH]; simpl; same_all. Qed.

Lemma gates_run_event e :
  levels e = false →
  preserving (same gates) (run_event put_time_Ymd put_time_FT mktime_Ymd e).
Proof.
  pose proof gates_shift_archives.
  intros He. destruct e; simpl; try discriminate He; same_event.
Qed.

Lemma timers_run_event e :
  times e = false →
  preserving (same _timers) (run_event put_time_Ymd put_time_FT mktime_Ymd e).
Proof.
  pose proof timers_shift_archives.
  intros He. destruct e; simpl; try discriminate He; same_event.
Qed.

Lemma nullStream_run_event e :
  discards e = false →
  preserving (same _nullStream)
    (run_event put_time_Ymd put_time_FT mktime_Ymd e).
Proof.
  pose proof nullStream_shift_archives.
  intros He. destruct e as [| | | | | |[|h]| | | | | | |]; simpl;
    try discriminate He; same_event.
Qed.

Lemma sinks_run_event e :
  assigns e = false →
  preserving (same _sinks) (run_event put_time_Ymd put_time_FT mktime_Ymd e).
Proof.
  pose proof sinks_shift_archives.
  intros He. destruct e; simpl; try discriminate He; same_event.
Qed.

Lemma rotThreads_run_event e :
  assigns e = false →
  preserving (same rotThreads)
    (run_event put_time_Ymd put_time_FT mktime_Ymd e).
Proof.
  pose proof rotThreads_shift_archives.
  intros He. destruct e; simpl; try discriminate He; same_event.
Qed.

Lemma names_run_event e :
  assigns e = false →
  preserving (same sink_names)
    (run_event put_time_Ymd put_time_FT mktime_Ymd e).
Proof.
  pose proof names_shift_archives.
  intros He. destruct e; simpl; try discriminate He; same_event.
Qed.

(** ** The level switches *)

(** X2. [setLevel(m)] is a threshold: for [m] other than PROFILING it
    returns, changes nothing but the switches, and leaves the write
    function of a logging level enabled exactly when the level is at least
    [m], with the stream accessor of each level switched like its write
    function; what an earlier [setLevel] chose is forgotten.
    [setLevel(PROFILING)] changes nothing at all. *)
Theorem setLevel_threshold (m : LogLevel) (st : Logger) :
  match m with
  | PROFILING => setLevel m st = (Ret tt, st)
  | _ =>
      let g := gates (setLevel m st).2 in
      setLevel m st = (Ret tt, set_gates (λ _, g) st)
      ∧ (∀ l x, write_gate g l = Some x →
           x = if bool_decide (level_index m ≤ level_index l)%nat
               then First else Second)
      ∧ (∀ l, stream_gate g l = write_gate g l)
      ∧ (∀ m0, setLevel m (setLevel m0 st).2 = setLevel m st)
  end.
Proof.
  destruct m; simpl; try reflexivity;
    (split; [reflexivity|]; split; [|split]);
    try (intros [] x [= <-]; reflexivity);
    try (intros []; reflexivity).
Qed.

Lemma gates_ok_setLevel l st : gates_ok (gates st) → gates_ok (gates (setLevel l st).2).
Proof. destruct l; simpl; try done; intros _; by repeat split. Qed.

Lemma gates_ok_run_event e st :
  gates_ok (gates st) →
  gates_ok (gates (run_event put_time_Ymd put_time_FT mktime_Ymd e st).2).
Proof.
  intros Hok. destruct (levels e) eqn:He.
  - destruct e; try discriminate He. by apply gates_ok_setLevel.
  - by rewrite (gates_run_event e He st).
Qed.

(** X3. Whatever happens from program start on, the switches stay
    consistent: the stream accessor of a level is enabled exactly when its
    write function is, and an enabled level has every higher logging level
    enabled. *)
Theorem gates_ok_reachable (es : list event) (w : World) :
  gates_ok (gates (run_events put_time_Ymd put_time_FT mktime_Ymd es (init w))).
Proof.
  assert (∀ st, gates_ok (gates st) →
    gates_ok (gates (run_events put_time_Ymd put_time_FT mktime_Ymd es st)))
    as H.
  { induction es as [|e es IH]; intros st Hok; simpl; [done|].
    pose proof (gates_ok_run_event e st Hok) as He.
    destruct (run_event _ _ _ e st) as [[[]| | |] st']; simpl in He; auto. }
  apply H. by repeat split.
Qed.

(** X4. Every part of the logger's state has its own writers, whatever
    the outcome of a call: only [setLevel] changes the switches, only
    [startTimer] and [stopTimer] change the timer stack, only text sent to
    the discard stream changes its buffer, and only the two [setLogFile]
    change the table of sinks, the number and the file names of the sink
    objects, and the set of rotation threads. *)
Theorem events_keep_to_their_part (e : event) (st : Logger) :
  let st' := (run_event put_time_Ymd put_time_FT mktime_Ymd e st).2 in
  (levels e = false → gates st' = gates st)
  ∧ (times e = false → _timers st' = _timers st)
  ∧ (discards e = false → _nullStream st' = _nullStream st)
  ∧ (assigns e = false →
     _sinks st' = _sinks st ∧ sink_names st' = sink_names st
     ∧ rotThreads st' = rotThreads st).
Proof.
  simpl. split; [|split; [|split]]; intros He.
  - apply (gates_run_event e He st).
  - apply (timers_run_event e He st).
  - apply (nullStream_run_event e He st).
  - split; [|split].
    + apply (sinks_run_event e He st).
    + apply (names_run_event e He st).
    + apply (rotThreads_run_event e He st).
Qed.

(** ** One sink per file name *)

Lemma sink_names_lookup st h s :
  heap st !! h = Some s → sink_names st !! h = Some (fileName s).
Proof. intros Hs. unfold sink_names. by rewrite list_lookup_fmap, Hs. Qed.

Lemma sink_names_lookup_inv st h f :
  sink_names st !! h = Some f → ∃ s, heap st !! h = Some s ∧ fileName s = f.
Proof.
  unfold sink_names. rewrite list_lookup_fmap.
  destruct (heap st !! h) as [s|]; [|done]. intros [= <-]. eauto.
Qed.

Lemma one_sink_same st st' :
  _sinks st' = _sinks st → sink_names st' = sink_names st →
  one_sink_per_name st → one_sink_per_name st'.
Proof.
  intros Et En [Hin Huniq]. split.
  - intros h s' Hs' Hf. rewrite Et.
    apply sink_names_lookup in Hs'. rewrite En in Hs'.
    apply sink_names_lookup_inv in Hs' as (s & Hs & E). apply (Hin h s Hs).
    by rewrite E.
  - intros h1 h2 s1 s2 H1%sink_names_lookup H2%sink_names_lookup E Hne.
    rewrite En in H1, H2.
    apply sink_names_lookup_inv in H1 as (t1 & H1 & E1).
    apply sink_names_lookup_inv in H2 as (t2 & H2 & E2).
    apply (Huniq h1 h2 t1 t2 H1 H2); congruence.
Qed.

Lemma elem_of_insert_other {A} (l : list A) (i : nat) (x y a : A) :
  l !! i = Some y → a ∈ l → a ≠ y → a ∈ <[i := x]> l.
Proof.
  intros Hi [j Hj]%list_elem_of_lookup Hne.
  apply list_elem_of_lookup. exists j.
  rewrite list_lookup_insert_ne; [done|]. intros ->. congruence.
Qed.

Lemma one_sink_setLogFile l f p n sz st :
  table_ok st → one_sink_per_name st →
  one_sink_per_name (setLogFile put_time_Ymd l f p n sz st).2.
Proof.
  intros [Hlen Hall] [Hin Huniq]. unfold setLogFile, bind.
  destruct (_sinks st !! level_index l) as [h|] eqn:Hl;
    [|by unfold sink_of; rewrite Hl].
  rewrite (sink_of_Some _ _ _ Hl).
  destruct (proj1 (Forall_lookup _ _) Hall _ _ Hl) as [s Hs].
  rewrite (get_sink_Some _ _ _ Hs).
  case_bool_decide as Hf; [done|]. simpl.
  assert (fileName s = "") as Hf0.
  { destruct (decide (fileName s = "")); [done|]. by destruct Hf. }
  destruct (find_sink_cases f _ st Hall)
    as [(h' & s' & Hin' & Hs' & _ & ->) | [Hnone ->]].
  - split; simpl; [|done]. intros h0 s0 Hs0 Hne.
    eapply elem_of_insert_other; [exact Hl | by eapply Hin |].
    intros ->. congruence.
  - destruct (new_LogSink_outcome f p n sz st)
      as [(st' & s' & -> & Hh & Ht & Hfn & Hop) | [-> _]]; [|done].
    unfold one_sink_per_name. simpl. rewrite Ht, Hh. split.
    + intros h0 s0 Hs0 Hne.
      apply lookup_app_Some in Hs0 as [Hs0 | [Hge Hs0]].
      * eapply elem_of_insert_other; [exact Hl | by eapply Hin |].
        intros ->. congruence.
      * apply list_lookup_singleton_Some in Hs0 as [Hz _].
        assert (h0 = length (heap st)) as -> by lia.
        apply list_elem_of_lookup. exists (level_index l).
        apply list_lookup_insert_eq. by eapply lookup_lt_Some.
    + intros h1 h2 s1 s2 H1 H2 E Hne.
      apply lookup_app_Some in H1 as [H1 | [Hge1 H1]];
        apply lookup_app_Some in H2 as [H2 | [Hge2 H2]].
      * by eapply Huniq.
      * apply list_lookup_singleton_Some in H2 as [_ <-].
        destruct (Hnone h1 s1); [by eapply Hin | done | congruence].
      * apply list_lookup_singleton_Some in H1 as [_ <-].
        destruct (Hnone h2 s2); [eapply Hin; [done|congruence] | done | congruence].
      * apply list_lookup_singleton_Some in H1 as [Hz1 _].
        apply list_lookup_singleton_Some in H2 as [Hz2 _]. lia.
Qed.

Lemma one_sink_setLogFile_all f p n sz st :
  table_ok st → one_sink_per_name st →
  one_sink_per_name (setLogFile_all put_time_Ymd f p n sz st).2.
Proof.
  intros [Hlen Hall] [Hin Huniq]. unfold setLogFile_all, bind. simpl.
  destruct (check_unassigned_cases _ st Hall)
    as [(h' & s' & _ & _ & _ & ->) | [Hempty ->]]; [done|].
  destruct (new_LogSink_outcome f p n sz st)
    as [(st' & s' & -> & Hh & Ht & Hfn & Hop) | [-> _]]; [|done].
  unfold one_sink_per_name. simpl. rewrite Ht, Hh.
  assert (∀ h s, heap st !! h = Some s → fileName s = "") as Hold.
  { intros h s Hs. destruct (decide (fileName s = "")) as [|Hne]; [done|].
    eapply Hempty; [by eapply Hin | done]. }
  split.
  - intros h0 s0 Hs0 Hne.
    apply lookup_app_Some in Hs0 as [Hs0 | [Hge Hs0]].
    + by destruct Hne; eapply Hold.
    + apply list_lookup_singleton_Some in Hs0 as [Hz _].
      assert (h0 = length (heap st)) as -> by lia.
      destruct (_sinks st) as [|a tl]; [done|]. simpl. left.
  - intros h1 h2 s1 s2 H1 H2 E Hne.
    apply lookup_app_Some in H1 as [H1 | [Hge1 H1]].
    { by destruct Hne; eapply Hold. }
    apply lookup_app_Some in H2 as [H2 | [Hge2 H2]].
    { destruct Hne. rewrite E. by eapply Hold. }
    apply list_lookup_singleton_Some in H1 as [Hz1 _].
    apply list_lookup_singleton_Some in H2 as [Hz2 _]. lia.
Qed.

Lemma one_sink_run_event e st :
  table_ok st → one_sink_per_name st →
  one_sink_per_name (run_event put_time_Ymd put_time_FT mktime_Ymd e st).2.
Proof.
  intros Hok Hone. destruct (assigns e) eqn:He.
  - destruct e; try discriminate He; simpl.
    + by apply one_sink_setLogFile.
    + by apply one_sink_setLogFile_all.
  - eapply one_sink_same; [| |done].
    + apply (sinks_run_event e He st).
    + apply (names_run_event e He st).
Qed.

(** X5. Whatever happens from program start on, a sink object with a
    file name is in the table, and no two sink objects have the same file
    name: levels that were given one name share one sink, with one
    stream, one buffer and one mutex.  The names are the strings the
    callers gave; nothing is said of two names that reach one file. *)
Theorem one_sink_per_name_reachable (es : list event) (w : World) :
  one_sink_per_name
    (run_events put_time_Ymd put_time_FT mktime_Ymd es (init w)).
Proof.
  assert (∀ st, table_ok st → one_sink_per_name st →
    one_sink_per_name (run_events put_time_Ymd put_time_FT mktime_Ymd es st))
    as H.
  { induction es as [|e es IH]; intros st Hok Hone; simpl; [done|].
    pose proof (table_ok_run_event e st Hok) as Hok'.
    pose proof (one_sink_run_event e st Hok Hone) as Hone'.
    destruct (run_event _ _ _ e st) as [[[]| | |] st']; simpl in *; auto. }
  apply H; [apply table_ok_init|].
  split.
  - intros [|[|h]] s Hs Hne; simpl in Hs; simplify_eq; done.
  - intros [|[|h1]] [|[|h2]] s1 s2 H1 H2 E Hne; simpl in *; simplify_eq; done.
Qed.

(** ** A level keeps its file *)

Lemma assigned_run_event e st level h s :
  table_ok st →
  _sinks st !! level_index level = Some h →
  heap st !! h = Some s → fileName s ≠ "" →
  _sinks (run_event put_time_Ymd put_time_FT mktime_Ymd e st).2
    !! level_index level = Some h.
Proof.
  intros [Hlen Hall] Hl Hs Hne. destruct (assigns e) eqn:He.
  - destruct e; try discriminate He; simpl.
    + unfold setLogFile, bind.
      destruct (_sinks st !! level_index level0) as [h0|] eqn:Hl0;
        [|by unfold sink_of; rewrite Hl0].
      rewrite (sink_of_Some _ _ _ Hl0).
      destruct (proj1 (Forall_lookup _ _) Hall _ _ Hl0) as [s0 Hs0].
      rewrite (get_sink_Some _ _ _ Hs0).
      case_bool_decide as Hf; [done|]. simpl.
      assert (level_index level0 ≠ level_index level) as Hidx.
      { intros E. rewrite E in Hl0. destruct Hf. congruence. }
      destruct (find_sink_cases fname _ st Hall)
        as [(h' & s' & Hin' & Hs' & _ & ->) | [Hnone ->]].
      * simpl. by rewrite list_lookup_insert_ne.
      * destruct (new_LogSink_outcome fname policy maxNumFiles_ maxSize_ st)
          as [(st' & s' & -> & Hh & Ht & _) | [-> _]]; [|done].
        simpl. rewrite Ht. by rewrite list_lookup_insert_ne.
    + unfold setLogFile_all, bind. simpl.
      destruct (check_unassigned_cases _ st Hall)
        as [(h' & s' & _ & _ & _ & ->) | [Hempty _]]; [done|].
      destruct Hne. eapply Hempty; [|done].
      apply list_elem_of_lookup. eauto.
  - by rewrite (sinks_run_event e He st).
Qed.

(** X6. A file assignment is permanent.  Once a level writes to a file,
    nothing that can happen afterwards gives the level another sink or the
    sink another file or other limits: the level keeps the same sink
    object, with the file name, size limit and file count it was
    constructed with, and every later [setLogFile], for that level or for
    all levels, throws and changes nothing. *)
Theorem file_assignment_is_permanent (st : Logger) (level : LogLevel)
    (h : nat) (s : LogSink) (es : list event) :
  table_ok st →
  _sinks st !! level_index level = Some h →
  heap st !! h = Some s →
  fileName s ≠ "" →
  let st' := run_events put_time_Ymd put_time_FT mktime_Ymd es st in
  _sinks st' !! level_index level = Some h
  ∧ (∃ s', heap st' !! h = Some s' ∧ fileName s' = fileName s
           ∧ maxSize s' = maxSize s ∧ maxNumFiles s' = maxNumFiles s)
  ∧ (∀ f p n sz, setLogFile put_time_Ymd level f p n sz st' = (conflict, st'))
  ∧ (∀ f p n sz, ∃ msg, setLogFile_all put_time_Ymd f p n sz st'
                        = (Raise (runtime_error msg), st')).
Proof.
  intros Hok Hl Hs Hne. simpl.
  assert (∀ st s, table_ok st → _sinks st !! level_index level = Some h →
            heap st !! h = Some s → fileName s ≠ "" →
            _sinks (run_events put_time_Ymd put_time_FT mktime_Ymd es st)
              !! level_index level = Some h) as Hgen.
  { clear. induction es as [|e es IH]; intros st s Hok Hl Hs Hne; simpl; [done|].
    pose proof (table_ok_run_event e st Hok) as Hok'.
    pose proof (assigned_run_event e st level h s Hok Hl Hs Hne) as Hl'.
    destruct (pres_run_event e st h s Hs) as (s' & Hs' & Hf & _).
    destruct (run_event _ _ _ e st) as [[[]| | |] st']; simpl in *;
      try done; eapply IH; eauto; congruence. }
  pose proof (Hgen st s Hok Hl Hs Hne) as Hl'.
  pose proof (table_ok_run_events es st Hok) as [Hlen Hall].
  destruct (keeps_run_events es st h s Hs) as (s' & Hs' & Hf & Hm & Hn).
  split; [done|]. split; [eauto|]. split.
  - intros f p n sz. unfold setLogFile, bind.
    rewrite (sink_of_Some _ _ _ Hl'), (get_sink_Some _ _ _ Hs').
    rewrite bool_decide_true; [done|congruence].
  - intros f p n sz. unfold setLogFile_all, bind. simpl.
    destruct (check_unassigned_cases _ _ Hall)
      as [(h' & s'' & _ & _ & _ & ->) | [Hempty _]]; [eauto|].
    destruct Hne. rewrite <- Hf. eapply Hempty; [|done].
    apply list_elem_of_lookup. eauto.
Qed.

(** ** A write that throws *)

Lemma holds_lock_refl h st : holds_lock h st st.
Proof. intros s Hs Hl. eauto. Qed.

Lemma holds_lock_trans h st1 st2 st3 :
  holds_lock h st1 st2 → holds_lock h st2 st3 → holds_lock h st1 st3.
Proof.
  intros H12 H23 s Hs Hl. destruct (H12 s Hs Hl) as (s2 & Hs2 & Hl2). eauto.
Qed.

Lemma holds_lock_same_heap h st st' : heap st' = heap st → holds_lock h st st'.
Proof. intros E s Hs Hl. rewrite E. eauto. Qed.

Lemma holds_lock_alter h h' f st :
  (∀ s, lsm (f s) = lsm s) → holds_lock h st (set_heap (alter f h') st).
Proof.
  intros Hf s Hs Hl. simpl. destruct (decide (h' = h)) as [->|Hne].
  - rewrite list_lookup_alter_eq, Hs. simpl. exists (f s). by rewrite Hf.
  - rewrite list_lookup_alter_ne by done. eauto.
Qed.

Lemma pres_bind_holds {A B} h (m : M A) (k : A → M B) :
  preserving (holds_lock h) m → (∀ a, preserving (holds_lock h) (k a)) →
  preserving (holds_lock h) (bind m k).
Proof. apply pres_bind, holds_lock_trans. Qed.

Ltac holds_leaf :=
  let st := fresh "st" in
  intros st;
  unfold file_size, rename, _openLogFile, header, modify_sink,
    get_sink, sink_of, now;
  unfold ret, gets, modify, throw, undefined, stuck;
  repeat case_match; simpl;
  first [ apply holds_lock_refl
        | apply holds_lock_same_heap; reflexivity
        | apply holds_lock_alter; intros []; reflexivity ].

Ltac holds_step :=
  unfold stream_endl, stream_close;
  unfold stream_put, stream_flush, exists_;
  match goal with
  | |- preserving (holds_lock _) (bind _ _) => apply pres_bind_holds; [|intros ?]
  | |- preserving _ (if ?b then _ else _) => destruct b
  | |- preserving _ (shift_archives _ _) => solve [auto]
  | |- preserving _ (match ?x with _ => _ end) => destruct x
  | |- preserving (holds_lock _) _ => solve [holds_leaf]
  end.

Lemma holds_shift_archives h path i :
  preserving (holds_lock h) (shift_archives path i).
Proof. induction i as [|i IH]; simpl; repeat holds_step. Qed.

Lemma holds_sizeRotation h h' :
  preserving (holds_lock h) (_sizeRotation put_time_Ymd h').
Proof.
  pose proof (holds_shift_archives h).
  unfold _sizeRotation. repeat holds_step.
Qed.

Lemma no_raise_bind {A B} (m : M A) (k : A → M B) :
  no_raise m → (∀ a, no_raise (k a)) → no_raise (bind m k).
Proof.
  intros Hm Hk st e. unfold bind. specialize (Hm st).
  destruct (m st) as [[a| | |] st']; simpl in *;
    [apply Hk|by destruct (Hm e0)|done..].
Qed.

Ltac no_raise_leaf :=
  let st := fresh "st" in let e := fresh "e" in
  intros st e;
  unfold header, modify_sink, get_sink, sink_of, now;
  unfold ret, gets, modify, undefined, stuck;
  repeat case_match; simpl; discriminate.

Ltac no_raise_step :=
  unfold stream_endl, lock, unlock;
  unfold stream_put, stream_flush;
  match goal with
  | |- no_raise (bind _ _) => apply no_raise_bind; [|intros ?]
  | |- no_raise (if ?b then _ else _) => destruct b
  | |- no_raise (match ?x with _ => _ end) => destruct x
  | |- no_raise _ => solve [no_raise_leaf]
  end.

Lemma no_raise_lock h : no_raise (lock h).
Proof. repeat no_raise_step. Qed.

Lemma no_raise_after_endl h x :
  no_raise (do_ stream_put h x; unlock h).
Proof. repeat no_raise_step. Qed.

(** The common part of the two write paths throws only with the mutex
    held. *)
Lemma write_head_raise level h st e st' :
  write_head put_time_Ymd put_time_FT level h st = (Raise e, st') →
  ∃ s', heap st' !! h = Some s' ∧ lsm s' = true.
Proof.
  unfold write_head. unfold bind at 1.
  destruct (lock h st) as [[[]| | |] st1] eqn:El; try discriminate.
  2:{ intros [= -> ->]. by destruct (no_raise_lock h st e); rewrite El. }
  assert (∃ s1, heap st1 !! h = Some s1 ∧ lsm s1 = true) as (s1 & Hs1 & Hl1).
  { unfold lock, bind, get_sink in El.
    destruct (heap st !! h) as [s|] eqn:Hs; [|done].
    destruct (lsm s); [done|]. injection El as <-. simpl.
    rewrite list_lookup_alter_eq, Hs. simpl. eauto. }
  unfold bind at 1. rewrite (get_sink_Some _ _ _ Hs1). unfold bind at 1.
  destruct ((if bool_decide (maxSize s1 ≠ 0) then _sizeRotation put_time_Ymd h
             else ret tt) st1) as [[[]| | |] st2] eqn:Er; try discriminate.
  - intros Hr. exfalso. revert Hr.
    assert (no_raise (do t <- now; do t' <- now; do hd <- header level;
                      do_ stream_endl h;
                      ret (stamp put_time_FT (to_time_t t) (millis_of t') hd)))
      as Hno by repeat no_raise_step.
    intros Hr. by destruct (Hno st2 e); rewrite Hr.
  - intros [= -> ->]. case_bool_decide.
    + pose proof (holds_sizeRotation h h st1 s1 Hs1 Hl1) as Hh.
      by rewrite Er in Hh.
    + discriminate Er.
Qed.

Lemma write_raise level trace st e st' :
  _write put_time_Ymd put_time_FT level trace st = (Raise e, st') →
  ∃ h s', _sinks st !! level_index level = Some h
    ∧ _sinks st' = _sinks st ∧ heap st' !! h = Some s' ∧ lsm s' = true.
Proof.
  intros Hw. pose proof (pres_write level trace st) as [_ Htb].
  rewrite Hw in Htb. simpl in Htb.
  rewrite write_as_head in Hw. unfold bind at 1 in Hw.
  destruct (sink_of level st) as [[h| | |] st0] eqn:Eh; try discriminate.
  2:{ unfold sink_of in Eh. by destruct (_ !! _). }
  apply sink_of_inv in Eh as [-> Hh]. unfold bind at 1 in Hw.
  destruct (write_head _ _ level h st) as [[x| | |] st1] eqn:E1;
    try discriminate.
  - by destruct (no_raise_after_endl h (x +:+ trace) st1 e); rewrite Hw.
  - injection Hw as -> ->.
    destruct (write_head_raise _ _ _ _ _ E1) as (s' & Hs' & Hl').
    exists h, s'. done.
Qed.

Lemma write_on_locked level trace st h s :
  _sinks st !! level_index level = Some h → heap st !! h = Some s →
  lsm s = true →
  _write put_time_Ymd put_time_FT level trace st = (Stuck, st)
  ∧ _getStream put_time_Ymd put_time_FT level st = (Stuck, st).
Proof.
  intros Hh Hs Hl.
  unfold _getStream, _writeOut, _write, lock, bind.
  by rewrite (sink_of_Some _ _ _ Hh), (get_sink_Some _ _ _ Hs), Hl.
Qed.

(** X7. A write that throws never releases the mutex of its sink:
    whatever the exception (the size check finds no file, an archive
    cannot be renamed, the file cannot be reopened), every later write
    and every later request for the stream, by any level that shares the
    sink, waits for the mutex forever. *)
Theorem write_that_throws_blocks_the_sink (level level' : LogLevel)
    (trace trace' : string) (st st' : Logger) (e : exn) :
  _write put_time_Ymd put_time_FT level trace st = (Raise e, st') →
  _sinks st !! level_index level' = _sinks st !! level_index level →
  _write put_time_Ymd put_time_FT level' trace' st' = (Stuck, st')
  ∧ _getStream put_time_Ymd put_time_FT level' st' = (Stuck, st').
Proof.
  intros Hw Hsame.
  destruct (write_raise _ _ _ _ _ Hw) as (h & s' & Hh & Ht & Hs' & Hl').
  apply (write_on_locked level' trace' st' h s'); [|done..].
  by rewrite Ht, Hsame.
Qed.

(** ** Writes one after the other *)

Lemma write_tail_live level h trace st s hd :
  heap st !! h = Some s → stream_live st s →
  _HEADERS !! level_index level = Some hd →
  ∃ st' s', write_tail put_time_FT level h trace st = (Ret tt, st')
    ∧ heap st' !! h = Some s' ∧ stream_live st' s'
    ∧ clock (world st') = clock (world st)
    ∧ denied (fs (world st')) = denied (fs (world st)).
Proof.
  intros Hs Hlive Hhd. unfold write_tail, stream_live in *.
  unfold header. rewrite Hhd.
  destruct_state st. destruct_sink s.
  destruct o as [| |i buf|]; [..|done]; mrun.
  - do 2 eexists. split; [reflexivity|]. simpl.
    rewrite list_lookup_alter_eq, Hs. done.
  - do 2 eexists. split; [reflexivity|]. simpl.
    rewrite list_lookup_alter_eq, Hs. done.
  - do 2 eexists. split; [reflexivity|]. simpl.
    rewrite !list_lookup_alter_eq, Hs. simpl. split; [reflexivity|]. simpl.
    rewrite fs_append_denied. split; [|done]. destruct Hlive as [f Hf].
    apply lookup_lt_is_Some. rewrite fs_append_length.
    by eapply lookup_lt_Some.
Qed.

(** A write that does not rotate, with what the next write needs. *)
Lemma write_plain level trace st h s hd :
  _sinks st !! level_index level = Some h → heap st !! h = Some s →
  lsm s = false → stream_live st s →
  _HEADERS !! level_index level = Some hd →
  (maxSize s = 0
   ∨ ∃ n, fs_file_size (fs (world st)) (fileName s) = Some n ∧ n ≤ maxSize s) →
  ∃ st' s', _write put_time_Ymd put_time_FT level trace st = (Ret tt, st')
    ∧ sent st' h = sent st h +:+ line put_time_FT (clock (world st)) hd trace
    ∧ heap st' !! h = Some s' ∧ lsm s' = false ∧ stream_live st' s'
    ∧ fileName s' = fileName s ∧ maxSize s' = maxSize s
    ∧ names (fs (world st')) = names (fs (world st))
    ∧ denied (fs (world st')) = denied (fs (world st))
    ∧ clock (world st') = clock (world st)
    ∧ _sinks st' = _sinks st.
Proof.
  intros Ht Hs Hl Hlive Hhd Hlim.
  pose proof (pres_write level trace st) as [Hk _].
  rewrite write_unfold in *. unfold bind at 1. unfold bind at 1 in Hk.
  rewrite (sink_of_Some _ _ _ Ht) in *. unfold bind at 1.
  unfold bind at 1 in Hk.
  rewrite (lock_run _ _ _ Hs Hl) in *. unfold bind at 1. unfold bind at 1 in Hk.
  set (st1 := set_heap _ st) in *.
  assert (Hs1 : heap st1 !! h = Some (set_lsm true s)).
  { apply (list_lookup_insert_same _ _ _ _ Hs). }
  rewrite (get_sink_Some _ _ _ Hs1) in *.
  assert (Hrot : (if bool_decide (maxSize (set_lsm true s) ≠ 0)
                  then _sizeRotation put_time_Ymd h else ret tt) st1
                 = (Ret tt, st1)).
  { case_bool_decide as Hm; [|done]. destruct Hlim as [?|(n & Hsz & Hle)]; [done|].
    unfold _sizeRotation, bind.
    rewrite (get_sink_Some _ _ _ Hs1). unfold file_size. simpl. rewrite Hsz.
    by rewrite Z.gtb_ltb, (proj2 (Z.ltb_ge _ _)). }
  unfold bind at 1. unfold bind at 1 in Hk. rewrite Hrot in *.
  destruct (write_tail_sent level h trace st1 _ hd Hs1) as
    (st' & s' & Hr & Hsent & Hs' & Hl' & Hnm & Htb); [|done|].
  { unfold stream_live in *. simpl. done. }
  destruct (write_tail_live level h trace st1 _ hd Hs1) as
    (st'' & s'' & Hr' & Hs'' & Hlive' & Hck & Hdn); [|done|].
  { unfold stream_live in *. simpl. done. }
  rewrite Hr in Hr'. injection Hr' as <-.
  assert (s'' = s') as -> by congruence.
  rewrite Hr in *. simpl in Hk.
  destruct (Hk h s Hs) as (s2 & Hs2 & Hf2 & Hm2 & _).
  assert (s2 = s') as -> by congruence.
  exists st', s'. split; [done|]. split.
  { rewrite Hsent. f_equal. unfold sent. rewrite Hs1, Hs. done. }
  done.
Qed.

(** The size of the file of a live sink is at most the length of what the
    sink's stream has taken. *)
Lemma file_size_le_sent st h s i buf n :
  heap st !! h = Some s → stream s = OFStream i buf →
  names (fs (world st)) !! fileName s = Some i →
  fs_file_size (fs (world st)) (fileName s) = Some n →
  n ≤ Z.of_nat (String.length (sent st h)).
Proof.
  intros Hs Hstr Hnm. unfold sent, fs_file_size, fs_lookup.
  rewrite Hs, Hstr, Hnm. simpl.
  destruct (inodes (fs (world st)) !! i) as [f|]; simpl; intros [= <-];
    rewrite ?string_length_app; simpl; lia.
Qed.

Lemma split_at_app k s : (split_at k s).1 +:+ (split_at k s).2 = s.
Proof.
  revert s. induction k as [|k IH]; intros [|c s]; simpl; try done.
  specialize (IH s). destruct (split_at k s) as [a b]. simpl in *.
  change (String c (a +:+ b) = String c s). by rewrite IH.
Qed.

(** Draining the buffer of a live file stream moves text from the buffer
    to the file and changes nothing else. *)
Lemma drain_live h k st s i buf :
  heap st !! h = Some s → stream s = OFStream i buf →
  is_Some (inodes (fs (world st)) !! i) →
  ∃ b, heap (drain h k st) !! h = Some (set_stream (OFStream i b) s)
    ∧ is_Some (inodes (fs (world (drain h k st))) !! i)
    ∧ sent (drain h k st) h = sent st h
    ∧ names (fs (world (drain h k st))) = names (fs (world st))
    ∧ clock (world (drain h k st)) = clock (world st)
    ∧ _sinks (drain h k st) = _sinks st.
Proof.
  intros Hs Hstr [f Hf]. unfold drain, sent. rewrite Hs, Hstr.
  pose proof (split_at_app k buf) as Hab.
  destruct (split_at k buf) as [a b]. simpl in *. exists b.
  rewrite list_lookup_alter_eq, Hs. simpl.
  rewrite fs_append_names. rewrite Hf. simpl.
  split; [done|].
  unfold fs_append. case_decide as Ha.
  - subst a. rewrite <- Hab, Hf. eauto.
  - simpl. rewrite list_lookup_alter_eq, Hf. simpl.
    split; [eauto|]. by rewrite string_app_assoc, Hab.
Qed.

(** X8. The write that follows a rotation does not rotate again, when
    the line that caused the rotation is itself within the size limit.
    After the rotation the stream of the fresh file has taken that line
    and nothing else, and the file is no larger than what its stream has
    taken.  So whatever part of the line the stream has written to the
    file by itself in the meantime, the next write to the sink, by any
    level that shares it, finds the file within the limit: it renames
    nothing, and the stream of the fresh file has taken exactly the two
    lines, in the order of the calls. *)
Theorem write_after_rotation_does_not_rotate (level level' : LogLevel)
    (trace trace' : string) (st : Logger) (h : nat) (s : LogSink)
    (hd hd' : string) (i i0 : nat) (buf : string) (n : Z) :
  _sinks st !! level_index level = Some h →
  _sinks st !! level_index level' = Some h →
  heap st !! h = Some s →
  lsm s = false →
  Z.of_nat (String.length (line put_time_FT (clock (world st)) hd trace))
  ≤ maxSize s →
  _HEADERS !! level_index level = Some hd →
  _HEADERS !! level_index level' = Some hd' →
  stream s = OFStream i buf →
  names (fs (world st)) !! fileName s = Some i0 →
  fs_file_size (fs (world st)) (fileName s) = Some n →
  maxSize s < n →
  openable (fs (world st)) (fileName s) →
  ∃ st1,
    _write put_time_Ymd put_time_FT level trace st = (Ret tt, st1)
    ∧ ∀ k, ∃ st2,
        _write put_time_Ymd put_time_FT level' trace' (drain h k st1)
        = (Ret tt, st2)
        ∧ names (fs (world st2)) = names (fs (world st1))
        ∧ sent st2 h = line put_time_FT (clock (world st)) hd trace
                       +:+ line put_time_FT (clock (world st)) hd' trace'.
Proof.
  intros Ht Ht' Hs Hl Hfit Hhd Hhd' Hstr Hnm Hsz Hlt Hop.
  assert (Hpos : 0 < maxSize s).
  { unfold line in Hfit. rewrite string_length_app in Hfit. simpl in Hfit.
    lia. }
  pose proof (write_rotating_run level trace st h s hd i i0 buf n
                Ht Hs Hl ltac:(lia) Hhd Hstr Hnm Hsz Hlt Hop) as Hrun.
  simpl in Hrun.
  set (ino := inodes (fs_append (fs (world st)) (clock (world st)) i buf)) in *.
  match type of Hrun with _ = (_, ?x) => set (st1 := x) in * end.
  set (s1 := mkLogSink false
               (OFStream (length ino)
                  (stamp put_time_FT (to_time_t (clock (world st)))
                     (millis_of (clock (world st))) hd +:+ trace))
               (fileName s) (put_time_Ymd (to_time_t (clock (world st))))
               (maxSize s) (maxNumFiles s) (rotateDaily s)).
  assert (Hs1 : heap st1 !! h = Some s1).
  { apply (list_lookup_insert_same _ _ _ _ Hs). }
  assert (Hi1 : inodes (fs (world st1)) !! length ino
                = Some (File nl (clock (world st)))).
  { simpl. by apply list_lookup_middle. }
  assert (Hsent1 : sent st1 h = line put_time_FT (clock (world st)) hd trace).
  { unfold sent. rewrite Hs1. simpl. rewrite lookup_app_r by done.
    rewrite Nat.sub_diag. simpl. by rewrite <- stamp_line, ?string_app_assoc. }
  exists st1. split; [done|]. intros k.
  destruct (drain_live h k st1 s1 _ _ Hs1 eq_refl ltac:(by rewrite Hi1))
    as (b & Hsk & Hik & Hsentk & Hnmk & Hckk & Htbk).
  set (stk := drain h k st1) in *. set (sk := set_stream _ s1) in *.
  assert (Hnk : names (fs (world stk)) !! fileName sk = Some (length ino)).
  { rewrite Hnmk. simpl. by rewrite lookup_insert_eq. }
  destruct (fs_file_size (fs (world stk)) (fileName sk)) as [nk|] eqn:Hszk.
  2:{ unfold fs_file_size, fs_lookup in Hszk. by rewrite Hnk in Hszk. }
  pose proof (file_size_le_sent stk h sk _ _ nk Hsk eq_refl Hnk Hszk) as Hle.
  rewrite Hsentk, Hsent1 in Hle.
  destruct (write_plain level' trace' stk h sk hd') as
    (st2 & s2 & Hw2 & Hsent2 & _ & _ & _ & _ & _ & Hnm2 & _);
    [by rewrite Htbk|done|done|done|done| |].
  { right. exists nk. split; [done|]. simpl. lia. }
  exists st2. split; [done|]. split; [by rewrite Hnm2|].
  by rewrite Hsent2, Hsentk, Hsent1, Hckk.
Qed.

(** X9. Lines come out in the order of the calls and none is lost.  On
    a sink without size limit whose mutex is free, any number of writes,
    by any of the logging levels that share the sink, all return, and the
    sink's stream has taken exactly their lines, one after the other; the
    mutex is free again at the end. *)
Theorem writes_append_in_order (msgs : list (LogLevel * string)) (st : Logger)
    (h : nat) (s : LogSink) :
  Forall (λ m, _sinks st !! level_index m.1 = Some h
               ∧ is_Some (_HEADERS !! level_index m.1)) msgs →
  heap st !! h = Some s →
  lsm s = false →
  maxSize s = 0 →
  stream_live st s →
  ∃ st' s',
    write_all put_time_Ymd put_time_FT msgs st = (Ret tt, st')
    ∧ sent st' h = sent st h +:+ lines put_time_FT (clock (world st)) msgs
    ∧ heap st' !! h = Some s' ∧ lsm s' = false.
Proof.
  revert st s. induction msgs as [|[l tr] msgs IH];
    intros st s Hall Hs Hl Hm Hlive; simpl.
  - exists st, s. by rewrite string_app_nil_r.
  - apply Forall_cons in Hall as [[Ht [hd Hhd]] Hall]. simpl in *.
    destruct (write_plain l tr st h s hd Ht Hs Hl Hlive Hhd) as
      (st1 & s1 & Hw & Hsent & Hs1 & Hl1 & Hlive1 & _ & Hm1 & _ & _ & Hck & Htb);
      [by left|].
    destruct (IH st1 s1) as (st2 & s2 & Hw2 & Hsent2 & Hs2 & Hl2);
      [|done|done|congruence|done|].
    { eapply Forall_impl; [exact Hall|]. intros m [? ?]. by rewrite Htb. }
    exists st2, s2. unfold bind. rewrite Hw. split; [done|].
    split; [|done].
    by rewrite Hsent2, Hsent, Hck, Hhd, string_app_assoc.
Qed.

(** ** Turns of the rotation thread *)

Ltac bstep H :=
  unfold bind at 1 in H;
  match type of H with
  | (match ?x with _ => _ end) = _ =>
      destruct x as [[?| | |] ?] eqn:?; try discriminate H
  end.

Ltac bstep_as H a st E :=
  unfold bind at 1 in H;
  match type of H with
  | (match ?x with _ => _ end) = _ =>
      destruct x as [[a| | |] st] eqn:E; try discriminate H
  end.

Lemma clock_dailyRotationThread h :
  preserving (same (λ st, clock (world st)))
    (_dailyRotationThread put_time_Ymd mktime_Ymd h).
Proof. unfold _dailyRotationThread. same_all. Qed.

(** What [std::mktime] returns decides the sleep of a turn and nothing
    else. *)
Lemma daily_turn_any_mktime (mk mk' : string → Z) h st z st' :
  _dailyRotationThread put_time_Ymd mk h st = (Ret z, st') →
  ∃ z', _dailyRotationThread put_time_Ymd mk' h st = (Ret z', st').
Proof.
  assert (∀ A (m : M A) (k k' : A → M Z),
    (∀ a st z st', k a st = (Ret z, st') → ∃ z', k' a st = (Ret z', st')) →
    ∀ st z st', bind m k st = (Ret z, st') → ∃ z', bind m k' st = (Ret z', st'))
    as Hbind.
  { intros A m k k' Hk st0 z0 st0'. unfold bind.
    destruct (m st0) as [[a| | |] st1]; try done. apply Hk. }
  unfold _dailyRotationThread. revert st z st'.
  apply Hbind. intros timestampNow. cbv zeta.
  apply Hbind. intros s.
  apply Hbind. intros rotate.
  apply Hbind. intros _.
  apply Hbind. intros s'.
  apply Hbind. intros t st z st'. unfold ret. intros [= <- <-]. eauto.
Qed.

(** X10. A turn of the rotation thread settles the matter for the
    moment: when a turn returns, a second turn at the same time returns
    as well, finds nothing to rotate and leaves the state as it is,
    whatever [std::mktime] returns in that second turn.  Of the sleep of
    the second turn nothing is said. *)
Theorem daily_turn_is_idempotent (h : nat) (st st' : Logger) (z : Z) :
  _dailyRotationThread put_time_Ymd mktime_Ymd h st = (Ret z, st') →
  ∀ mk' : string → Z,
    ∃ z', _dailyRotationThread put_time_Ymd mk' h st' = (Ret z', st').
Proof.
  intros H mk'. apply (daily_turn_any_mktime mktime_Ymd mk' h st' z).
  pose proof (clock_dailyRotationThread h st) as Hck. rewrite H in Hck.
  unfold same in Hck. simpl in Hck.
  destruct (heap st !! h) as [s|] eqn:Hs.
  2:{ exfalso. unfold _dailyRotationThread, bind, now, gets, get_sink in H.
      rewrite Hs in H. discriminate H. }
  set (today := put_time_Ymd (to_time_t (clock (world st)))) in *.
  destruct (decide (creationDate s = today)) as [Hd|Hd].
  { rewrite (daily_idle_run st h s Hs) in H by (by left).
    injection H as <- <-. by rewrite (daily_idle_run st h s Hs) by (by left). }
  destruct (fs_file_size (fs (world st)) (fileName s)) as [n|] eqn:Hsz.
  2:{ exfalso. unfold _dailyRotationThread, bind, now, gets, get_sink in H.
      rewrite Hs in H. fold today in H. rewrite bool_decide_true in H by done.
      unfold file_size in H. rewrite Hsz in H. discriminate H. }
  destruct (decide (n = 0)) as [->|Hn].
  { rewrite (daily_idle_run st h s Hs) in H by (by right).
    injection H as <- <-. by rewrite (daily_idle_run st h s Hs) by (by right). }
  unfold _dailyRotationThread in H.
  unfold bind at 1 in H. unfold now at 1, gets in H.
  unfold bind at 1 in H. rewrite (get_sink_Some _ _ _ Hs) in H.
  unfold bind at 1 in H. fold today in H.
  rewrite bool_decide_true in H by done.
  unfold bind at 1 in H. unfold file_size at 1 in H. rewrite Hsz in H.
  unfold ret at 1 in H. rewrite bool_decide_true in H by done.
  bstep_as H u st1 EB.
  bstep_as H s1 st1' Eg.
  assert (st1' = st1 ∧ heap st1 !! h = Some s1) as [-> Hs1].
  { unfold get_sink in Eg. destruct (heap st1 !! h); by simplify_eq. }
  unfold bind, now, gets, ret in H. injection H as <- <-.
  assert (creationDate s1 = today) as Hd1.
  { clear Eg. do 6 bstep EB.
    unfold bind, unlock, modify_sink, modify in EB. simpl in EB.
    injection EB as _ <-.
    simpl in Hs1. rewrite !list_lookup_alter_eq in Hs1.
    match type of Hs1 with
    | context [heap ?x !! h] => destruct (heap x !! h)
    end; simpl in Hs1; simplify_eq. done. }
  rewrite (daily_idle_run st1 h s1 Hs1); [done|left].
  by rewrite Hck.
Qed.

(** ** A new sink *)

(** [setLogFile(level, ..)] for a file that no level writes to, in full. *)
Lemma setLogFile_new_run level fname policy n sz st h0 s0 i f' :
  table_ok st →
  _sinks st !! level_index level = Some h0 → heap st !! h0 = Some s0 →
  fileName s0 = "" →
  (∀ h s, h ∈ _sinks st → heap st !! h = Some s → fileName s ≠ fname) →
  fs_open_append (fs (world st)) (clock (world st)) fname = Some (i, f') →
  setLogFile put_time_Ymd level fname policy n sz st
  = (Ret tt,
     mkLogger
       (heap st ++ [mkLogSink false (OFStream i "") fname
                      (creation_stamp put_time_Ymd policy (world st) fname)
                      (umax sz) (clamp policy n sz) false])
       (<[level_index level := length (heap st)]> (_sinks st))
       (_timers st) (gates st) (_nullStream st)
       (rotThreads st
        ++ (if Policy.eqb policy Policy.DAILY then [length (heap st)] else []))
       (mkWorld (cout (world st)) (cerr (world st)) f' (clock (world st)))).
Proof.
  intros [Hlen Hall] Hl Hs Hf Hnew Ho. unfold setLogFile, bind.
  rewrite (sink_of_Some _ _ _ Hl), (get_sink_Some _ _ _ Hs).
  rewrite bool_decide_false by (by intros ?). simpl.
  destruct (find_sink_cases fname _ st Hall)
    as [(h' & s' & Hin & Hs' & Hf' & _) | [_ ->]].
  { by destruct (Hnew h' s' Hin Hs'). }
  unfold new_LogSink, bind, gets. simpl.
  rewrite (LogSink_file_run _ _ _ _ _ _ _ _ Ho). done.
Qed.

Lemma open_existing f t fname i :
  openable f fname → names f !! fname = Some i →
  fs_open_append f t fname = Some (i, f).
Proof.
  intros [Hne Hden] Hi. unfold fs_open_append.
  rewrite decide_False by (intros [?|?]; done). by rewrite Hi.
Qed.

Lemma open_missing f t fname :
  openable f fname → names f !! fname = None →
  fs_open_append f t fname
  = Some (length (inodes f),
          FileSystem (<[fname := length (inodes f)]> (names f))
            (inodes f ++ [File "" t]) (denied f)).
Proof.
  intros [Hne Hden] Hi. unfold fs_open_append.
  rewrite decide_False by (intros [?|?]; done). by rewrite Hi.
Qed.

(** X11. A log file is opened for appending.  When a level is given a
    file that exists already and that no level writes to, the assignment
    returns and leaves the file system as it is; the stream of the new
    sink stands at the end of what the file holds, and, the file being
    within the size limit if there is one, the first line written through
    the level goes after it. *)
Theorem new_sink_appends_to_existing_file (level : LogLevel) (fname : string)
    (policy : Policy.t) (n sz : Z) (st : Logger) (h0 : nat) (s0 : LogSink)
    (i : nat) (f : file) (hd trace : string) :
  table_ok st →
  _sinks st !! level_index level = Some h0 →
  heap st !! h0 = Some s0 →
  fileName s0 = "" →
  (∀ h s, h ∈ _sinks st → heap st !! h = Some s → fileName s ≠ fname) →
  openable (fs (world st)) fname →
  names (fs (world st)) !! fname = Some i →
  inodes (fs (world st)) !! i = Some f →
  _HEADERS !! level_index level = Some hd →
  umax sz = 0 ∨ Z.of_nat (String.length (data f)) ≤ umax sz →
  let h := length (heap st) in
  ∃ st1 st2,
    setLogFile put_time_Ymd level fname policy n sz st = (Ret tt, st1)
    ∧ fs (world st1) = fs (world st)
    ∧ sent st1 h = data f
    ∧ _write put_time_Ymd put_time_FT level trace st1 = (Ret tt, st2)
    ∧ sent st2 h = data f +:+ line put_time_FT (clock (world st)) hd trace.
Proof.
  intros Hok Hl Hs Hf Hnew Hop Hi Hino Hhd Hlim h.
  pose proof (open_existing _ (clock (world st)) _ _ Hop Hi) as Ho.
  pose proof (setLogFile_new_run level fname policy n sz st h0 s0 i _
                Hok Hl Hs Hf Hnew Ho) as Hrun.
  match type of Hrun with _ = (_, ?x) => set (st1 := x) in * end.
  match eval cbv delta [st1] in st1 with
  | mkLogger (_ ++ [?x]) _ _ _ _ _ _ => set (s1 := x) in *
  end.
  assert (Hs1 : heap st1 !! h = Some s1) by (by apply list_lookup_middle).
  assert (Hsent1 : sent st1 h = data f).
  { unfold sent. rewrite Hs1. simpl. rewrite Hino. simpl.
    apply string_app_nil_r. }
  destruct (write_plain level trace st1 h s1 hd) as
    (st2 & s2 & Hw2 & Hsent2 & _); [| done | done | | done | |].
  - simpl. apply list_lookup_insert_eq. by eapply lookup_lt_Some.
  - unfold stream_live. simpl. by rewrite Hino.
  - simpl. destruct Hlim as [?|Hle]; [by left|right].
    exists (Z.of_nat (String.length (data f))). split; [|done].
    unfold fs_file_size, fs_lookup. simpl. rewrite Hi. simpl. by rewrite Hino.
  - exists st1, st2. split; [done|]. split; [by destruct st as [? ? ? ? ? ? []]|].
    split; [done|]. split; [done|]. by rewrite Hsent2, Hsent1.
Qed.

(** X12. A daily sink is dated by its file.  A sink constructed with the
    daily policy on a file that exists takes the day of the file's last
    write as its creation date, so that when the file is not empty and was
    last written on another day, the first turn of the sink's rotation
    thread moves it to [path.<that day>] and starts an empty file.  On a
    file that does not exist yet the creation date is the current day and
    the first turn does nothing. *)
Theorem daily_sink_is_dated_by_its_file (level : LogLevel) (fname : string)
    (n sz : Z) (st : Logger) (h0 : nat) (s0 : LogSink) :
  table_ok st →
  _sinks st !! level_index level = Some h0 →
  heap st !! h0 = Some s0 →
  fileName s0 = "" →
  (∀ h s, h ∈ _sinks st → heap st !! h = Some s → fileName s ≠ fname) →
  openable (fs (world st)) fname →
  let h := length (heap st) in
  let today := put_time_Ymd (to_time_t (clock (world st))) in
  (∀ i f, names (fs (world st)) !! fname = Some i →
     inodes (fs (world st)) !! i = Some f →
     let date := put_time_Ymd (to_time_t (mtime f)) in
     ∃ st1 s1,
       setLogFile put_time_Ymd level fname Policy.DAILY n sz st = (Ret tt, st1)
       ∧ heap st1 !! h = Some s1 ∧ creationDate s1 = date
       ∧ rotThreads st1 = rotThreads st ++ [h]
       ∧ (date ≠ today → data f ≠ "" →
          ∃ z st2 s2,
            _dailyRotationThread put_time_Ymd mktime_Ymd h st1 = (Ret z, st2)
            ∧ names (fs (world st2)) !! (fname +:+ "." +:+ date) = Some i
            ∧ fs_file_size (fs (world st2)) fname = Some 0
            ∧ heap st2 !! h = Some s2 ∧ creationDate s2 = today))
  ∧ (names (fs (world st)) !! fname = None →
     ∃ st1 s1 z,
       setLogFile put_time_Ymd level fname Policy.DAILY n sz st = (Ret tt, st1)
       ∧ heap st1 !! h = Some s1 ∧ creationDate s1 = today
       ∧ rotThreads st1 = rotThreads st ++ [h]
       ∧ _dailyRotationThread put_time_Ymd mktime_Ymd h st1 = (Ret z, st1)).
Proof.
  intros Hok Hl Hs Hf Hnew Hop h today. split.
  - intros i f Hi Hino date.
    pose proof (open_existing _ (clock (world st)) _ _ Hop Hi) as Ho.
    pose proof (setLogFile_new_run level fname Policy.DAILY n sz st h0 s0 i _
                  Hok Hl Hs Hf Hnew Ho) as Hrun.
    match type of Hrun with _ = (_, ?x) => set (st1 := x) in * end.
    match eval cbv delta [st1] in st1 with
    | mkLogger (_ ++ [?x]) _ _ _ _ _ _ => set (s1 := x) in *
    end.
    assert (Hs1 : heap st1 !! h = Some s1) by (by apply list_lookup_middle).
    assert (Hdate : creationDate s1 = date).
    { simpl. unfold creation_stamp, fs_last_write_time, fs_lookup. simpl.
      rewrite Hi. simpl. rewrite Hino. simpl. subst date. do 2 f_equal. lia. }
    exists st1, s1. split; [done|]. split; [done|]. split; [done|].
    split; [done|]. intros Hd Hdata.
    assert (Hsz : fs_file_size (fs (world st1)) (fileName s1)
                  = Some (Z.of_nat (String.length (data f)))).
    { unfold fs_file_size, fs_lookup. simpl. rewrite Hi. simpl.
      by rewrite Hino. }
    pose proof (daily_rotating_run st1 h s1 i i "" _ Hs1 eq_refl eq_refl Hi Hsz)
      as Hturn.
    rewrite Hdate in Hturn. specialize (Hturn Hd).
    simpl in Hturn. rewrite fs_append_nil in Hturn.
    do 3 eexists. split.
    { apply Hturn; [|done]. destruct (data f); [done|]. simpl. lia. }
    simpl. split; [|split; [|split]].
    + rewrite lookup_insert_ne by (symmetry; apply string_app_dot_ne).
      by rewrite lookup_insert_eq.
    + unfold fs_file_size, fs_lookup. simpl. rewrite lookup_insert_eq. simpl.
      rewrite lookup_app_r by done. by rewrite Nat.sub_diag.
    + apply list_lookup_insert_eq. by eapply lookup_lt_Some.
    + done.
  - intros Hi.
    pose proof (open_missing _ (clock (world st)) _ Hop Hi) as Ho.
    pose proof (setLogFile_new_run level fname Policy.DAILY n sz st h0 s0 _ _
                  Hok Hl Hs Hf Hnew Ho) as Hrun.
    match type of Hrun with _ = (_, ?x) => set (st1 := x) in * end.
    match eval cbv delta [st1] in st1 with
    | mkLogger (_ ++ [?x]) _ _ _ _ _ _ => set (s1 := x) in *
    end.
    assert (Hs1 : heap st1 !! h = Some s1) by (by apply list_lookup_middle).
    assert (Hdate : creationDate s1 = today).
    { simpl. unfold creation_stamp, fs_last_write_time, fs_lookup. simpl.
      by rewrite Hi. }
    exists st1, s1. eexists. split; [done|]. split; [done|]. split; [done|].
    split; [done|]. apply (daily_idle_run st1 h s1 Hs1). by left.
Qed.

(** ** Timers *)

Lemma no_stuck_bind {A B} (m : M A) (k : A → M B) :
  no_stuck m → (∀ a, no_stuck (k a)) → no_stuck (bind m k).
Proof.
  intros Hm Hk st. unfold bind. specialize (Hm st).
  destruct (m st) as [[a| | |] st']; simpl in *; [apply Hk|done..].
Qed.

Ltac no_stuck_leaf :=
  let st := fresh "st" in
  intros st;
  unfold file_size, rename, _openLogFile, header, modify_sink, get_sink,
    sink_of, now;
  unfold ret, gets, modify, undefined, throw;
  repeat case_match; simpl; discriminate.

Ltac no_stuck_step :=
  unfold stream_endl, stream_close, unlock;
  unfold stream_put, stream_flush, exists_;
  match goal with
  | |- no_stuck (bind _ _) => apply no_stuck_bind; [|intros ?]
  | |- no_stuck (if ?b then _ else _) => destruct b
  | |- no_stuck (shift_archives _ _) => solve [auto]
  | |- no_stuck (match ?x with _ => _ end) => destruct x
  | |- no_stuck _ => solve [no_stuck_leaf]
  end.

Lemma no_stuck_shift_archives path i : no_stuck (shift_archives path i).
Proof. induction i as [|i IH]; simpl; repeat no_stuck_step. Qed.

Lemma names_startTimer function line :
  preserving (same (λ st, names (fs (world st)))) (startTimer function line).
Proof. unfold startTimer. same_all. Qed.

Lemma names_stopTimer unit_ns unit_ function line :
  preserving (same (λ st, names (fs (world st))))
    (stopTimer unit_ns unit_ function line).
Proof.
  unfold stopTimer. same_all.
  intros st. unfold same, modify. simpl. apply fs_append_names.
Qed.

(** X13. The timer calls take no mutex and check no size.  Whatever the
    state of the profiling sink (its mutex held by a writer, its file above
    the limit or removed), [startTimer] and [stopTimer] never wait and
    never throw, and they create, rename and remove no file: every name
    of the file system stands for the file it stood for before the
    call.  Of how much of the line they send has reached the file nothing
    is said. *)
Theorem timers_take_no_mutex (unit_ns : Z) (unit_ function : string)
    (line : Z) (st : Logger) :
  let r1 := startTimer function line st in
  let r2 := stopTimer unit_ns unit_ function line st in
  r1.1 ≠ Stuck ∧ (∀ e, r1.1 ≠ Raise e)
  ∧ names (fs (world r1.2)) = names (fs (world st))
  ∧ r2.1 ≠ Stuck ∧ (∀ e, r2.1 ≠ Raise e)
  ∧ names (fs (world r2.2)) = names (fs (world st)).
Proof.
  simpl. split; [|split; [|split; [|split; [|split]]]].
  - revert st. change (no_stuck (startTimer function line)).
    unfold startTimer. repeat no_stuck_step.
  - intros e. revert st e. change (no_raise (startTimer function line)).
    unfold startTimer. repeat no_raise_step.
  - apply (names_startTimer function line st).
  - revert st. change (no_stuck (stopTimer unit_ns unit_ function line)).
    unfold stopTimer. repeat no_stuck_step.
  - intros e. revert st e.
    change (no_raise (stopTimer unit_ns unit_ function line)).
    unfold stopTimer. repeat no_raise_step.
  - apply (names_stopTimer unit_ns unit_ function line st).
Qed.

(** ** The text of a line *)

Lemma setw3_below_1000 :
  forallb (λ n, bool_decide (String.length (setw3 n) = 3%nat)) (seqZ 0 1000)
  = true.
Proof. vm_compute. reflexivity. Qed.

Lemma setw3_NoDup : bool_decide (NoDup (setw3 <$> seqZ 0 1000)) = true.
Proof. vm_compute. reflexivity. Qed.

Lemma millis_of_range t : 0 ≤ t → 0 ≤ millis_of t < 1000.
Proof.
  intros Ht. unfold millis_of. apply Z.rem_bound_pos; [|lia].
  apply Z.quot_pos; lia.
Qed.

(** X14. From the epoch on, the millisecond field of a line has exactly
    three characters, and two times give the same field only when their
    milliseconds agree. *)
Theorem millisecond_field_is_three_digits (t t' : Z) :
  0 ≤ t → 0 ≤ t' →
  String.length (setw3 (millis_of t)) = 3%nat
  ∧ (setw3 (millis_of t) = setw3 (millis_of t') → millis_of t = millis_of t').
Proof.
  intros Ht Ht'.
  pose proof (millis_of_range t Ht) as Hr.
  pose proof (millis_of_range t' Ht') as Hr'.
  split.
  - pose proof setw3_below_1000 as H.
    rewrite forallb_forall in H.
    specialize (H (millis_of t)).
    eapply bool_decide_eq_true_1, H, list_elem_of_In, elem_of_seqZ. lia.
  - intros E.
    pose proof setw3_NoDup as Hnd. apply bool_decide_eq_true_1 in Hnd.
    assert (∀ n, 0 ≤ n < 1000 →
              (setw3 <$> seqZ 0 1000) !! Z.to_nat n = Some (setw3 n)) as Hlk.
    { intros n Hn. rewrite list_lookup_fmap.
      rewrite (lookup_seqZ_lt 0 1000 (Z.to_nat n)) by lia. simpl.
      f_equal. f_equal. lia. }
    pose proof (Hlk _ Hr) as H1. pose proof (Hlk _ Hr') as H2.
    rewrite <- E in H2.
    pose proof (NoDup_lookup _ _ _ _ Hnd H1 H2). lia.
Qed.

(** ** The limits of a sink *)

Lemma new_LogSink_fields fname policy n sz st :
  (∃ st' s, new_LogSink put_time_Ymd fname policy n sz st
            = (Ret (length (heap st)), st')
     ∧ heap st' = heap st ++ [s] ∧ _sinks st' = _sinks st
     ∧ fileName s = fname ∧ maxSize s = umax sz
     ∧ maxNumFiles s = clamp policy n sz
     ∧ (∃ i, stream s = OFStream i "")
     ∧ rotThreads st'
       = rotThreads st
         ++ (if Policy.eqb policy Policy.DAILY then [length (heap st)] else []))
  ∨ (new_LogSink put_time_Ymd fname policy n sz st
     = (Raise (runtime_error ("Log File cannot be opened: " +:+ fname)), st)).
Proof.
  unfold new_LogSink.
  destruct (decide (fname ≠ "" ∧ fname ∉ denied (fs (world st)))) as [Hop|Hno].
  - left.
    destruct (LogSink_file_ok (length (heap st)) fname policy n sz st Hop)
      as (s & st' & Hc & Hf & Hm & Hn & _ & (i & Hi & _) & Hh & Ht & Hr).
    munfold. simpl. rewrite Hc. simpl.
    do 2 eexists. split; [reflexivity|]. simpl. rewrite Hh. eauto 10.
  - right. munfold. simpl. by rewrite LogSink_file_fail.
Qed.

Lemma sink_of_pure l st : (sink_of l st).2 = st.
Proof. unfold sink_of. by destruct (_ !! _). Qed.

Lemma get_sink_pure h st : (get_sink h st).2 = st.
Proof. unfold get_sink. by destruct (_ !! _). Qed.

(** What an assignment does to the heap: nothing, or one new sink. *)
Lemma setLogFile_heap l f p n sz st :
  let st' := (setLogFile put_time_Ymd l f p n sz st).2 in
  (heap st' = heap st ∧ rotThreads st' = rotThreads st)
  ∨ ∃ s, heap st' = heap st ++ [s]
      ∧ fileName s = f ∧ maxSize s = umax sz ∧ maxNumFiles s = clamp p n sz
      ∧ (∃ i, stream s = OFStream i "")
      ∧ rotThreads st'
        = rotThreads st
          ++ (if Policy.eqb p Policy.DAILY then [length (heap st)] else []).
Proof.
  simpl. destruct (setLogFile _ l f p n sz st) as [o st'] eqn:E. simpl.
  unfold setLogFile in E. unfold bind at 1 in E.
  pose proof (sink_of_pure l st) as P0.
  destruct (sink_of l st) as [[h| | |] st0]; simpl in P0; subst st0;
    try (injection E as <- <-; by left).
  unfold bind at 1 in E. pose proof (get_sink_pure h st) as P1.
  destruct (get_sink h st) as [[s| | |] st0]; simpl in P1; subst st0;
    try (injection E as <- <-; by left).
  case_bool_decide; [injection E as <- <-; by left|].
  unfold bind at 1 in E. simpl in E. unfold bind at 1 in E.
  pose proof (find_sink_pure f (_sinks st) st) as P2.
  destruct (find_sink f (_sinks st) st) as [[[h'|]| | |] st0]; simpl in P2;
    subst st0; try (injection E as <- <-; by left).
  unfold bind in E. destruct (new_LogSink_fields f p n sz st)
    as [(st1 & s' & E1 & Hh & Ht & Hf & Hm & Hn & Hi & Hr) | E1];
    rewrite E1 in E; injection E as <- <-; [|by left].
  right. exists s'. simpl. done.
Qed.

Lemma setLogFile_all_heap f p n sz st :
  let st' := (setLogFile_all put_time_Ymd f p n sz st).2 in
  (heap st' = heap st ∧ rotThreads st' = rotThreads st)
  ∨ ∃ s, heap st' = heap st ++ [s]
      ∧ fileName s = f ∧ maxSize s = umax sz ∧ maxNumFiles s = clamp p n sz
      ∧ (∃ i, stream s = OFStream i "")
      ∧ rotThreads st'
        = rotThreads st
          ++ (if Policy.eqb p Policy.DAILY then [length (heap st)] else []).
Proof.
  simpl. destruct (setLogFile_all _ f p n sz st) as [o st'] eqn:E. simpl.
  unfold setLogFile_all in E. unfold bind at 1 in E. simpl in E.
  unfold bind at 1 in E.
  pose proof (check_unassigned_pure (_sinks st) st) as P2.
  destruct (check_unassigned (_sinks st) st) as [[[]| | |] st0]; simpl in P2;
    subst st0; try (injection E as <- <-; by left).
  unfold bind in E. destruct (new_LogSink_fields f p n sz st)
    as [(st1 & s' & E1 & Hh & Ht & Hf & Hm & Hn & Hi & Hr) | E1];
    rewrite E1 in E; injection E as <- <-; [|by left].
  right. exists s'. simpl. done.
Qed.

Lemma limits_ok_new p n sz (s : LogSink) :
  maxSize s = umax sz → maxNumFiles s = clamp p n sz → limits_ok s.
Proof.
  intros Hm Hn. unfold limits_ok. rewrite Hm, Hn. unfold umax, clamp, u8.
  pose proof (Z.mod_pos_bound sz (2 ^ 64) ltac:(lia)).
  pose proof (Z.mod_pos_bound n 256 ltac:(lia)).
  split; [lia|]. destruct (Policy.eqb p Policy.MAX_SIZE); simpl.
  - case_bool_decide as Hz; [|by split; [left|]].
    split; [right; lia|done].
  - by split; [left|].
Qed.

Lemma limits_ok_run_event e st :
  (∀ h s, heap st !! h = Some s → limits_ok s) →
  ∀ h s, heap (run_event put_time_Ymd put_time_FT mktime_Ymd e st).2 !! h
         = Some s → limits_ok s.
Proof.
  intros Hall h s' Hs'. pose proof (pres_run_event e st) as Hk.
  assert (∀ st', keeps st st' → heap st' !! h = Some s' →
            (h < length (heap st))%nat → limits_ok s') as Hold.
  { intros st' Hk' Hs'' Hlt. apply lookup_lt_is_Some in Hlt as [s Hs].
    destruct (Hk' h s Hs) as (s2 & Hs2 & _ & Hm & Hn).
    assert (s2 = s') as -> by congruence.
    unfold limits_ok. rewrite Hm, Hn. by apply (Hall h s). }
  assert (∀ st', keeps st st' → heap st' !! h = Some s' →
            (heap st' = heap st ∧ rotThreads st' = rotThreads st)
            ∨ (∃ s, heap st' = heap st ++ [s] ∧ limits_ok s) →
            limits_ok s') as Hnew.
  { intros st' Hk' Hs'' [[Hh _]|(s & Hh & Hok)].
    - apply (Hold st' Hk' Hs''). rewrite <- Hh. by eapply lookup_lt_Some.
    - rewrite Hh in Hs''.
      apply lookup_app_Some in Hs'' as [Hs''|[_ Hs'']].
      + apply lookup_lt_Some in Hs'' as Hlt. apply (Hold st' Hk'); [|done].
        rewrite Hh. by apply lookup_app_l_Some.
      + apply list_lookup_singleton_Some in Hs'' as [_ <-]. done. }
  destruct (assigns e) eqn:He.
  - destruct e; try discriminate He; simpl in *.
    + destruct (setLogFile_heap level fname policy maxNumFiles_ maxSize_ st)
        as [Hh|(s & Hh & Hf & Hm & Hn & _)].
      * apply (Hnew _ Hk Hs'). by left.
      * apply (Hnew _ Hk Hs'). right. exists s. split; [done|].
        by eapply limits_ok_new.
    + destruct (setLogFile_all_heap fname policy maxNumFiles_ maxSize_ st)
        as [Hh|(s & Hh & Hf & Hm & Hn & _)].
      * apply (Hnew _ Hk Hs'). by left.
      * apply (Hnew _ Hk Hs'). right. exists s. split; [done|].
        by eapply limits_ok_new.
  - apply (Hold _ Hk Hs').
    pose proof (names_run_event e He st) as Hn. unfold same, sink_names in Hn.
    apply (f_equal length) in Hn. rewrite !length_fmap in Hn.
    rewrite <- Hn. by eapply lookup_lt_Some.
Qed.

(** X15. Whatever happens from program start on, the limits of every
    sink object are values of their C++ types, [0 <= maxSize < 2^64] and
    [maxNumFiles <= 255]; a file count is never 1, and a sink with a file
    count has a size limit. *)
Theorem limits_ok_reachable (es : list event) (w : World) (h : nat)
    (s : LogSink) :
  heap (run_events put_time_Ymd put_time_FT mktime_Ymd es (init w)) !! h
  = Some s →
  limits_ok s.
Proof.
  assert (∀ st, (∀ h s, heap st !! h = Some s → limits_ok s) →
    ∀ h s, heap (run_events put_time_Ymd put_time_FT mktime_Ymd es st) !! h
           = Some s → limits_ok s) as H.
  { induction es as [|e es IH]; intros st Hall; simpl; [done|].
    pose proof (limits_ok_run_event e st Hall) as He.
    destruct (run_event _ _ _ e st) as [[[]| | |] st']; simpl in He;
      try exact He; by apply IH. }
  apply H. intros [|[|h']] s' Hs'; simpl in Hs'; simplify_eq;
    unfold limits_ok; simpl; lia.
Qed.

(** ** Further edges of rotation and assignment *)

(** X16. A rotation by size re-dates the sink.  Right after a write has
    rotated the file, the sink is stamped with the current day whatever
    its creation date was before, so that a turn of the rotation thread
    finds nothing to do: on a sink with both a size limit and the daily
    policy, the file of an earlier day that is rotated by size is archived
    as [path.1] and never under its date. *)
Theorem size_rotation_redates_the_sink (level : LogLevel) (trace : string)
    (st : Logger) (h : nat) (s : LogSink) (hd : string) (i i0 : nat)
    (buf : string) (n : Z) :
  _sinks st !! level_index level = Some h →
  heap st !! h = Some s →
  lsm s = false →
  maxSize s ≠ 0 →
  _HEADERS !! level_index level = Some hd →
  stream s = OFStream i buf →
  names (fs (world st)) !! fileName s = Some i0 →
  fs_file_size (fs (world st)) (fileName s) = Some n →
  maxSize s < n →
  openable (fs (world st)) (fileName s) →
  ∃ st1 s1 z,
    _write put_time_Ymd put_time_FT level trace st = (Ret tt, st1)
    ∧ heap st1 !! h = Some s1
    ∧ creationDate s1 = put_time_Ymd (to_time_t (clock (world st)))
    ∧ names (fs (world st1)) !! archive (fileName s) 1 = Some i0
    ∧ _dailyRotationThread put_time_Ymd mktime_Ymd h st1 = (Ret z, st1).
Proof.
  intros Ht Hs Hl Hm Hhd Hstr Hnm Hsz Hlt Hop.
  pose proof (write_rotating_run level trace st h s hd i i0 buf n
                Ht Hs Hl Hm Hhd Hstr Hnm Hsz Hlt Hop) as Hrun.
  simpl in Hrun.
  match type of Hrun with _ = (_, ?x) => set (st1 := x) in * end.
  match eval cbv delta [st1] in st1 with
  | mkLogger (<[_ := ?x]> _) _ _ _ _ _ _ => set (s1 := x) in *
  end.
  assert (Hs1 : heap st1 !! h = Some s1).
  { apply (list_lookup_insert_same _ _ _ _ Hs). }
  exists st1, s1. eexists. split; [done|]. split; [done|]. split; [done|].
  split.
  - simpl. rewrite lookup_insert_ne by (symmetry; apply archive_ne_path).
    by rewrite lookup_insert_eq.
  - apply (daily_idle_run st1 h s1 Hs1). by left.
Qed.

(** X17. The empty file name is the name of the default sinks.  When
    neither DEBUG nor [level] has a file, [setLogFile(level, "", ..)]
    opens nothing and constructs nothing whatever the policy and the
    limits asked for: it returns, and from then on [level] shares the sink
    of DEBUG. *)
Theorem empty_name_shares_the_sink_of_DEBUG (level : LogLevel)
    (policy : Policy.t) (n sz : Z) (st : Logger) (h1 h : nat)
    (s1 s : LogSink) :
  _sinks st !! level_index DEBUG = Some h1 →
  heap st !! h1 = Some s1 →
  fileName s1 = "" →
  _sinks st !! level_index level = Some h →
  heap st !! h = Some s →
  fileName s = "" →
  let st' := set_sinks (<[level_index level := h1]>) st in
  setLogFile put_time_Ymd level "" policy n sz st = (Ret tt, st')
  ∧ _sinks st' !! level_index level = Some h1.
Proof.
  intros H1 Hs1 Hf1 Hl Hs Hf. simpl. split.
  - unfold setLogFile, bind.
    rewrite (sink_of_Some _ _ _ Hl), (get_sink_Some _ _ _ Hs).
    rewrite bool_decide_false by (by intros ?). simpl.
    assert (find_sink "" (_sinks st) st = (Ret (Some h1), st)) as ->.
    { destruct (_sinks st) as [|x tl]; [done|].
      simpl in H1. injection H1 as ->. simpl. unfold bind.
      rewrite (get_sink_Some _ _ _ Hs1). by rewrite bool_decide_true. }
    done.
  - apply list_lookup_insert_eq. by eapply lookup_lt_Some.
Qed.

(** X18. An empty file over a date boundary keeps the rotation thread
    awake.  When the day of the creation date is over and the file is
    empty, a turn of the thread rotates nothing, keeps the old creation
    date and computes a sleep that is not positive, so the next turn
    follows at once and finds the same state. *)
Theorem empty_file_keeps_the_thread_awake (st : Logger) (h : nat)
    (s : LogSink) :
  heap st !! h = Some s →
  fs_file_size (fs (world st)) (fileName s) = Some 0 →
  from_time_t (mktime_Ymd (creationDate s)) + hours24 ≤ clock (world st) →
  ∃ z, _dailyRotationThread put_time_Ymd mktime_Ymd h st = (Ret z, st)
       ∧ z ≤ 0.
Proof.
  intros Hs Hsz Hover. eexists. split.
  - apply (daily_idle_run st h s Hs). by right.
  - unfold sleep_after. lia.
Qed.

(** ** No undefined behaviour *)

Lemma keeps_sound_refl st : keeps_sound st st.
Proof. by intros b h. Qed.

Lemma keeps_sound_trans st1 st2 st3 :
  keeps_sound st1 st2 → keeps_sound st2 st3 → keeps_sound st1 st3.
Proof. intros H12 H23 b h Hs. by apply H23, H12. Qed.

Lemma keeps_sound_same_heap st st' : heap st' = heap st → keeps_sound st st'.
Proof. intros E b h (s & Hs & Hstd). exists s. by rewrite E. Qed.

Lemma keeps_sound_alter st h' f :
  (∀ s, maxSize (f s) = maxSize s
        ∧ (std_stream (stream (f s)) = true → std_stream (stream s) = true)) →
  keeps_sound st (set_heap (alter f h') st).
Proof.
  intros Hf b h (s & Hs & Hstd). unfold sound. simpl.
  destruct (decide (h' = h)) as [->|Hne].
  - rewrite list_lookup_alter_eq, Hs. simpl. exists (f s). split; [done|].
    destruct (Hf s) as [Hm Hst]. rewrite Hm. intros Hb.
    specialize (Hstd Hb). destruct (std_stream (stream (f s))); [|done].
    rewrite Hst in Hstd; done.
  - rewrite list_lookup_alter_ne by done. eauto.
Qed.

Lemma pres_bind_sound {A B} (m : M A) (k : A → M B) :
  preserving keeps_sound m → (∀ a, preserving keeps_sound (k a)) →
  preserving keeps_sound (bind m k).
Proof. apply pres_bind, keeps_sound_trans. Qed.

(** A stream that was just opened is a file stream. *)
Lemma pres_bind_open_sound {B} f (k : ostream → M B) :
  (∀ i, preserving keeps_sound (k (OFStream i ""))) →
  preserving keeps_sound (bind (_openLogFile f) k).
Proof.
  intros Hk st. unfold bind, _openLogFile.
  destruct (fs_open_append _ _ _) as [[i f']|]; simpl.
  - eapply keeps_sound_trans; [|apply Hk]. by apply keeps_sound_same_heap.
  - apply keeps_sound_refl.
Qed.

Ltac sound_leaf :=
  let st := fresh "st" in
  intros st;
  unfold file_size, rename, _openLogFile, header, modify_sink,
    get_sink, sink_of, now;
  unfold ret, gets, modify, throw, undefined, stuck;
  repeat case_match; simpl;
  first [ apply keeps_sound_refl
        | apply keeps_sound_same_heap; reflexivity
        | apply keeps_sound_alter; intros []; simpl; split;
          [reflexivity | first [done | discriminate]] ].

Ltac sound_step :=
  unfold stream_endl, stream_close, lock, unlock, discard;
  unfold stream_put, stream_flush, exists_;
  match goal with
  | |- preserving keeps_sound (bind (_openLogFile _) _) =>
      apply pres_bind_open_sound; intros ?
  | |- preserving keeps_sound (bind _ _) => apply pres_bind_sound; [|intros ?]
  | |- preserving _ (if ?b then _ else _) => destruct b
  | |- preserving _ (dual_call ?m _ _) => destruct m; simpl
  | |- preserving _ (shift_archives _ _) => solve [auto]
  | |- preserving _ (match ?x with _ => _ end) => destruct x
  | |- preserving keeps_sound _ => solve [sound_leaf]
  end.

Ltac sound_all := repeat sound_step.

Lemma sound_shift_archives path i :
  preserving keeps_sound (shift_archives path i).
Proof. induction i as [|i IH]; simpl; sound_all. Qed.

Lemma sound_run_event e :
  assigns e = false →
  preserving keeps_sound (run_event put_time_Ymd put_time_FT mktime_Ymd e).
Proof.
  pose proof sound_shift_archives.
  intros He. destruct e; simpl; try discriminate He;
    unfold debug, info, error, getDebugStream, getInfoStream, getErrorStream,
      _getStream, _write, _writeOut, _sizeRotation, ref_put, startTimer,
      stopTimer, setLevel, _dailyRotationThread;
    sound_all.
Qed.

Lemma defined_bind {A B} b h (m : M A) (k : A → M B) :
  defined b h m → preserving keeps_sound m → (∀ a, defined b h (k a)) →
  defined b h (bind m k).
Proof.
  intros Hm Hp Hk st Hs. unfold bind.
  specialize (Hm st Hs). specialize (Hp st b h Hs).
  destruct (m st) as [[a| | |] st']; simpl in *; [by apply Hk|done..].
Qed.

Lemma defined_bind_open {B} b h f (k : ostream → M B) :
  (∀ i, defined b h (k (OFStream i ""))) →
  defined b h (bind (_openLogFile f) k).
Proof.
  intros Hk st Hs. unfold bind, _openLogFile.
  destruct (fs_open_append _ _ _) as [[i f']|]; simpl; [|done].
  apply Hk. by apply (keeps_sound_same_heap st).
Qed.

Ltac defined_leaf :=
  let st := fresh "st" in let s := fresh "s" in
  let Hs := fresh "Hs" in let Hstd := fresh "Hstd" in
  intros st (s & Hs & Hstd);
  unfold file_size, rename, header, modify_sink, get_sink, sink_of, now;
  unfold ret, gets, modify, throw, stuck;
  rewrite ?Hs; repeat case_match; simpl; discriminate.

Lemma defined_stream_close h : defined true h (stream_close h).
Proof.
  intros st (s & Hs & Hstd). specialize (Hstd (or_introl eq_refl)).
  unfold stream_close, stream_flush, bind, get_sink, now, gets, modify_sink,
    modify.
  rewrite Hs. destruct (stream s) eqn:Eo; try discriminate Hstd; simpl.
  - rewrite list_lookup_alter_eq || rewrite Hs. rewrite ?Hs, ?Eo. simpl.
    discriminate.
  - discriminate.
Qed.

Ltac defined_step :=
  unfold stream_endl, lock, unlock;
  unfold stream_put, stream_flush, exists_;
  match goal with
  | |- defined _ _ (bind (_openLogFile _) _) =>
      apply defined_bind_open; intros ?
  | |- defined _ _ (bind _ _) =>
      apply defined_bind; [|solve [sound_all]|intros ?]
  | |- defined _ _ (if ?b then _ else _) => destruct b
  | |- defined true _ (stream_close _) => apply defined_stream_close
  | |- defined _ _ (shift_archives _ _) => solve [auto]
  | H : _HEADERS !! level_index ?l = Some _ |- defined _ _ (header ?l) =>
      let st := fresh "st" in
      intros st _; unfold header; rewrite H; discriminate
  | |- defined _ _ (match ?x with _ => _ end) => destruct x
  | |- defined _ _ _ => solve [defined_leaf]
  end.

Ltac defined_all := repeat defined_step.

Lemma defined_shift_archives b h path i : defined b h (shift_archives path i).
Proof.
  pose proof sound_shift_archives.
  induction i as [|i IH]; simpl; defined_all.
Qed.

Lemma defined_sizeRotation h : defined true h (_sizeRotation put_time_Ymd h).
Proof.
  pose proof sound_shift_archives. pose proof (defined_shift_archives true h).
  unfold _sizeRotation. defined_all.
Qed.

Lemma sound_sizeRotation h : preserving keeps_sound (_sizeRotation put_time_Ymd h).
Proof. pose proof sound_shift_archives. unfold _sizeRotation. sound_all. Qed.

Lemma defined_dailyRotationThread h :
  defined true h (_dailyRotationThread put_time_Ymd mktime_Ymd h).
Proof. unfold _dailyRotationThread. defined_all. Qed.

Lemma sound_write_head level h :
  preserving keeps_sound (write_head put_time_Ymd put_time_FT level h).
Proof.
  pose proof sound_shift_archives. unfold write_head, _sizeRotation. sound_all.
Qed.

Lemma defined_write_head level h hd :
  _HEADERS !! level_index level = Some hd →
  defined false h (write_head put_time_Ymd put_time_FT level h).
Proof.
  intros Hhd. unfold write_head.
  apply defined_bind; [defined_all|sound_all|intros _].
  assert (defined false h
            (do t <- now; do t' <- now; do hd <- header level;
             do_ stream_endl h;
             ret (stamp put_time_FT (to_time_t t) (millis_of t') hd)))
    as Hrest by defined_all.
  intros st (s & Hs & Hstd). unfold bind at 1.
  rewrite (get_sink_Some _ _ _ Hs). unfold bind at 1.
  assert (sound false h st) as Hfalse by (by exists s).
  case_bool_decide as Hm.
  - assert (sound true h st) as Htrue.
    { exists s. split; [done|]. intros _. apply Hstd. by right. }
    pose proof (defined_sizeRotation h st Htrue) as Hd.
    pose proof (sound_sizeRotation h st false h Hfalse) as Hp.
    destruct (_sizeRotation _ h st) as [[[]| | |] st']; simpl in *;
      [by apply Hrest|done..].
  - unfold ret. by apply Hrest.
Qed.

Lemma table_sound st level :
  table_ok st → (∀ h, is_Some (heap st !! h) → sound false h st) →
  (level_index level < 4)%nat →
  ∃ h, _sinks st !! level_index level = Some h ∧ sound false h st.
Proof.
  intros [Hlen Hall] Hsound Hlt.
  destruct (lookup_lt_is_Some_2 (_sinks st) (level_index level)) as [h Hh];
    [by rewrite Hlen|].
  exists h. split; [done|]. apply Hsound.
  by apply (proj1 (Forall_lookup _ _) Hall _ _ Hh).
Qed.

Lemma write_defined level trace st hd :
  table_ok st → (∀ h, is_Some (heap st !! h) → sound false h st) →
  _HEADERS !! level_index level = Some hd →
  (_write put_time_Ymd put_time_FT level trace st).1 ≠ Undef
  ∧ (_getStream put_time_Ymd put_time_FT level st).1 ≠ Undef.
Proof.
  intros Hok Hsound Hhd.
  destruct (table_sound st level Hok Hsound) as (h & Hh & Hs).
  { apply lookup_lt_Some in Hhd. simpl in Hhd. lia. }
  split.
  - rewrite write_as_head. unfold bind at 1. rewrite (sink_of_Some _ _ _ Hh).
    clear Hok Hsound Hh. revert st Hs.
    change (defined false h
              (do x <- write_head put_time_Ymd put_time_FT level h;
               do_ stream_put h (x +:+ trace); unlock h)).
    apply defined_bind;
      [by eapply defined_write_head|apply sound_write_head|intros x].
    defined_all.
  - unfold _getStream. unfold bind at 1.
    pose proof (pres_writeOut level st) as [_ Htb].
    assert ((_writeOut put_time_Ymd put_time_FT level st).1 ≠ Undef) as Hw.
    { rewrite writeOut_as_head. unfold bind at 1.
      rewrite (sink_of_Some _ _ _ Hh).
      clear Hok Hsound Hh Htb. revert st Hs.
      change (defined false h
                (do x <- write_head put_time_Ymd put_time_FT level h;
                 do_ stream_put h x; unlock h)).
      apply defined_bind;
        [by eapply defined_write_head|apply sound_write_head|intros x].
      defined_all. }
    destruct (_writeOut _ _ level st) as [[[]| | |] st']; simpl in *;
      try done.
    unfold bind. rewrite <- Htb in Hh. by rewrite (sink_of_Some _ _ _ Hh).
Qed.

Lemma well_formed_init w : well_formed (init w).
Proof.
  split; [apply table_ok_init|]. split.
  - intros [|[|h]] [s Hs]; simpl in Hs; simplify_eq;
      (eexists; split; [reflexivity|]; intros [?|?]; done).
  - intros h Hin. simpl in Hin. by apply elem_of_nil in Hin.
Qed.

Lemma sound_app b h st st' s :
  heap st' = heap st ++ [s] → sound b h st → sound b h st'.
Proof.
  intros Hh (s0 & Hs0 & Hstd). exists s0. rewrite Hh.
  split; [by apply lookup_app_l_Some|done].
Qed.

Lemma well_formed_grow st st' :
  table_ok st' →
  (heap st' = heap st ∧ rotThreads st' = rotThreads st)
  ∨ (∃ s p, heap st' = heap st ++ [s] ∧ (∃ i, stream s = OFStream i "")
       ∧ rotThreads st'
         = rotThreads st
           ++ (if Policy.eqb p Policy.DAILY then [length (heap st)] else [])) →
  well_formed st → well_formed st'.
Proof.
  intros Hok Hcase (_ & Hsound & Hthreads). split; [done|].
  destruct Hcase as [[Hh Hr]|(s & p & Hh & [i Hi] & Hr)].
  - split.
    + intros h Hs. apply (keeps_sound_same_heap st st' Hh), Hsound.
      by rewrite <- Hh.
    + intros h Hin. apply (keeps_sound_same_heap st st' Hh), Hthreads.
      by rewrite <- Hr.
  - assert (∀ b, sound b (length (heap st)) st') as Hnew.
    { intros b. exists s. rewrite Hh. split; [by apply list_lookup_middle|].
      intros _. by rewrite Hi. }
    split.
    + intros h [s' Hs']. rewrite Hh in Hs'.
      apply lookup_app_Some in Hs' as [Hs'|[Hge Hs']].
      * eapply sound_app; [done|]. apply Hsound. eauto.
      * apply list_lookup_singleton_Some in Hs' as [Hz _].
        assert (h = length (heap st)) as -> by lia. apply Hnew.
    + intros h Hin. rewrite Hr in Hin. apply elem_of_app in Hin as [Hin|Hin].
      * eapply sound_app; [done|]. by apply Hthreads.
      * destruct (Policy.eqb p Policy.DAILY);
          [|by apply elem_of_nil in Hin].
        apply list_elem_of_singleton in Hin as ->. apply Hnew.
Qed.

Lemma well_formed_run_event e st :
  well_formed st →
  well_formed (run_event put_time_Ymd put_time_FT mktime_Ymd e st).2.
Proof.
  intros Hwf. pose proof Hwf as (Hok & Hsound & Hthreads).
  pose proof (table_ok_run_event e st Hok) as Hok'.
  destruct (assigns e) eqn:He.
  - destruct e; try discriminate He; simpl in *.
    + apply (well_formed_grow st); [done| |done].
      destruct (setLogFile_heap level fname policy maxNumFiles_ maxSize_ st)
        as [Hh|(s & Hh & _ & _ & _ & Hi & Hr)]; [by left|right]. eauto.
    + apply (well_formed_grow st); [done| |done].
      destruct (setLogFile_all_heap fname policy maxNumFiles_ maxSize_ st)
        as [Hh|(s & Hh & _ & _ & _ & Hi & Hr)]; [by left|right]. eauto.
  - pose proof (sound_run_event e He st) as Hks.
    pose proof (names_run_event e He st) as Hn.
    pose proof (rotThreads_run_event e He st) as Hr.
    unfold same, sink_names in *.
    split; [done|]. split.
    + intros h Hs. apply Hks, Hsound.
      apply lookup_lt_is_Some. apply lookup_lt_is_Some in Hs.
      apply (f_equal length) in Hn. rewrite !length_fmap in Hn. lia.
    + intros h Hin. apply Hks, Hthreads. by rewrite <- Hr.
Qed.

Lemma well_formed_reachable es w :
  well_formed (run_events put_time_Ymd put_time_FT mktime_Ymd es (init w)).
Proof.
  assert (∀ st, well_formed st →
    well_formed (run_events put_time_Ymd put_time_FT mktime_Ymd es st)) as H.
  { induction es as [|e es IH]; intros st Hwf; simpl; [done|].
    pose proof (well_formed_run_event e st Hwf) as He.
    destruct (run_event _ _ _ e st) as [[[]| | |] st']; simpl in He; auto. }
  apply H, well_formed_init.
Qed.

Lemma defined_after_sink_of {B} level (k : nat → M B) st h :
  _sinks st !! level_index level = Some h → sound false h st →
  defined false h (k h) → (bind (sink_of level) k st).1 ≠ Undef.
Proof.
  intros Hh Hs Hk. unfold bind. rewrite (sink_of_Some _ _ _ Hh). by apply Hk.
Qed.

Lemma defined_after_gets {A B} (f : Logger → A) (k : A → M B) st :
  (k (f st) st).1 ≠ Undef → (bind (gets f) k st).1 ≠ Undef.
Proof. done. Qed.

Lemma defined_discard {A} (m : M A) st :
  (m st).1 ≠ Undef → (discard m st).1 ≠ Undef.
Proof.
  unfold discard, bind, ret. by destruct (m st) as [[a| | |] st'].
Qed.

Lemma defined_run_event e st :
  well_formed st → defined_call st e →
  (run_event put_time_Ymd put_time_FT mktime_Ymd e st).1 ≠ Undef.
Proof.
  intros (Hok & Hsound & Hthreads) Hdef.
  pose proof Hok as [Hlen Hall].
  destruct e; simpl in *.
  - unfold debug. apply defined_after_gets.
    destruct (g_debug (gates st)); simpl; [|done].
    by eapply write_defined.
  - unfold info. apply defined_after_gets.
    destruct (g_info (gates st)); simpl; [|done].
    by eapply write_defined.
  - unfold error. apply defined_after_gets.
    destruct (g_error (gates st)); simpl; [|done].
    by eapply write_defined.
  - apply defined_discard. unfold getDebugStream. apply defined_after_gets.
    destruct (g_getDebugStream (gates st)); simpl; [|done].
    by eapply (write_defined DEBUG "").
  - apply defined_discard. unfold getInfoStream. apply defined_after_gets.
    destruct (g_getInfoStream (gates st)); simpl; [|done].
    by eapply (write_defined INFO "").
  - apply defined_discard. unfold getErrorStream. apply defined_after_gets.
    destruct (g_getErrorStream (gates st)); simpl; [|done].
    by eapply (write_defined ERROR "").
  - destruct r as [|h]; simpl; [done|].
    assert (sound false h st) as Hs.
    { apply Hsound. by apply (proj1 (Forall_forall _ _) Hall). }
    clear Hok Hsound Hthreads Hdef Hlen Hall. revert st Hs.
    change (defined false h (stream_put h text)). defined_all.
  - destruct (table_sound st PROFILING Hok Hsound) as (h & Hh & Hs);
      [simpl; lia|].
    unfold startTimer. eapply defined_after_sink_of; [done|done|].
    defined_all.
  - destruct (table_sound st PROFILING Hok Hsound) as (h & Hh & Hs);
      [simpl; lia|].
    unfold stopTimer. apply defined_after_gets. apply defined_after_gets.
    eapply defined_after_sink_of; [done|done|]. defined_all.
  - by destruct level.
  - destruct (table_sound st level Hok Hsound) as (h & Hh & s & Hs & _).
    { destruct level; simpl; (lia || done). }
    unfold setLogFile, bind.
    rewrite (sink_of_Some _ _ _ Hh), (get_sink_Some _ _ _ Hs).
    case_bool_decide; [done|]. simpl.
    destruct (find_sink_cases fname _ st Hall)
      as [(h' & s' & _ & _ & _ & ->) | [_ ->]]; [done|].
    destruct (new_LogSink_outcome fname policy maxNumFiles_ maxSize_ st)
      as [(st' & s' & -> & _) | [-> _]]; done.
  - unfold setLogFile_all, bind. simpl.
    destruct (check_unassigned_cases _ st Hall)
      as [(h' & s' & _ & _ & _ & ->) | [_ ->]]; [done|].
    destruct (new_LogSink_outcome fname policy maxNumFiles_ maxSize_ st)
      as [(st' & s' & -> & _) | [-> _]]; done.
  - apply defined_discard. by apply defined_dailyRotationThread, Hthreads.
  - done.
Qed.

(** X19. The interface has no undefined behaviour on the table's
    levels.  In every state reachable from program start, a write, a
    request for a stream, text sent to a stream that an accessor handed
    out, a timer call, [setLevel], either [setLogFile] for a level that is
    an index of the table, and a turn of a rotation thread that was
    started, all have a defined outcome: no sink is missing, no index is
    out of range, no standard stream is closed as a file. *)
Theorem no_undefined_behaviour (es : list event) (w : World) (e : event) :
  defined_call (run_events put_time_Ymd put_time_FT mktime_Ymd es (init w)) e →
  (run_event put_time_Ymd put_time_FT mktime_Ymd e
     (run_events put_time_Ymd put_time_FT mktime_Ymd es (init w))).1 ≠ Undef.
Proof. apply defined_run_event, well_formed_reachable. Qed.

(** X20. [NONE] is a level but no index of the table.  In every state
    reachable from program start the table has four sinks, so that
    [setLogFile(NONE, ..)], which reads [_sinks[4]] before anything else,
    has undefined behaviour whatever its other arguments. *)
Theorem setLogFile_NONE_is_undefined (es : list event) (w : World)
    (fname : string) (policy : Policy.t) (n sz : Z) :
  let st := run_events put_time_Ymd put_time_FT mktime_Ymd es (init w) in
  length (_sinks st) = 4%nat
  ∧ (setLogFile put_time_Ymd NONE fname policy n sz st).1 = Undef.
Proof.
  simpl. destruct (table_ok_reachable es w) as [Hlen _]. split; [done|].
  unfold setLogFile, bind, sink_of.
  rewrite (lookup_ge_None_2 (_sinks _) (level_index NONE)); [done|].
  rewrite Hlen. simpl. lia.
Qed.

(** ** The mutex of a sink *)

(** Once the mutex is taken, a write waits for nothing. *)
Lemma no_stuck_after_lock level h trace :
  no_stuck (do s <- get_sink h;
            do_ (if bool_decide (maxSize s ≠ 0)
                 then _sizeRotation put_time_Ymd h else ret tt);
            write_tail put_time_FT level h trace).
Proof.
  pose proof no_stuck_shift_archives.
  unfold _sizeRotation, write_tail. repeat no_stuck_step.
Qed.

(** X21. The mutex of a sink tells how its writes ended.  A write
    waits forever exactly when the mutex of its sink is held at the call,
    and then it changes nothing; a write that returns leaves the mutex
    free, and a write that throws leaves it held. *)
Theorem write_outcome_and_mutex (level : LogLevel) (trace : string)
    (st : Logger) (h : nat) (s : LogSink) :
  _sinks st !! level_index level = Some h →
  heap st !! h = Some s →
  let r := _write put_time_Ymd put_time_FT level trace st in
  (r.1 = Stuck ↔ lsm s = true)
  ∧ (r.1 = Stuck → r.2 = st)
  ∧ (r.1 = Ret tt → ∃ s', heap r.2 !! h = Some s' ∧ lsm s' = false)
  ∧ (∀ e, r.1 = Raise e → ∃ s', heap r.2 !! h = Some s' ∧ lsm s' = true).
Proof.
  intros Hh Hs. simpl.
  destruct (lsm s) eqn:Hl.
  { destruct (write_on_locked level trace st h s Hh Hs Hl) as [-> _].
    simpl. repeat split; try done. }
  assert ((_write put_time_Ymd put_time_FT level trace st).1 ≠ Stuck) as Hns.
  { rewrite write_unfold. unfold bind at 1. rewrite (sink_of_Some _ _ _ Hh).
    unfold bind at 1. rewrite (lock_run _ _ _ Hs Hl).
    apply no_stuck_after_lock. }
  split; [split; [done|discriminate]|]. split; [done|].
  destruct (_write _ _ level trace st) as [o st'] eqn:Hw. simpl in *. split.
  - intros ->. rewrite write_as_head in Hw.
    bstep_as Hw h0 st0 E0. apply sink_of_inv in E0 as [-> E0].
    assert (h0 = h) as -> by congruence.
    bstep_as Hw x st1 E1. bstep_as Hw u st2 E2.
    unfold unlock, modify_sink, modify in Hw. injection Hw as <-. simpl.
    rewrite list_lookup_alter_eq.
    assert (is_Some (heap st2 !! h)) as [s2 Hs2].
    { pose proof (pres_write_head level h st) as [Hk1 _]. rewrite E1 in Hk1.
      destruct (Hk1 h s Hs) as (s1 & Hs1 & _).
      pose proof (pres_stream_put h (x +:+ trace) st1) as [Hk2 _].
      rewrite E2 in Hk2. destruct (Hk2 h s1 Hs1) as (s2 & Hs2 & _). eauto. }
    rewrite Hs2. simpl. eauto.
  - intros e ->.
    destruct (write_raise _ _ _ _ _ Hw) as (h' & s' & Hh' & _ & Hs' & Hl').
    assert (h' = h) as -> by congruence. eauto.
Qed.

(** ** The state at program start *)

(** X22. Before any sink is assigned, errors go to the standard error
    stream and everything else to the standard output: at program start
    [error] adds its line to [std::cerr] and leaves [std::cout] alone,
    while [debug], [info] and [startTimer] add theirs to [std::cout] and
    leave [std::cerr] alone; none of them touches the file system. *)
Theorem default_routing (w : World) (trace function : string) (ln : Z) :
  let t := clock w in
  (∃ st', error put_time_Ymd put_time_FT trace (init w) = (Ret tt, st')
     ∧ cerr (world st')
       = cerr w +:+ line put_time_FT t
                      ("*** ERROR!" +:+ nl +:+ "                         ") trace
     ∧ cout (world st') = cout w ∧ fs (world st') = fs w)
  ∧ (∃ st', debug put_time_Ymd put_time_FT trace (init w) = (Ret tt, st')
       ∧ cout (world st') = cout w +:+ line put_time_FT t "DEBUG: " trace
       ∧ cerr (world st') = cerr w ∧ fs (world st') = fs w)
  ∧ (∃ st', info put_time_Ymd put_time_FT trace (init w) = (Ret tt, st')
       ∧ cout (world st') = cout w +:+ line put_time_FT t "INFO: " trace
       ∧ cerr (world st') = cerr w ∧ fs (world st') = fs w)
  ∧ (∃ st', startTimer function ln (init w) = (Ret tt, st')
       ∧ cout (world st')
         = cout w +:+ nl +:+ "Timer #1 STARTED at " +:+ function
           +:+ " (Line " +:+ pretty ln +:+ ")"
       ∧ cerr (world st') = cerr w ∧ fs (world st') = fs w).
Proof.
  destruct w as [co ce f ck]. simpl.
  unfold error, debug, info, startTimer, _write, dual_call, init. mrun.
  split; [|split; [|split]]; eexists; (split; [reflexivity|]); simpl;
    (split; [|done]);
    unfold line, stamp; by rewrite ?string_app_assoc.
Qed.

End Properties.

(** * Examples, witnesses and counterexamples *)

(** Three timers are started and stopped four times: the durations are
    measured against the third, the second and the first start, and the
    fourth stop only reports that no timer runs. *)
Example three_timers :
  cout (world (demo_run [EStartTimer "f" 1; tick 1; EStartTimer "g" 2; tick 2;
                         EStartTimer "h" 3; tick 4;
                         EStopTimer 1000000000 "seconds" "h" 4;
                         EStopTimer 1000000000 "seconds" "g" 5;
                         EStopTimer 1000000000 "seconds" "f" 6;
                         EStopTimer 1000000000 "seconds" "f" 7]))
  = nl +:+ "Timer #1 STARTED at f (Line 1)"
    +:+ nl +:+ "Timer #2 STARTED at g (Line 2)"
    +:+ nl +:+ "Timer #3 STARTED at h (Line 3)"
    +:+ nl +:+ "Timer #3 STOPPED at h (Line 4) --- DURATION = 4 seconds"
    +:+ nl +:+ "Timer #2 STOPPED at g (Line 5) --- DURATION = 6 seconds"
    +:+ nl +:+ "Timer #1 STOPPED at f (Line 6) --- DURATION = 7 seconds"
    +:+ "Timer not started!" +:+ nl.
Proof. vm_compute. reflexivity. Qed.

(** The sizes of the unit test: 4 files and a limit of 500 bytes.  After
    120 lines the archives 1, 2 and 3 stand beside the live file and
    nothing beyond; six files were filled, three of them are gone. *)
Example four_files_of_500_bytes :
  let st := run_events demo_Ymd demo_FT demo_mktime
              (replicate 120 (EInfo "Log file (INFO)"))
              (demo_run [ESetLogFile INFO "logfile.log" Policy.MAX_SIZE 4 500]) in
  fst <$> map_to_list (names (fs (world st)))
  ≡ₚ ["logfile.log"; "logfile.log.1"; "logfile.log.2"; "logfile.log.3"]
  ∧ length (inodes (fs (world st))) = 7%nat.
Proof. split; vm_compute; [solve_Permutation | reflexivity]. Qed.

(** After [setLevel(ERROR)] an error still reaches the standard error
    stream, and a debug line reaches nothing. *)
Example error_after_setLevel_ERROR :
  let st := demo_run [ESetLevel ERROR; EDebug "Debug"; EError "Error info"] in
  cout (world st) = ""
  ∧ cerr (world st)
    = nl +:+ "1.500 - *** ERROR!" +:+ nl +:+ "                         Error info".
Proof. split; vm_compute; reflexivity. Qed.


(** Witness of C2: the rotation thread of [demo_daily] wakes two days later. *)
Lemma daily_rotation_iff_witness :
  ∃ st' sleep,
    _dailyRotationThread demo_Ymd demo_mktime 2 demo_daily = (Ret sleep, st')
    ∧ names (fs (world st')) !! "a.log.0" = Some 0%nat
    ∧ names (fs (world st')) !! "a.log" = Some 1%nat.
Proof.
  edestruct (daily_rotation_iff demo_Ymd demo_mktime demo_daily 2%nat)
    as [Hrot _].
  - vm_compute. reflexivity.
  - reflexivity.
  - reflexivity.
  - vm_compute. reflexivity.
  - vm_compute. reflexivity.
  - split; [discriminate|]. apply (bool_decide_unpack _). vm_compute. exact I.
  - destruct Hrot as (st' & s' & sleep & Hr & _ & Ha & _ & Hp & _).
    + split; vm_compute; discriminate.
    + exists st', sleep. split; [exact Hr|]. split; [exact Ha | exact Hp].
Defined.

(** Witness of C3: DEBUG already writes to a.log and is given b.log. *)
Lemma setLogFile_level_conflict_witness :
  setLogFile demo_Ymd DEBUG "b.log" Policy.NONE 0 0 demo_assigned
  = (conflict, demo_assigned).
Proof.
  edestruct (setLogFile_level_conflict demo_Ymd demo_assigned DEBUG 2%nat)
    as (Hc & _).
  - apply (bool_decide_unpack _). vm_compute. exact I.
  - reflexivity.
  - vm_compute. reflexivity.
  - apply Hc. vm_compute. discriminate.
Defined.

(** Counterexample to C3 as stated: DEBUG writes to a.log, and assigning
    it the very same path, which is not a distinct file and matches an
    existing sink, raises the conflict error instead of reusing the
    sink. *)
Lemma setLogFile_same_path_conflicts :
  _sinks demo_assigned !! level_index DEBUG = Some 2%nat
  ∧ fileName <$> heap demo_assigned !! 2%nat = Some "a.log"
  ∧ setLogFile demo_Ymd DEBUG "a.log" Policy.NONE 0 0 demo_assigned
    = (conflict, demo_assigned).
Proof. repeat split; vm_compute; reflexivity. Qed.

(** Counterexample to C4 as stated: after [setLevel(NONE)] the ERROR write
    entry point returns without writing anything. *)
Lemma error_silenced_by_NONE :
  error demo_Ymd demo_FT "Error info" (setLevel NONE (init demo_world)).2
  = (Ret tt, (setLevel NONE (init demo_world)).2)
  ∧ cerr (world (setLevel NONE (init demo_world)).2) = "".
Proof. split; reflexivity. Qed.

(** Witness of C5: the global assignment on the initial state. *)
Lemma setLogFile_all_or_nothing_witness :
  setLogFile_all demo_Ymd "all.log" Policy.NONE 0 0 (init demo_world)
  = (Ret tt,
     mkLogger
       [mkLogSink false Cout "" "" 0 0 false;
        mkLogSink false Cerr "" "" 0 0 false;
        mkLogSink false (OFStream 0 "") "all.log" "" 0 0 false]
       [2; 2; 2; 2]%nat [] (mkGates First First First First First First) "" []
       (mkWorld "" "" (FileSystem {["all.log" := 0%nat]} [File "" 1500000000] ∅)
          1500000000)).
Proof.
  edestruct (setLogFile_all_or_nothing demo_Ymd (init demo_world) "all.log"
               Policy.NONE 0 0 (table_ok_init demo_world)) as [_ Hok].
  destruct Hok as (i & f' & Ho & _ & Hr).
  - intros h s Hin Hs. simpl in Hin.
    repeat (apply elem_of_cons in Hin as [->|Hin]); simpl in Hs;
      try (by injection Hs as <-).
    by apply elem_of_nil in Hin.
  - split; [discriminate|]. apply (bool_decide_unpack _). vm_compute. exact I.
  - vm_compute in Ho. injection Ho as <- <-. rewrite Hr. vm_compute.
    reflexivity.
Defined.

(** Witness of C6: b.log cannot be opened. *)
Lemma open_failure_installs_nothing_witness :
  setLogFile_all demo_Ymd "b.log" Policy.DAILY 0 0 demo_denied
  = (Raise (runtime_error "Log File cannot be opened: b.log"), demo_denied).
Proof.
  apply (open_failure_installs_nothing demo_Ymd demo_denied "b.log"
           Policy.DAILY 0 0 (table_ok_init _)).
  - intros [_ Hd]. apply Hd. apply (bool_decide_unpack _). vm_compute. exact I.
  - intros h s Hin Hs. simpl in Hin.
    repeat (apply elem_of_cons in Hin as [->|Hin]); simpl in Hs;
      try (by injection Hs as <-).
    by apply elem_of_nil in Hin.
Defined.

(** Witness of C7: an INFO line on the initial state. *)
Lemma write_appends_line_witness :
  ∃ st' s',
    _write demo_Ymd demo_FT INFO "(INFO)" (init demo_world) = (Ret tt, st')
    ∧ sent st' 0
      = sent (init demo_world) 0 +:+ line demo_FT 1500000000 "INFO: " "(INFO)"
    ∧ heap st' !! 0%nat = Some s' ∧ lsm s' = false.
Proof.
  edestruct (write_appends_line demo_Ymd demo_FT INFO "(INFO)" (init demo_world)
               0%nat) as (_ & Hline & _).
  - reflexivity.
  - reflexivity.
  - reflexivity.
  - reflexivity.
  - apply Hline; [exact I | left; reflexivity].
Defined.

(** Counterexample to C7 as stated: DEBUG is enabled and writes to a.log
    with a size limit; once the file has been removed, the write throws. *)
Lemma write_raises_when_file_gone :
  g_debug (gates demo_unlinked) = First
  ∧ (debug demo_Ymd demo_FT "second" demo_unlinked).1
    = Raise (filesystem_error "file_size: a.log").
Proof. split; vm_compute; reflexivity. Qed.

(** Witness of C8: one file requested, two stored and kept. *)
Lemma maxNumFiles_at_least_2_witness :
  ∃ s st1,
    LogSink_file demo_Ymd 2 "a.log" Policy.MAX_SIZE 1 500 (init demo_world)
    = (Ret s, st1)
    ∧ maxNumFiles s = 2
    ∧ ∃ s', heap (run_events demo_Ymd demo_FT demo_mktime
                    [EDebug "x"; ESetLevel NONE; EDailyThread 2]
                    (set_heap (λ hp, hp ++ [s]) st1)) !! 2%nat = Some s'
            ∧ 2 ≤ maxNumFiles s'.
Proof.
  do 2 eexists. split; [vm_compute; reflexivity|].
  edestruct (maxNumFiles_at_least_2 demo_Ymd demo_FT demo_mktime 2 "a.log" 1 500
               (init demo_world)) as (Hn & _ & Hlife).
  - vm_compute. discriminate.
  - vm_compute. reflexivity.
  - split; [exact Hn|]. apply Hlife. reflexivity.
Defined.

(** Witness of C9: the second of two running timers is stopped first. *)
Lemma timers_lifo_witness :
  ∃ st', stopTimer 1000 "microseconds" "main" 38 demo_timers = (Ret tt, st')
    ∧ _timers st' = [1500000000].
Proof.
  edestruct (timers_lifo demo_timers 0%nat
               (mkLogSink false Cout "" "" 0 0 false)
               1000 "microseconds" "main" 38)
    as (_ & Hstop & _).
  - reflexivity.
  - reflexivity.
  - exact I.
  - destruct (Hstop [1500000000] 2500000000 eq_refl) as (st' & Hr & Ht & _).
    exists st'. split; assumption.
Defined.

(** Witness of C10: the rotation on the third write of [demo_unsized]. *)
Lemma size_rotation_whatever_the_policy_witness :
  ∃ st', _write demo_Ymd demo_FT DEBUG "c" demo_unsized = (Ret tt, st')
    ∧ names (fs (world st'))
      = <["a.log" := 1%nat]>
          (<["a.log.1" := 0%nat]>
             (delete "a.log" (names (fs (world demo_unsized))))).
Proof.
  edestruct (size_rotation_whatever_the_policy demo_Ymd demo_FT Policy.NONE
               2 "a.log" 0 5 (init demo_world))
    with (level := DEBUG) (trace := "c") (st := demo_unsized) (h := 2%nat)
    as (_ & st' & Hw & Hn & _).
  - vm_compute. reflexivity.
  - reflexivity.
  - vm_compute. reflexivity.
  - reflexivity.
  - reflexivity.
  - vm_compute. discriminate.
  - reflexivity.
  - reflexivity.
  - vm_compute. reflexivity.
  - vm_compute. reflexivity.
  - vm_compute. reflexivity.
  - split; [discriminate|]. apply (bool_decide_unpack _). vm_compute. exact I.
  - exists st'. split; [exact Hw | exact Hn].
Defined.

(** ** Witnesses of the further properties *)

(** File names are compared as strings.  Given two names of one file, two
    levels get two sink objects, each with a stream of its own open on
    that file. *)
Example two_names_of_one_file :
  let st := run_events demo_Ymd demo_FT demo_mktime
              [ESetLogFile DEBUG "a.log" Policy.NONE 0 0;
               ESetLogFile INFO "b.log" Policy.NONE 0 0] demo_linked in
  _sinks st !! level_index DEBUG = Some 2%nat
  ∧ _sinks st !! level_index INFO = Some 3%nat
  ∧ stream <$> heap st !! 2%nat = Some (OFStream 0 "")
  ∧ stream <$> heap st !! 3%nat = Some (OFStream 0 "").
Proof. vm_compute. repeat split; reflexivity. Qed.

(** DEBUG keeps a.log through two attempts to give it another file. *)
Lemma file_assignment_is_permanent_witness :
  _sinks (run_events demo_Ymd demo_FT demo_mktime demo_later demo_assigned)
    !! level_index DEBUG = Some 2%nat.
Proof.
  edestruct (file_assignment_is_permanent demo_Ymd demo_FT demo_mktime
               demo_assigned DEBUG 2%nat) as (Hl & _).
  - apply (bool_decide_unpack _). vm_compute. exact I.
  - reflexivity.
  - vm_compute. reflexivity.
  - vm_compute. discriminate.
  - exact Hl.
Defined.

(** The write to the removed a.log throws; the next one never returns. *)
Lemma write_that_throws_blocks_the_sink_witness :
  ∃ e st',
    _write demo_Ymd demo_FT DEBUG "x" demo_unlinked = (Raise e, st')
    ∧ _write demo_Ymd demo_FT DEBUG "y" st' = (Stuck, st').
Proof.
  do 2 eexists. split; [vm_compute; reflexivity|].
  eapply proj1.
  eapply (write_that_throws_blocks_the_sink demo_Ymd demo_FT DEBUG DEBUG
            "x" "y" demo_unlinked).
  - vm_compute. reflexivity.
  - reflexivity.
Defined.

(** The fourth write to [demo_roomy] follows the rotation by the third,
    whose line of 17 bytes is within the limit of 20; in between, the
    stream has written 5 of the bytes it held to the file. *)
Lemma write_after_rotation_does_not_rotate_witness :
  ∃ st1 st2,
    _write demo_Ymd demo_FT DEBUG "c" demo_roomy = (Ret tt, st1)
    ∧ _write demo_Ymd demo_FT DEBUG "d" (drain 2 5 st1) = (Ret tt, st2)
    ∧ names (fs (world st2)) = names (fs (world st1)).
Proof.
  edestruct (write_after_rotation_does_not_rotate demo_Ymd demo_FT DEBUG DEBUG
               "c" "d" demo_roomy 2%nat
               (mkLogSink false (OFStream 0 "1.500 - DEBUG: b") "a.log" "" 20 4
                  false)
               "DEBUG: " "DEBUG: ")
    as (st1 & H1 & Hk).
  - reflexivity.
  - reflexivity.
  - vm_compute. reflexivity.
  - reflexivity.
  - vm_compute. discriminate.
  - reflexivity.
  - reflexivity.
  - reflexivity.
  - vm_compute. reflexivity.
  - vm_compute. reflexivity.
  - vm_compute. reflexivity.
  - split; [discriminate|]. apply (bool_decide_unpack _). vm_compute. exact I.
  - destruct (Hk 5%nat) as (st2 & H2 & Hn & _).
    exists st1, st2. split; [exact H1|]. split; [exact H2 | exact Hn].
Defined.

(** Without that bound the next write may rotate again.  On [demo_sized],
    limited to 5 bytes, the line of the third write has 17; once the
    stream has written it to the fresh file, the fourth write finds the
    file above the limit and starts a third file. *)
Example long_line_rotates_again :
  let st1 := (_write demo_Ymd demo_FT DEBUG "c" demo_sized).2 in
  let st2 := (_write demo_Ymd demo_FT DEBUG "d" (drain 2 16 st1)).2 in
  names (fs (world st1)) !! "a.log" = Some 1%nat
  ∧ names (fs (world st2)) !! "a.log.2" = Some 0%nat
  ∧ names (fs (world st2)) !! "a.log.1" = Some 1%nat
  ∧ names (fs (world st2)) !! "a.log" = Some 2%nat.
Proof. vm_compute. repeat split; reflexivity. Qed.

(** Three lines on the standard output. *)
Lemma writes_append_in_order_witness :
  ∃ st',
    write_all demo_Ymd demo_FT demo_msgs (init demo_world) = (Ret tt, st')
    ∧ sent st' 0%nat
      = sent (init demo_world) 0%nat +:+ lines demo_FT 1500000000 demo_msgs.
Proof.
  edestruct (writes_append_in_order demo_Ymd demo_FT demo_msgs
               (init demo_world) 0%nat)
    as (st' & s' & Hw & Hsent & _).
  - repeat constructor; simpl; eexists; reflexivity.
  - reflexivity.
  - reflexivity.
  - reflexivity.
  - exact I.
  - exists st'. split; [exact Hw | exact Hsent].
Defined.

(** Two turns of the rotation thread of [demo_daily]; in the second,
    [std::mktime] returns an hour more. *)
Lemma daily_turn_is_idempotent_witness :
  ∃ z st',
    _dailyRotationThread demo_Ymd demo_mktime 2 demo_daily = (Ret z, st')
    ∧ ∃ z', _dailyRotationThread demo_Ymd (λ _, 3600) 2 st' = (Ret z', st').
Proof.
  do 2 eexists. split; [vm_compute; reflexivity|].
  eapply (daily_turn_is_idempotent demo_Ymd demo_mktime 2 demo_daily).
  vm_compute. reflexivity.
Defined.

(** INFO is given old.log, which holds "previous". *)
Lemma new_sink_appends_to_existing_file_witness :
  ∃ st1 st2,
    setLogFile demo_Ymd INFO "old.log" Policy.NONE 0 0 demo_stale = (Ret tt, st1)
    ∧ _write demo_Ymd demo_FT INFO "x" st1 = (Ret tt, st2)
    ∧ sent st2 2%nat
      = "previous" +:+ line demo_FT 259200000000000 "INFO: " "x".
Proof.
  edestruct (new_sink_appends_to_existing_file demo_Ymd demo_FT INFO "old.log"
               Policy.NONE 0 0 demo_stale 0%nat
               (mkLogSink false Cout "" "" 0 0 false) 0%nat
               (File "previous" 86400000000000) "INFO: " "x")
    as (st1 & st2 & H1 & _ & _ & H2 & Hsent).
  - apply table_ok_init.
  - reflexivity.
  - reflexivity.
  - reflexivity.
  - intros [|[|h]] s _ Hs; simpl in Hs; simplify_eq; discriminate.
  - split; [discriminate|]. apply (bool_decide_unpack _). vm_compute. exact I.
  - vm_compute. reflexivity.
  - reflexivity.
  - reflexivity.
  - left. reflexivity.
  - exists st1, st2. split; [exact H1|]. split; [exact H2 | exact Hsent].
Defined.

(** INFO is given old.log with the daily policy; the first turn of the
    rotation thread moves the file to old.log.1. *)
Lemma daily_sink_is_dated_by_its_file_witness :
  ∃ st1 z st2,
    setLogFile demo_Ymd INFO "old.log" Policy.DAILY 0 0 demo_stale = (Ret tt, st1)
    ∧ _dailyRotationThread demo_Ymd demo_mktime 2 st1 = (Ret z, st2)
    ∧ names (fs (world st2)) !! "old.log.1" = Some 0%nat.
Proof.
  edestruct (daily_sink_is_dated_by_its_file demo_Ymd demo_mktime INFO "old.log"
               0 0 demo_stale 0%nat (mkLogSink false Cout "" "" 0 0 false))
    as [Hex _].
  - apply table_ok_init.
  - reflexivity.
  - reflexivity.
  - reflexivity.
  - intros [|[|h]] s _ Hs; simpl in Hs; simplify_eq; discriminate.
  - split; [discriminate|]. apply (bool_decide_unpack _). vm_compute. exact I.
  - destruct (Hex 0%nat (File "previous" 86400000000000))
      as (st1 & s1 & H1 & _ & _ & _ & Hturn).
    + vm_compute. reflexivity.
    + reflexivity.
    + destruct Hturn as (z & st2 & s2 & Ht & Hn & _).
      * vm_compute. discriminate.
      * discriminate.
      * exists st1, z, st2. split; [exact H1|]. split; [exact Ht | exact Hn].
Defined.

(** The milliseconds of 1.5 s and of 2.5 s after the epoch. *)
Lemma millisecond_field_is_three_digits_witness :
  String.length (setw3 (millis_of 1500000000)) = 3%nat.
Proof.
  apply (millisecond_field_is_three_digits 1500000000 2500000000); lia.
Defined.

(** The sink of a.log, asked for one file of at most 500 bytes. *)
Lemma limits_ok_reachable_witness :
  ∃ s,
    heap (demo_run [ESetLogFile DEBUG "a.log" Policy.MAX_SIZE 1 500]) !! 2%nat
    = Some s
    ∧ limits_ok s.
Proof.
  eexists. split; [vm_compute; reflexivity|].
  eapply (limits_ok_reachable demo_Ymd demo_FT demo_mktime
            [ESetLogFile DEBUG "a.log" Policy.MAX_SIZE 1 500] demo_world 2%nat).
  vm_compute. reflexivity.
Defined.

(** The third write to [demo_sized_daily] comes two days after the
    second. *)
Lemma size_rotation_redates_the_sink_witness :
  ∃ st1 z,
    _write demo_Ymd demo_FT DEBUG "c" demo_sized_daily = (Ret tt, st1)
    ∧ names (fs (world st1)) !! "a.log.1" = Some 0%nat
    ∧ _dailyRotationThread demo_Ymd demo_mktime 2 st1 = (Ret z, st1).
Proof.
  edestruct (size_rotation_redates_the_sink demo_Ymd demo_FT demo_mktime DEBUG
               "c" demo_sized_daily 2%nat)
    as (st1 & s1 & z & Hw & _ & _ & Ha & Hd).
  - reflexivity.
  - vm_compute. reflexivity.
  - reflexivity.
  - vm_compute. discriminate.
  - reflexivity.
  - reflexivity.
  - vm_compute. reflexivity.
  - vm_compute. reflexivity.
  - vm_compute. reflexivity.
  - split; [discriminate|]. apply (bool_decide_unpack _). vm_compute. exact I.
  - exists st1, z. split; [exact Hw|]. split; [exact Ha | exact Hd].
Defined.

(** At program start, the empty name sends ERROR to the standard
    output. *)
Lemma empty_name_shares_the_sink_of_DEBUG_witness :
  ∃ st',
    setLogFile demo_Ymd ERROR "" Policy.MAX_SIZE 4 500 (init demo_world)
    = (Ret tt, st')
    ∧ _sinks st' = [0; 0; 0; 0]%nat.
Proof.
  edestruct (empty_name_shares_the_sink_of_DEBUG demo_Ymd ERROR Policy.MAX_SIZE
               4 500 (init demo_world) 0%nat 1%nat) as [Hr _].
  - reflexivity.
  - reflexivity.
  - reflexivity.
  - reflexivity.
  - reflexivity.
  - reflexivity.
  - eexists. split; [exact Hr | reflexivity].
Defined.

(** The rotation thread of [demo_quiet], two days on. *)
Lemma empty_file_keeps_the_thread_awake_witness :
  ∃ z, _dailyRotationThread demo_Ymd demo_mktime 2 demo_quiet
       = (Ret z, demo_quiet)
       ∧ z ≤ 0.
Proof.
  edestruct (empty_file_keeps_the_thread_awake demo_Ymd demo_mktime
               demo_quiet 2%nat) as (z & Hr & Hz).
  - vm_compute. reflexivity.
  - vm_compute. reflexivity.
  - vm_compute. discriminate.
  - exists z. split; [exact Hr | exact Hz].
Defined.

(** The write to the removed a.log throws and keeps the mutex. *)
Lemma write_outcome_and_mutex_witness :
  ∃ s', heap (_write demo_Ymd demo_FT DEBUG "x" demo_unlinked).2 !! 2%nat
        = Some s'
        ∧ lsm s' = true.
Proof.
  edestruct (write_outcome_and_mutex demo_Ymd demo_FT DEBUG "x" demo_unlinked
               2%nat) as (_ & _ & _ & Hr).
  - reflexivity.
  - vm_compute. reflexivity.
  - eapply Hr. vm_compute. reflexivity.
Defined.

(** A turn of the rotation thread that [demo_sized_daily] started. *)
Lemma no_undefined_behaviour_witness :
  ∃ o st',
    run_event demo_Ymd demo_FT demo_mktime (EDailyThread 2) demo_sized_daily
    = (o, st')
    ∧ o ≠ Undef.
Proof.
  pose proof (no_undefined_behaviour demo_Ymd demo_FT demo_mktime
                [ESetLogFile DEBUG "a.log" Policy.DAILY 0 5;
                 EDebug "0123456789"; EDebug "b"; tick 172800]
                demo_world (EDailyThread 2)) as H.
  fold (demo_run [ESetLogFile DEBUG "a.log" Policy.DAILY 0 5;
                  EDebug "0123456789"; EDebug "b"; tick 172800]) in H.
  fold demo_sized_daily in H.
  assert (defined_call demo_sized_daily (EDailyThread 2)) as Hdef.
  { change (2%nat ∈ rotThreads demo_sized_daily).
    apply (bool_decide_unpack _). vm_compute. exact I. }
  specialize (H Hdef).
  destruct (run_event demo_Ymd demo_FT demo_mktime (EDailyThread 2)
              demo_sized_daily) as [o st'].
  exists o, st'. split; [reflexivity | exact H].
Defined.
